(** * FeelyAI tool-call orchestration: a shallow embedding

    The development follows the tool-call engine of the chat composable
    [useChat] (schema-example synthesis, call validation, sequencing,
    deduplication, the permission gate and the execution loop) and the
    call extractor of the model worker.  JavaScript values that reach
    these functions are JSON documents; [undefined] is [None] of an
    [option].  Asynchronous calls are run to completion in program
    order; what the sandbox, in-process evaluation and the providers
    answer is given by the platform, which threads the outside world.
    The world holds [localStorage]: code evaluated in the page may
    rewrite its entries, the sandbox and the providers may not.

    Beside the engine, the development covers the message store
    [MessageStore] (IndexedDB object stores as key-ordered lists, their
    indexes as stable sorts), the provider list of the composable
    ([addServer], [toggleServer], [removeServer]) and the way the history
    is prepared for the model ([llmTools], the replay of tool calls). *)

From Stdlib Require Import ZArith Ascii String List Bool Lia DecimalString Sorted.
From stdpp Require Import base list gmap strings sorting.
Import ListNotations.

Open Scope string_scope.
Open Scope list_scope.

#[local] Set Warnings "-register-all,-clear-no-such-hyp".

(** ** JSON values as JavaScript sees them *)

Module Json.

(** A JSON document.  Object fields are listed in property enumeration
    order and carry distinct keys.  Numbers are modelled by integers: the
    engine only tests them for being zero and only ever builds [123]. *)
Inductive json : Type :=
| JNull
| JBool (b : bool)
| JNum (n : Z)
| JStr (s : string)
| JArr (items : list json)
| JObj (fields : list (string * json)).

(** JavaScript truthiness of a JSON value. *)
Definition truthy (v : json) : bool :=
  match v with
  | JNull => false
  | JBool b => b
  | JNum n => negb (n =? 0)%Z
  | JStr s => negb (s =? "")
  | JArr _ | JObj _ => true
  end.

(** Truthiness of a possibly [undefined] value. *)
Definition truthyU (v : option json) : bool :=
  match v with
  | Some j => truthy j
  | None => false
  end.

(** Own-property lookup in an object's field list. *)
Fixpoint lookup (k : string) (fs : list (string * json)) : option json :=
  match fs with
  | [] => None
  | (k', v) :: rest => if k' =? k then Some v else lookup k rest
  end.

(** [v.k] for a non-null value [v] and a key [k] that is neither an array
    index, nor [length], nor a name found on a built-in prototype: an
    object answers with its own property, anything else with [undefined]. *)
Definition get (k : string) (v : json) : option json :=
  match v with
  | JObj fs => lookup k fs
  | _ => None
  end.

(** [a || b] on possibly undefined values. *)
Definition orElse (a b : option json) : option json :=
  if truthyU a then a else b.

(** Decimal rendering of an array index. *)
Definition indexKey (i : nat) : string :=
  NilEmpty.string_of_uint (Nat.to_uint i).

(** [needle] occurs in [hay] ([String.prototype.includes]). *)
Fixpoint includes (needle hay : string) : bool :=
  String.prefix needle hay
  || match hay with
     | EmptyString => false
     | String _ rest => includes needle rest
     end.

(** The one-character strings of [s], as [Object.entries] lists them. *)
Fixpoint chars (s : string) : list json :=
  match s with
  | EmptyString => []
  | String c rest => JStr (String c EmptyString) :: chars rest
  end.

(** Pair the elements of a list with their index keys, from [i] on. *)
Fixpoint indexed (i : nat) (l : list json) : list (string * json) :=
  match l with
  | [] => []
  | x :: rest => (indexKey i, x) :: indexed (S i) rest
  end.

(** [Object.entries(v)] for a truthy JSON value [v]. *)
Definition entries (v : json) : list (string * json) :=
  match v with
  | JObj fs => fs
  | JArr l => indexed 0 l
  | JStr s => indexed 0 (chars s)
  | _ => []
  end.

(** [String(v)], the text a template literal or a string concatenation
    puts in place of [v]. *)
Fixpoint display (v : json) : string :=
  match v with
  | JNull => "null"
  | JBool true => "true"
  | JBool false => "false"
  | JNum n => NilEmpty.string_of_int (Z.to_int n)
  | JStr s => s
  | JArr l =>
      String.concat ","
        (map (fun x => match x with JNull => "" | _ => display x end) l)
  | JObj _ => "[object Object]"
  end.

Definition displayU (v : option json) : string :=
  match v with
  | Some j => display j
  | None => "undefined"
  end.

(** Nesting depth, the measure the recursive walks descend on. *)
Fixpoint depth (v : json) : nat :=
  match v with
  | JArr l => S (fold_right (fun x n => Nat.max (depth x) n) 0 l)
  | JObj fs => S (fold_right (fun kv n => Nat.max (depth (snd kv)) n) 0 fs)
  | _ => 0
  end.

End Json.
Import Json.

(** ** The schema-example synthesizer ([generateExample]) *)

Module Example.

(** [requiredFields.includes(key)] where [requiredFields] is
    [schema.required || []].  [None] is the [TypeError] raised when the
    truthy [required] value has no [includes] method. *)
Definition requiredIncludes (required : option json) (key : string) : option bool :=
  match orElse required (Some (JArr [])) with
  | Some (JArr l) => Some (existsb (fun r => match r with JStr s => s =? key | _ => false end) l)
  | Some (JStr s) => Some (includes key s)
  | _ => None
  end.

(** [example[key] = value] on the object [example] under construction,
    whose keys so far differ from [key].  The key [__proto__] reaches the
    setter that [Object.prototype] holds under that name: the prototype
    of [example] changes when the value is an object or [null], and in
    no case does [example] gain an own property. *)
Definition assign (key : string) (value : json) (example : list (string * json))
    : list (string * json) :=
  if key =? "__proto__" then example else (key, value) :: example.

(** The loop over [Object.entries(schema.properties)]: [example] is built
    in entry order from the required entries; the first raised error
    aborts the loop. *)
Fixpoint requiredEntries (gen : json -> option json) (required : option json)
    (es : list (string * json)) : option (list (string * json)) :=
  match es with
  | [] => Some []
  | (key, propSchema) :: rest =>
      match requiredIncludes required key with
      | None => None
      | Some true =>
          match gen propSchema with
          | None => None
          | Some ex =>
              match requiredEntries gen required rest with
              | None => None
              | Some more => Some (assign key ex more)
              end
          end
      | Some false => requiredEntries gen required rest
      end
  end.

(** [schema.enum && schema.enum.length > 0] together with the value of
    [schema.enum[0]] it guards.  The outer [None] marks an object-valued
    [enum], which this model leaves out. *)
Definition enumHead (e : option json) : option (option json) :=
  match e with
  | Some (JArr (x :: _)) => Some (Some x)
  | Some (JStr (String c _)) => Some (Some (JStr (String c EmptyString)))
  | Some (JObj _) => None
  | _ => Some None
  end.

(** [Array.isArray(schema.type) ? schema.type[0] : schema.type]. *)
Definition schemaType (t : option json) : option json :=
  match t with
  | Some (JArr l) => head l
  | _ => t
  end.

Definition isType (t : option json) (name : string) : bool :=
  match t with
  | Some (JStr s) => s =? name
  | _ => false
  end.

(** [generateExample], with the recursion bounded by [fuel].  The result
    [None] stands for a raised [TypeError], an object-valued [enum], or
    exhausted fuel. *)
Fixpoint generateExampleFuel (fuel : nat) (schema : option json) : option json :=
  match fuel with
  | 0 => None
  | S fuel' =>
      match schema with
      | None => Some (JObj [])
      | Some s =>
          if negb (truthy s) then Some (JObj [])
          else if truthyU (get "example" s) then get "example" s
          else if truthyU (get "default" s) then get "default" s
          else if truthyU (get "const" s) then get "const" s
          else
            match enumHead (get "enum" s) with
            | None => None
            | Some (Some first) => Some first
            | Some None =>
                let type := schemaType (get "type" s) in
                if isType type "object" then
                  if truthyU (get "properties" s) then
                    match requiredEntries (fun p => generateExampleFuel fuel' (Some p))
                            (get "required" s)
                            (match get "properties" s with Some p => entries p | None => [] end) with
                    | Some example => Some (JObj example)
                    | None => None
                    end
                  else Some (JObj [])
                else if isType type "array" then
                  if truthyU (get "items" s) then
                    match generateExampleFuel fuel' (get "items" s) with
                    | Some ex => Some (JArr [ex])
                    | None => None
                    end
                  else Some (JArr [])
                else if isType type "string" then Some (JStr "example_string")
                else if isType type "number" || isType type "integer" then Some (JNum 123)
                else if isType type "boolean" then Some (JBool true)
                else if isType type "null" then Some JNull
                else Some (JObj [])
            end
      end
  end.

(** Enough fuel for any walk over [schema]. *)
Definition fuelFor (schema : option json) : nat :=
  match schema with
  | Some s => S (depth s)
  | None => 1
  end.

Definition generateExample (schema : option json) : option json :=
  generateExampleFuel (fuelFor schema) schema.

(** *** What the synthesizer is expected to return

    The value a schema short-circuits to: a truthy [example], [default]
    or [const], in that order, else the first element of a non-empty
    [enum] array. *)
Definition literal (s : json) : option json :=
  if truthyU (get "example" s) then get "example" s
  else if truthyU (get "default" s) then get "default" s
  else if truthyU (get "const" s) then get "const" s
  else match get "enum" s with
       | Some (JArr (x :: _)) => Some x
       | _ => None
       end.

(** [enum] is absent, an array, or a value the test on its length skips:
    the values it lists. *)
Definition enumList (enum : option json) : option (list json) :=
  match enum with
  | Some (JArr l) => Some l
  | Some (JObj _) => None
  | Some (JStr s) => if s =? "" then Some [] else None
  | _ => Some []
  end.

(** [required] is absent, falsy or an array: the names it lists. *)
Definition requiredNames (required : option json) : option (list string) :=
  match required with
  | Some (JArr l) => Some (omap (fun r => match r with JStr n => Some n | _ => None end) l)
  | Some (JObj _) => None
  | Some (JStr s) => if s =? "" then Some [] else None
  | Some v => if truthy v then None else Some []
  | None => Some []
  end.

(** [properties] is absent, falsy or an object: its entries. *)
Definition propertyList (properties : option json) : option (list (string * json)) :=
  match properties with
  | Some (JObj ps) => Some ps
  | Some (JArr _) => None
  | Some (JStr s) => if s =? "" then Some [] else None
  | Some _ => Some []
  | None => Some []
  end.

(** All the examples of a list of entries, or none of them. *)
Fixpoint collect (es : list (string * option json)) : option (list (string * json)) :=
  match es with
  | [] => Some []
  | (k, Some e) :: rest => option_map (cons (k, e)) (collect rest)
  | (_, None) :: _ => None
  end.

(** The entries an object keeps as own properties: all but one named
    [__proto__]. *)
Definition ownEntries (es : list (string * json)) : list (string * json) :=
  filter (fun kv => fst kv <> "__proto__") es.

(** The type-based example of a schema with no literal, written from the
    description of the synthesizer: the required entries of [properties]
    for an object (each synthesized, the one named [__proto__] then left
    out), one element for an array with [items], the stand-ins for the
    primitive types. *)
Definition synthesize (s : json) (req : list string) (ps : list (string * json)) : option json :=
  let type := schemaType (get "type" s) in
  if isType type "object" then
    option_map (fun es => JObj (ownEntries es))
      (collect (map (fun kp => (fst kp, generateExample (Some (snd kp))))
                  (filter (fun kp => fst kp ∈ req) ps)))
  else if isType type "array" then
    if truthyU (get "items" s)
    then option_map (fun e => JArr [e]) (generateExample (get "items" s))
    else Some (JArr [])
  else if isType type "string" then Some (JStr "example_string")
  else if isType type "number" then Some (JNum 123)
  else if isType type "integer" then Some (JNum 123)
  else if isType type "boolean" then Some (JBool true)
  else if isType type "null" then Some JNull
  else Some (JObj []).

End Example.

(** ** The platform the engine runs on

    Library and host functions the engine calls but does not define.  A
    failure carries the [message] of the error that was raised. *)

Inductive Result (A : Type) : Type :=
| Ok (a : A)
| Err (message : string).
Arguments Ok {A} a.
Arguments Err {A} message.

(** What [ajv.compile(schema)] followed by [validate(args)] and
    [ajv.errorsText] yields. *)
Inductive AjvOutcome : Type :=
| AjvValid
| AjvInvalid (errorsText : string)
| AjvThrows (message : string).

(** The value produced by evaluated code, as the engine inspects it: a
    string, or something else together with what
    [JSON.stringify(result, null, 2)] does on it. *)
Inductive EvalValue : Type :=
| EvString (s : string)
| EvOther (stringified : Result (option string)).

(** The ways [evalSafe] settles: a reply of the worker ([success] true or
    false), the worker's [onerror], or the 1000 ms watchdog. *)
Inductive SafeOutcome : Type :=
| SafeSuccess (result : EvalValue)
| SafeErrorResult (error : string)
| SafeException (message : string)
| SafeTimeout.

(** The ways [new Function(code)()] ends: a returned value, a thrown value
    whose [message] renders as the given text, or a thrown [null] or
    [undefined], on which reading [message] raises an error of its own. *)
Inductive DirectOutcome : Type :=
| DirectReturned (result : EvalValue)
| DirectThrew (message : string)
| DirectThrewUnreadable (message : string).

(** A tool definition as the registry holds it
    ([{ type: "function", function: { name, description, parameters } }]). *)
Record ToolDef : Type := {
  tool_name : string;
  tool_description : option string;
  tool_parameters : option json
}.

(** A connected provider's client: its identity and the tools it listed. *)
Record McpClient : Type := {
  client_url : string;
  client_tools : list ToolDef
}.

Class Platform : Type := {
  (** Everything outside the engine that evaluated code and providers may
      read or change, the entries of [localStorage] among it. *)
  World : Type;
  (** [localStorage.getItem(key)], [None] for [null]. *)
  localStorage_getItem : string -> World -> option string;
  (** [localStorage.setItem(key, value)], taken to succeed. *)
  localStorage_setItem : string -> string -> World -> World;
  (** An entry reads back as it was written. *)
  getItem_setItem :
    forall key value w, localStorage_getItem key (localStorage_setItem key value w) = Some value;
  (** [JSON.parse]. *)
  JSON_parse : string -> Result json;
  (** [JSON.stringify(v)]. *)
  JSON_stringify : json -> string;
  (** [JSON.stringify(v, null, 2)]. *)
  JSON_pretty : json -> string;
  (** The schema validator, taken to depend on the schema and the
      document alone. *)
  ajv_validate : json -> json -> AjvOutcome;
  (** The engine's text for the [TypeError] of reading a property of
      [null]. *)
  nullReadMessage : string -> string;
  (** The engine's text for a raised [TypeError] of any other kind, by
      the expression that raised it. *)
  typeErrorMessage : string -> string;
  (** [new RegExp(query, 'i')] and its [test]. *)
  regExp : json -> Result (string -> bool);
  (** [String.prototype.toLowerCase], which follows the case mappings of
      Unicode: beside the letters A to Z it lowers the capitals of other
      scripts and the letter-like signs (the Kelvin sign becomes [k]). *)
  toLowerCase : string -> string;
  (** The empty string has nothing to lower. *)
  toLowerCase_nil : toLowerCase "" = "";
  (** [evalSafe(code)]: the code runs in a worker of its own. *)
  evalSafe : option json -> World -> SafeOutcome * World;
  (** A worker has no [localStorage]: the entries stay as they are. *)
  evalSafe_storage :
    forall code w key,
      localStorage_getItem key (snd (evalSafe code w)) = localStorage_getItem key w;
  (** [new Function(code)()]: the code runs in the page, with the global
      scope at hand, and may read and write every entry of
      [localStorage]; the variables of the composable's module are taken
      to be out of its reach. *)
  evalDirect : option json -> World -> DirectOutcome * World;
  (** [server.client.callTool(name, args)]. *)
  callTool : McpClient -> string -> json -> World -> Result string * World;
  (** The provider's client exchanges messages with its server and
      leaves [localStorage] alone. *)
  callTool_storage :
    forall client name args w key,
      localStorage_getItem key (snd (callTool client name args w)) = localStorage_getItem key w;
  (** The [k]-th call identifier drawn from [Math.random]. *)
  randomId : nat -> string
}.

(** ** The call extractor of the model worker ([extractTools])

    Text is a list of code units, here the 8-bit characters. *)

Module Extractor.

Definition text := list ascii.

Definition quoteChar : ascii := ascii_of_nat 34.
Definition backslash : ascii := ascii_of_nat 92.
Definition openBrace : ascii := ascii_of_nat 123.
Definition closeBrace : ascii := ascii_of_nat 125.
Definition openBracket : ascii := ascii_of_nat 91.
Definition closeBracket : ascii := ascii_of_nat 93.
Definition openParen : ascii := ascii_of_nat 40.

Definition isChar (c d : ascii) : bool := Ascii.eqb c d.

(** [pat] starts [s]: what follows it. *)
Fixpoint stripPrefix (pat s : text) : option text :=
  match pat, s with
  | [], _ => Some s
  | p :: pat', c :: s' => if isChar p c then stripPrefix pat' s' else None
  | _ :: _, [] => None
  end.

(** Global replacement of a literal, non-empty [pat] by the empty string:
    matches are
    taken left to right and do not overlap; [skip] counts the characters
    of the current match still to be dropped. *)
Fixpoint removeAllFrom (pat : text) (skip : nat) (s : text) : text :=
  match s with
  | [] => []
  | c :: rest =>
      match skip with
      | S k => removeAllFrom pat k rest
      | 0 =>
          match stripPrefix pat s with
          | Some _ => removeAllFrom pat (Nat.pred (length pat)) rest
          | None => c :: removeAllFrom pat 0 rest
          end
      end
  end.

Definition removeAll (pat : string) (s : text) : text :=
  removeAllFrom (list_ascii_of_string pat) 0 s.

(** White space as [trim] sees it among the 8-bit code units. *)
Definition isWhite (c : ascii) : bool :=
  let n := nat_of_ascii c in
  ((9 <=? n)%nat && (n <=? 13)%nat) || (n =? 32)%nat || (n =? 160)%nat.

Fixpoint trimStart (s : text) : text :=
  match s with
  | c :: rest => if isWhite c then trimStart rest else s
  | [] => []
  end.

Definition trim (s : text) : text := rev (trimStart (rev (trimStart s))).

(** Step 1: the fence markers (with and without the json tag) are removed,
    then the text is trimmed. *)
Definition cleanText (raw : text) : text :=
  trim (removeAll "```" (removeAll "```json" raw)).

(** The text from the first [c] on. *)
Fixpoint fromFirst (c : ascii) (s : text) : text :=
  match s with
  | d :: rest => if isChar c d then s else fromFirst c rest
  | [] => []
  end.

(** The text up to and including the last [c]; empty when there is none. *)
Definition uptoLast (c : ascii) (s : text) : text := rev (fromFirst c (rev s)).

(** The greedy bracket pattern of strategy A: the span from the first
    opening bracket to the last closing bracket after it. *)
Definition arrayMatch (s : text) : option text :=
  match uptoLast closeBracket (fromFirst openBracket s) with
  | [] => None
  | span => Some span
  end.

(** A word character of the regular expressions: an ASCII letter, a digit
    or the underscore. *)
Definition isWord (c : ascii) : bool :=
  let n := nat_of_ascii c in
  ((48 <=? n)%nat && (n <=? 57)%nat) || ((65 <=? n)%nat && (n <=? 90)%nat)
  || ((97 <=? n)%nat && (n <=? 122)%nat) || (n =? 95)%nat.

(** The first of [pats] that starts [s]: what follows it. *)
Fixpoint stripAny (pats : list string) (s : text) : option text :=
  match pats with
  | [] => None
  | p :: more =>
      match stripPrefix (list_ascii_of_string p) s with
      | Some rest => Some rest
      | None => stripAny more s
      end
  end.

(** The longest run of word characters that starts [s], and the rest. *)
Fixpoint spanWord (s : text) : text * text :=
  match s with
  | c :: rest =>
      if isWord c then let (w, r) := spanWord rest in (c :: w, r) else ([], s)
  | [] => ([], [])
  end.

Definition openTags : list string := ["<tool_code>"; "<tool_call>"].
Definition closers : list string := ["})</tool_code>"; "})</tool_call>"].

(** The lazy middle of the tag pattern: the text before the first
    closing brace, parenthesis and end tag. *)
Fixpoint untilCloser (s : text) : option text :=
  match stripAny closers s with
  | Some _ => Some []
  | None =>
      match s with
      | [] => None
      | c :: rest => option_map (cons c) (untilCloser rest)
      end
  end.

(** The tag pattern of strategy C anchored at the start of [s]: the tool
    name and the braces-delimited argument text. *)
Definition xmlMatchHere (s : text) : option (text * text) :=
  match stripAny openTags s with
  | None => None
  | Some s1 =>
      match spanWord s1 with
      | ([], _) => None
      | (toolName, p :: b :: s2) =>
          if isChar p openParen && isChar b openBrace then
            option_map (fun mid => (toolName, openBrace :: mid ++ [closeBrace])) (untilCloser s2)
          else None
      | _ => None
      end
  end.

(** The leftmost match of the tag pattern. *)
Fixpoint xmlMatch (s : text) : option (text * text) :=
  match xmlMatchHere s with
  | Some m => Some m
  | None =>
      match s with
      | [] => None
      | _ :: rest => xmlMatch rest
      end
  end.

(** A tool call as [formatTools] shapes it (its [type] is always the
    same and is left out). *)
Record ExtractedCall : Type := {
  ex_id : string;
  ex_name : option json;
  ex_arguments : string
}.

Section WithPlatform.
Context `{Platform}.

(** One element of [formatTools]' [map]; reading a property of [null]
    raises. *)
Definition formatTool (k : nat) (tc : json) : option ExtractedCall :=
  match tc with
  | JNull => None
  | _ =>
      Some {| ex_id := randomId k;
              ex_name := get "name" tc;
              ex_arguments :=
                match get "arguments" tc with
                | Some (JStr s) => s
                | a => JSON_stringify (default (JObj []) (orElse a (Some (JObj []))))
                end |}
  end.

Fixpoint formatEach (k : nat) (tools : list json) : option (list ExtractedCall) :=
  match tools with
  | [] => Some []
  | tc :: rest =>
      match formatTool k tc, formatEach (S k) rest with
      | Some c, Some cs => Some (c :: cs)
      | _, _ => None
      end
  end.

(** [formatTools(parsed)]; [None] when the [map] raised. *)
Definition formatTools (parsed : json) : option (list ExtractedCall) :=
  formatEach 0 (match parsed with JArr l => l | _ => [parsed] end).

(** Strategy A: a JSON array whose first element has a truthy [name]. *)
Definition strategyA (clean : text) : option (list ExtractedCall) :=
  match arrayMatch clean with
  | None => None
  | Some span =>
      match JSON_parse (string_of_list_ascii span) with
      | Ok (JArr (JNull :: _)) => None
      | Ok (JArr (first :: rest)) =>
          if truthyU (get "name" first) then formatTools (JArr (first :: rest)) else None
      | _ => None
      end
  end.

(** The state of the brace-counting loop of strategy B. *)
Record Scan : Type := {
  depth : Z;
  start : option nat;
  inString : bool;
  isEscaped : bool;
  candidates : list json
}.

Definition initialScan : Scan :=
  {| depth := 0; start := None; inString := false; isEscaped := false; candidates := [] |}.

(** [cleanText.substring(from, to)]. *)
Definition substring (from to : nat) (s : text) : text :=
  take (to - from) (drop from s).

(** The body of the loop for the character [char] at index [i]. *)
Definition scanStep (clean : text) (st : Scan) (i : nat) (char : ascii) : Scan :=
  if inString st then
    if isChar char backslash then
      {| depth := depth st; start := start st; inString := true;
         isEscaped := negb (isEscaped st); candidates := candidates st |}
    else if isChar char quoteChar && negb (isEscaped st) then
      {| depth := depth st; start := start st; inString := false;
         isEscaped := isEscaped st; candidates := candidates st |}
    else
      {| depth := depth st; start := start st; inString := true;
         isEscaped := false; candidates := candidates st |}
  else if isChar char quoteChar then
    {| depth := depth st; start := start st; inString := true;
       isEscaped := isEscaped st; candidates := candidates st |}
  else if isChar char openBrace then
    {| depth := (depth st + 1)%Z;
       start := if (depth st =? 0)%Z then Some i else start st;
       inString := false; isEscaped := isEscaped st; candidates := candidates st |}
  else if isChar char closeBrace then
    match (depth st - 1 =? 0)%Z, start st with
    | true, Some from =>
        {| depth := (depth st - 1)%Z; start := None; inString := false;
           isEscaped := isEscaped st;
           candidates :=
             match JSON_parse (string_of_list_ascii (substring from (i + 1) clean)) with
             | Ok parsed =>
                 if truthyU (get "name" parsed) then candidates st ++ [parsed] else candidates st
             | Err _ => candidates st
             end |}
    | _, _ =>
        {| depth := (depth st - 1)%Z; start := start st; inString := false;
           isEscaped := isEscaped st; candidates := candidates st |}
    end
  else st.

(** The loop over the characters from index [i] on. *)
Fixpoint scanFrom (clean : text) (i : nat) (chars : text) (st : Scan) : Scan :=
  match chars with
  | [] => st
  | char :: rest => scanFrom clean (S i) rest (scanStep clean st i char)
  end.

Definition scan (clean : text) : Scan := scanFrom clean 0 clean initialScan.

(** Strategy B: the candidates of the brace-counting loop, if any. *)
Definition strategyB (clean : text) : option (list ExtractedCall) :=
  match candidates (scan clean) with
  | [] => None
  | found => formatTools (JArr found)
  end.

(** Strategy C: the first tag-wrapped call whose arguments parse to
    something of type object. *)
Definition strategyC (clean : text) : option (list ExtractedCall) :=
  match xmlMatch clean with
  | None => None
  | Some (toolName, args) =>
      match JSON_parse (string_of_list_ascii args) with
      | Ok parsedArgs =>
          match parsedArgs with
          | JNull | JArr _ | JObj _ =>
              formatTools
                (JArr [JObj [("name", JStr (string_of_list_ascii toolName));
                             ("arguments", parsedArgs)]])
          | _ => None
          end
      | Err _ => None
      end
  end.

(** [extractTools]: the strategies in order, the first success wins;
    [None] is the [null] result. *)
Definition extractTools (raw : text) : option (list ExtractedCall) :=
  let clean := cleanText raw in
  match strategyA clean with
  | Some calls => Some calls
  | None =>
      match candidates (scan clean) with
      | [] => strategyC clean
      | _ => strategyB clean
      end
  end.

(** *** Texts the brace-counting loop reads as intended

    The loop's view of one character: the depth, the inside-string flag
    and the escape flag after it. *)
Definition lex (d : Z) (q e : bool) (char : ascii) : Z * bool * bool :=
  if q then
    if isChar char backslash then (d, true, negb e)
    else if isChar char quoteChar && negb e then (d, false, e)
    else (d, true, false)
  else if isChar char quoteChar then (d, true, e)
  else if isChar char openBrace then ((d + 1)%Z, false, e)
  else if isChar char closeBrace then ((d - 1)%Z, false, e)
  else (d, false, e).

(** From depth [d] (and the given flags), the characters of [s] bring the
    depth back to zero, outside any string, at the last of them and not
    before. *)
Fixpoint closesFrom (d : Z) (q e : bool) (s : text) : bool :=
  match s with
  | [] => false
  | char :: rest =>
      let '(d', q', e') := lex d q e char in
      match rest with
      | [] => (d' =? 0)%Z && negb q'
      | _ => (0 <? d')%Z && closesFrom d' q' e' rest
      end
  end.

(** A brace block: an opening brace and what closes it, as JSON object
    text is. *)
Definition block (o : text) : bool :=
  match o with
  | char :: rest => isChar char openBrace && closesFrom 1 false false rest
  | [] => false
  end.

(** Prose the loop passes over: no double quote and no brace. *)
Definition plain (p : text) : bool :=
  forallb (fun char => negb (isChar char quoteChar || isChar char openBrace
                             || isChar char closeBrace)) p.

(** The text made of [p0] and then each block with the prose after it. *)
Definition interleave (p0 : text) (segments : list (text * text)) : text :=
  p0 ++ flat_map (fun op => fst op ++ snd op) segments.

(** What the loop keeps of a block: its parsed value, when it parses to
    something with a truthy [name]. *)
Definition candidateOf (o : text) : option json :=
  match JSON_parse (string_of_list_ascii o) with
  | Ok parsed => if truthyU (get "name" parsed) then Some parsed else None
  | Err _ => None
  end.

(** The candidates after a block was closed. *)
Definition kept (found : list json) (o : text) : list json :=
  match candidateOf o with
  | Some parsed => found ++ [parsed]
  | None => found
  end.

(** The argument text of a call object: a string is taken as it is,
    anything else is serialized, an empty object standing in for a
    missing or falsy value. *)
Definition argumentText (tc : json) : string :=
  match get "arguments" tc with
  | Some (JStr s) => s
  | a => JSON_stringify (default (JObj []) (orElse a (Some (JObj []))))
  end.

(** The calls expected for the parsed objects [values], numbered from
    [k]. *)
Fixpoint expectedCalls (k : nat) (values : list json) : list ExtractedCall :=
  match values with
  | [] => []
  | v :: rest =>
      {| ex_id := randomId k; ex_name := get "name" v; ex_arguments := argumentText v |}
      :: expectedCalls (S k) rest
  end.

End WithPlatform.

End Extractor.

(** ** The tool-call engine of the chat composable *)

Module Engine.

Definition nl : string := String (ascii_of_nat 10) EmptyString.
Definition dq : string := String (ascii_of_nat 34) EmptyString.

(** A tool call ([{ id, type: "function", function: { name, arguments } }]);
    tool names are strings at this boundary. *)
Record ToolCall : Type := {
  call_id : string;
  call_name : string;
  call_arguments : string
}.

(** The result of [validateToolCall]: [{ valid: true }] or
    [{ valid: false, error, schema }]. *)
Inductive Validation : Type :=
| Valid
| Invalid (error : string) (schema : option json).

Definition isValid (v : Validation) : bool :=
  match v with
  | Valid => true
  | Invalid _ _ => false
  end.

(** A message of the conversation.  [is_error] is [false] where the
    source leaves the flag out. *)
Inductive Message : Type :=
| User (content : string)
| Assistant (content : option string) (tool_calls : list ToolCall)
| Tool (tool_call_id name : string) (content : option string) (is_error : bool).

(** [pendingToolCalls.value]: [{ calls, errorCall }]. *)
Record PendingApproval : Type := {
  pending_calls : list ToolCall;
  pending_errorCall : option (ToolCall * Validation)
}.

Record McpServer : Type := {
  server_enabled : bool;
  server_status : string;
  server_client : option McpClient
}.

(** *** The built-in tools of [buildSystemPrompt] *)

Definition stringProperty (description : string) : json :=
  JObj [("type", JStr "string"); ("description", JStr description)].

Definition getToolSchemaTool : ToolDef :=
  {| tool_name := "getToolSchema";
     tool_description := Some "Get the input schema for a specific tool.";
     tool_parameters :=
       Some (JObj [("type", JStr "object");
                   ("properties",
                    JObj [("name", stringProperty "The name of the tool to inspect.")]);
                   ("required", JArr [JStr "name"])]) |}.

Definition evalCodeTool : ToolDef :=
  {| tool_name := "evalCode";
     tool_description :=
       Some "Execute JavaScript code. Use this for math, date/time, text processing, or logic.";
     tool_parameters :=
       Some (JObj [("type", JStr "object");
                   ("properties",
                    JObj [("code",
                           stringProperty
                             "The JavaScript code to execute. The last expression must include return statement. e.g: return Math.sqrt(144)")]);
                   ("required", JArr [JStr "code"])]) |}.

Definition listToolsTool : ToolDef :=
  {| tool_name := "listTools";
     tool_description :=
       Some "List available tools. Returns a list of tool names and descriptions. Supports searching by query string (BM25-like ranking) or regex.";
     tool_parameters :=
       Some (JObj [("type", JStr "object");
                   ("properties",
                    JObj [("query", stringProperty "Optional search query to filter tools.");
                          ("use_regex",
                           JObj [("type", JStr "boolean");
                                 ("description",
                                  JStr "If true, treats the query as a regular expression.")])])]) |}.

Definition virtualTools : list ToolDef :=
  [getToolSchemaTool; evalCodeTool; listToolsTool].

(** [s.enabled && s.status === 'connected'], with the client at hand. *)
Definition connectedClient (s : McpServer) : option McpClient :=
  if server_enabled s && (server_status s =? "connected") then server_client s else None.

(** [buildSystemPrompt().tools]: the built-ins, then the tools of every
    enabled and connected provider. *)
Definition fullTools (servers : list McpServer) : list ToolDef :=
  virtualTools
  ++ flat_map (fun s => match connectedClient s with
                        | Some c => client_tools c
                        | None => []
                        end) servers.

(** [activeTools.find(t => t.function.name === name)]. *)
Definition findTool (tools : list ToolDef) (name : string) : option ToolDef :=
  List.find (fun t => tool_name t =? name) tools.

(** The provider [executeTools] picks for a tool name: the first enabled
    and connected server whose client lists it. *)
Definition findServer (servers : list McpServer) (name : string) : option McpClient :=
  match List.find (fun s => match connectedClient s with
                            | Some c => existsb (fun t => tool_name t =? name) (client_tools c)
                            | None => false
                            end) servers with
  | Some s => connectedClient s
  | None => None
  end.

Section WithPlatform.
Context `{Platform}.

(** *** Tool search ([listTools]) *)

(** The pieces of a text between maximal runs of non-word characters:
    [cur] is the piece being read, [inGap] tells that the previous
    character belonged to a separator. *)
Fixpoint splitFrom (cur : string) (inGap : bool) (s : string) : list string :=
  match s with
  | EmptyString => [cur]
  | String c rest =>
      if Extractor.isWord c then splitFrom (cur +:+ String c EmptyString) false rest
      else if inGap then splitFrom cur true rest
      else cur :: splitFrom EmptyString true rest
  end.

(** The split on runs of non-word characters. *)
Definition splitNonWord (s : string) : list string := splitFrom EmptyString false s.

(** The search terms of a query. *)
Definition searchTerms (query : string) : list string :=
  List.filter (fun t => negb (t =? "")) (splitNonWord (toLowerCase query)).

Definition docTokens (t : ToolDef) : list string :=
  splitNonWord (toLowerCase (tool_name t))
  ++ splitNonWord (toLowerCase (default "" (tool_description t))).

(** The score of a tool, counted in halves. *)
Definition score (query : string) (terms : list string) (t : ToolDef) : nat :=
  (if includes (toLowerCase query) (toLowerCase (tool_name t)) then 20 else 0)
  + list_sum
      (map (fun term =>
              4 * length (List.filter (fun dt => dt =? term) (docTokens t))
              + (if existsb (fun dt => includes term dt) (docTokens t) then 1 else 0))
         terms).

(** Insertion of a scored tool into a list sorted by descending score,
    before the first entry that does not beat it. *)
Fixpoint insertByScore (x : ToolDef * nat) (l : list (ToolDef * nat)) : list (ToolDef * nat) :=
  match l with
  | [] => [x]
  | y :: rest => if (snd y <=? snd x)%nat then x :: y :: rest else y :: insertByScore x rest
  end.

(** The stable sort by descending score. *)
Definition sortByScore (l : list (ToolDef * nat)) : list (ToolDef * nat) :=
  fold_right insertByScore [] l.

(** The keyword search: score, drop the zero scores, sort, project. *)
Definition rankTools (query : string) (terms : list string) (tools : list ToolDef) : list ToolDef :=
  map fst
    (sortByScore
       (List.filter (fun r => (0 <? snd r)%nat)
          (map (fun t => (t, score query terms t)) tools))).

(** The module-level state of the composable that the engine reads and
    writes, the history of [postChatToWorker] calls, and the outside
    world, which holds [localStorage]. *)
Record State : Type := {
  messages : list Message;
  activeChatId : option string;
  pendingToolCalls : option PendingApproval;
  sessionAllowed : gset string;
  useSafeEval : bool;
  mcpServers : list McpServer;
  isGenerating : bool;
  posted : list (list Message);
  world : World
}.

Definition setMessages (ms : list Message) (st : State) : State :=
  {| messages := ms; activeChatId := activeChatId st;
     pendingToolCalls := pendingToolCalls st; sessionAllowed := sessionAllowed st;
     useSafeEval := useSafeEval st;
     mcpServers := mcpServers st; isGenerating := isGenerating st;
     posted := posted st; world := world st |}.

Definition setActiveChatId (chat : option string) (st : State) : State :=
  {| messages := messages st; activeChatId := chat;
     pendingToolCalls := pendingToolCalls st; sessionAllowed := sessionAllowed st;
     useSafeEval := useSafeEval st;
     mcpServers := mcpServers st; isGenerating := isGenerating st;
     posted := posted st; world := world st |}.

Definition setPending (p : option PendingApproval) (st : State) : State :=
  {| messages := messages st; activeChatId := activeChatId st;
     pendingToolCalls := p; sessionAllowed := sessionAllowed st;
     useSafeEval := useSafeEval st;
     mcpServers := mcpServers st; isGenerating := isGenerating st;
     posted := posted st; world := world st |}.

Definition setSessionAllowed (g : gset string) (st : State) : State :=
  {| messages := messages st; activeChatId := activeChatId st;
     pendingToolCalls := pendingToolCalls st; sessionAllowed := g;
     useSafeEval := useSafeEval st;
     mcpServers := mcpServers st; isGenerating := isGenerating st;
     posted := posted st; world := world st |}.

Definition setGenerating (b : bool) (st : State) : State :=
  {| messages := messages st; activeChatId := activeChatId st;
     pendingToolCalls := pendingToolCalls st; sessionAllowed := sessionAllowed st;
     useSafeEval := useSafeEval st;
     mcpServers := mcpServers st; isGenerating := b;
     posted := posted st; world := world st |}.

Definition setPosted (ps : list (list Message)) (st : State) : State :=
  {| messages := messages st; activeChatId := activeChatId st;
     pendingToolCalls := pendingToolCalls st; sessionAllowed := sessionAllowed st;
     useSafeEval := useSafeEval st;
     mcpServers := mcpServers st; isGenerating := isGenerating st;
     posted := ps; world := world st |}.

Definition setWorld (w : World) (st : State) : State :=
  {| messages := messages st; activeChatId := activeChatId st;
     pendingToolCalls := pendingToolCalls st; sessionAllowed := sessionAllowed st;
     useSafeEval := useSafeEval st;
     mcpServers := mcpServers st; isGenerating := isGenerating st;
     posted := posted st; world := w |}.

(** [localStorage.setItem(key, value)]. *)
Definition setLocalStorage (key value : string) (st : State) : State :=
  setWorld (localStorage_setItem key value (world st)) st.

(** [localStorage.getItem('mcp_allow_all')]. *)
Definition mcp_allow_all (st : State) : option string :=
  localStorage_getItem "mcp_allow_all" (world st).

(** [if (activeChatId.value)]. *)
Definition chatActive (st : State) : bool :=
  match activeChatId st with
  | Some id => negb (id =? "")
  | None => false
  end.

(** [pushMessage]: the message joins the history only when a chat is
    active. *)
Definition pushMessage (msg : Message) (st : State) : State :=
  if chatActive st then setMessages (messages st ++ [msg]) st else st.

(** [postChatToWorker]: the current history goes to the model. *)
Definition postChatToWorker (st : State) : State :=
  setPosted (posted st ++ [messages st]) st.

(** The tool message every branch of [executeTools] builds for a call. *)
Definition pushTool (call : ToolCall) (content : option string) (is_error : bool)
    (st : State) : State :=
  pushMessage (Tool (call_id call) (call_name call) content is_error) st.

(** *** The schema validator ([validateToolCall]) *)

Definition validateToolCall (call : ToolCall) (activeTools : list ToolDef) : Validation :=
  if call_name call =? "getToolSchema" then Valid
  else
    match findTool activeTools (call_name call) with
    | None => Invalid ("Tool '" +:+ call_name call +:+ "' not found.") None
    | Some toolDef =>
        match JSON_parse (call_arguments call) with
        | Err message =>
            Invalid ("Invalid JSON arguments: " +:+ message) (tool_parameters toolDef)
        | Ok args =>
            match tool_parameters toolDef with
            | Some parameters =>
                if truthy parameters then
                  match ajv_validate parameters args with
                  | AjvValid => Valid
                  | AjvInvalid errorsText => Invalid errorsText (Some parameters)
                  | AjvThrows message =>
                      Invalid ("Invalid JSON arguments: " +:+ message) (Some parameters)
                  end
                else Valid
            | None => Valid
            end
        end
    end.

(** The validator's rule for a call that is not exempt, written from its
    description: the tool exists, the argument text parses, and the
    parsed arguments conform to the tool's schema when it has one. *)
Definition conforms (activeTools : list ToolDef) (name arguments : string) : bool :=
  match findTool activeTools name, JSON_parse arguments with
  | Some toolDef, Ok args =>
      match tool_parameters toolDef with
      | Some parameters =>
          negb (truthy parameters)
          || match ajv_validate parameters args with
             | AjvValid => true
             | _ => false
             end
      | None => true
      end
  | _, _ => false
  end.

(** *** Sequencing and deduplication (the head of [handleWorkerResponse]) *)

Definition validationResults (toolCalls : list ToolCall) (activeTools : list ToolDef)
    : list (ToolCall * Validation) :=
  map (fun call => (call, validateToolCall call activeTools)) toolCalls.

(** [findIndex(r => !r.result.valid)], [None] for [-1]. *)
Fixpoint firstInvalidIndex (results : list (ToolCall * Validation)) : option nat :=
  match results with
  | [] => None
  | r :: rest =>
      if negb (isValid (snd r)) then Some 0
      else option_map S (firstInvalidIndex rest)
  end.

(** The calls to process and the error call, before deduplication. *)
Definition sequenceCalls (toolCalls : list ToolCall) (results : list (ToolCall * Validation))
    : list ToolCall * option (ToolCall * Validation) :=
  match firstInvalidIndex results with
  | Some i => (map fst (take i results), results !! i)
  | None => (toolCalls, None)
  end.

(** The key of the deduplication map. *)
Definition dedupKey (call : ToolCall) : string :=
  call_name call +:+ "::" +:+ call_arguments call.

(** The deduplication loop: [seen] and [deduplicatedCalls] after the
    calls of [calls] have been visited. *)
Fixpoint dedupLoop (seen : gset string) (deduplicatedCalls : list ToolCall)
    (calls : list ToolCall) : list ToolCall :=
  match calls with
  | [] => deduplicatedCalls
  | call :: rest =>
      if decide (dedupKey call ∈ seen) then dedupLoop seen deduplicatedCalls rest
      else dedupLoop ({[dedupKey call]} ∪ seen) (deduplicatedCalls ++ [call]) rest
  end.

Definition deduplicate (calls : list ToolCall) : list ToolCall :=
  dedupLoop ∅ [] calls.

(** *** The permission gate *)

Definition alwaysAllowed : list string := ["getToolSchema"; "listTools"].

(** [localStorage.getItem('mcp_allow_all') === 'true']. *)
Definition allowAll (st : State) : bool :=
  match mcp_allow_all st with
  | Some v => v =? "true"
  | None => false
  end.

Definition needsApproval (st : State) (callsToProcess : list ToolCall) : list ToolCall :=
  List.filter
    (fun call =>
       if existsb (String.eqb (call_name call)) alwaysAllowed then false
       else if allowAll st then false
       else if decide (call_name call ∈ sessionAllowed st) then false
       else true)
    callsToProcess.

(** *** The execution pipeline ([executeTools]) *)

(** How the body of the loop ends for one call: the loop goes on to the
    next call, or [break]s. *)
Inductive Flow : Type :=
| Next
| Break.

(** The [getToolSchema] block. *)
Definition runGetToolSchema (activeTools : list ToolDef) (call : ToolCall) (st : State) : State :=
  match JSON_parse (call_arguments call) with
  | Err message => pushTool call (Some ("Error: " +:+ message)) false st
  | Ok JNull => pushTool call (Some ("Error: " +:+ nullReadMessage "tool_name")) false st
  | Ok args =>
      let toolName := orElse (orElse (get "tool_name" args) (get "name" args)) (get "tool" args) in
      match match toolName with
            | Some (JStr n) => findTool activeTools n
            | _ => None
            end with
      | Some tool => pushTool call (option_map JSON_pretty (tool_parameters tool)) false st
      | None =>
          pushTool call (Some ("Error: " +:+ "Tool '" +:+ displayU toolName +:+ "' not found.")) false st
      end
  end.

(** The tools a [listTools] call reports, or the message of the error
    raised on the way. *)
Definition listToolsResults (activeTools : list ToolDef) (args : json) : Result (list ToolDef) :=
  match args with
  | JNull => Err (nullReadMessage "query")
  | _ =>
      let query := get "query" args in
      let useRegex := get "use_regex" args in
      match query with
      | None => Ok activeTools
      | Some q =>
          if negb (truthy q) then Ok activeTools
          else if truthyU useRegex then
            match regExp q with
            | Ok test =>
                Ok (List.filter
                      (fun t => test (tool_name t) || test (default "" (tool_description t)))
                      activeTools)
            | Err message => Err ("Invalid Regex: " +:+ message)
            end
          else
            match q with
            | JStr text =>
                match searchTerms text with
                | [] => Ok activeTools
                | terms => Ok (rankTools text terms activeTools)
                end
            | _ => Err (typeErrorMessage "query.toLowerCase")
            end
      end
  end.

(** The name and description of a tool, as the listing shows them. *)
Definition toolSummary (t : ToolDef) : json :=
  JObj (("name", JStr (tool_name t))
        :: match tool_description t with
           | Some d => [("description", JStr d)]
           | None => []
           end).

(** The text of the listing a [listTools] call answers with. *)
Definition listingMessage (results : list ToolDef) : string :=
  "AVAILABLE TOOLS (" +:+ indexKey (length results) +:+ " found):" +:+ nl +:+ nl
  +:+ JSON_pretty (JArr (map toolSummary results)) +:+ nl +:+ nl
  +:+ "These are the available tools. Only use them if the user's request requires it. "
  +:+ "To learn how to use a tool, call getToolSchema with the tool name.".

(** The [listTools] block. *)
Definition runListTools (activeTools : list ToolDef) (call : ToolCall) (st : State) : State :=
  let args :=
    match JSON_parse (if call_arguments call =? "" then "{}" else call_arguments call) with
    | Ok parsed => parsed
    | Err _ => JObj []
    end in
  match listToolsResults activeTools args with
  | Ok results => pushTool call (Some (listingMessage results)) false st
  | Err message => pushTool call (Some ("Error: " +:+ message)) true st
  end.

(** The outcome of the inner [try] of the [evalCode] block: the value of
    [result], or the message of an error the inner [catch] itself
    raised. *)
Definition evalResult (code : option json) (st : State) : Result EvalValue * World :=
  if useSafeEval st then
    match evalSafe code (world st) with
    | (SafeSuccess result, w) => (Ok result, w)
    | (SafeErrorResult error, w) => (Ok (EvString ("Eval Error: " +:+ error)), w)
    | (SafeException message, w) => (Ok (EvString ("Eval Error: " +:+ message)), w)
    | (SafeTimeout, w) =>
        (Ok (EvString ("Eval Error: " +:+ "Execution timed out (Infinite loop detected?)")), w)
    end
  else
    match evalDirect code (world st) with
    | (DirectReturned result, w) => (Ok result, w)
    | (DirectThrew message, w) => (Ok (EvString ("Eval Error: " +:+ message)), w)
    | (DirectThrewUnreadable message, w) => (Err message, w)
    end.

(** The [evalCode] block. *)
Definition runEvalCode (call : ToolCall) (st : State) : Flow * State :=
  match JSON_parse (call_arguments call) with
  | Err message => (Break, pushTool call (Some ("Error: " +:+ message)) true st)
  | Ok JNull => (Break, pushTool call (Some ("Error: " +:+ nullReadMessage "code")) true st)
  | Ok args =>
      let (result, w) := evalResult (get "code" args) st in
      let st' := setWorld w st in
      match result with
      | Err message => (Break, pushTool call (Some ("Error: " +:+ message)) true st')
      | Ok (EvString text) =>
          let isError := String.prefix "Eval Error:" text in
          (if isError then Break else Next, pushTool call (Some text) isError st')
      | Ok (EvOther (Ok stringified)) => (Next, pushTool call stringified false st')
      | Ok (EvOther (Err message)) =>
          (Break, pushTool call (Some ("Error: " +:+ message)) true st')
      end
  end.

(** [{ name, arguments: argsExample }]. *)
Definition fullExample (name : string) (argsExample : json) : json :=
  JObj [("name", JStr name); ("arguments", argsExample)].

(** Text of [JSON.stringify(v, null, 2)] inside a template literal;
    [undefined] stays [undefined] and is spelled out. *)
Definition prettyText (v : option json) : string :=
  default "undefined" (option_map JSON_pretty v).

(** The provider path at the end of the loop body. *)
Definition runRemote (activeTools : list ToolDef) (call : ToolCall) (st : State) : Flow * State :=
  match findServer (mcpServers st) (call_name call), findTool activeTools (call_name call) with
  | Some client, Some toolDef =>
      match JSON_parse (call_arguments call) with
      | Err message => (Break, pushTool call (Some ("Error: " +:+ message)) true st)
      | Ok args =>
          let validation :=
            match tool_parameters toolDef with
            | Some parameters =>
                if truthy parameters then
                  match ajv_validate parameters args with
                  | AjvValid => Ok None
                  | AjvInvalid errorsText =>
                      Ok (if errorsText =? "" then None else Some errorsText)
                  | AjvThrows message => Err message
                  end
                else Ok None
            | None => Ok None
            end in
          match validation with
          | Err message => (Break, pushTool call (Some ("Error: " +:+ message)) true st)
          | Ok (Some validationError) =>
              match Example.generateExample (tool_parameters toolDef) with
              | Some argsExample =>
                  (Break,
                   pushTool call
                     (Some ("Error: Invalid arguments: " +:+ validationError +:+ ". " +:+ nl +:+ nl
                            +:+ "Expected Schema:" +:+ nl +:+ prettyText (tool_parameters toolDef)
                            +:+ nl +:+ nl +:+ "Expected Request Example Payload:" +:+ nl
                            +:+ prettyText (Some (fullExample (call_name call) argsExample))
                            +:+ nl +:+ nl
                            +:+ "Please correct your input payload based on the schema and try again."))
                     true st)
              | None =>
                  (Break,
                   pushTool call (Some ("Error: " +:+ typeErrorMessage "requiredFields.includes"))
                     true st)
              end
          | Ok None =>
              match callTool client (call_name call) args (world st) with
              | (Ok result, w) => (Next, pushTool call (Some result) false (setWorld w st))
              | (Err message, w) =>
                  (Break, pushTool call (Some ("Error: " +:+ message)) true (setWorld w st))
              end
          end
      end
  | _, _ =>
      (Break, pushTool call (Some "Error: Tool not found on any connected server.") true st)
  end.

(** The body of the [for] loop for one call.  The [getToolSchema] block
    ends without a [continue], so control reaches the tests that follow
    it. *)
Definition executeCall (activeTools : list ToolDef) (call : ToolCall) (st : State) : Flow * State :=
  let st1 :=
    if call_name call =? "getToolSchema" then runGetToolSchema activeTools call st else st in
  if call_name call =? "listTools" then (Next, runListTools activeTools call st1)
  else if call_name call =? "evalCode" then runEvalCode call st1
  else runRemote activeTools call st1.

(** The [for] loop. *)
Fixpoint executeLoop (activeTools : list ToolDef) (calls : list ToolCall) (st : State) : State :=
  match calls with
  | [] => st
  | call :: rest =>
      match executeCall activeTools call st with
      | (Next, st') => executeLoop activeTools rest st'
      | (Break, st') => st'
      end
  end.

Definition executeTools (calls : list ToolCall) (st : State) : State :=
  postChatToWorker (executeLoop (fullTools (mcpServers st)) calls st).

(** The loop again, telling also whether it ran through all its calls
    ([Next]) or was left by a [break]. *)
Fixpoint executeLoopFlow (activeTools : list ToolDef) (calls : list ToolCall) (st : State)
    : Flow * State :=
  match calls with
  | [] => (Next, st)
  | call :: rest =>
      match executeCall activeTools call st with
      | (Next, st') => executeLoopFlow activeTools rest st'
      | (Break, st') => (Break, st')
      end
  end.

(** *** The turn handler and the approval entry points *)

Definition validationError (result : Validation) : string :=
  match result with
  | Invalid error _ => error
  | Valid => "undefined"
  end.

Definition validationSchema (result : Validation) : option json :=
  match result with
  | Invalid _ schema => schema
  | Valid => None
  end.

(** The part of the corrective text both reporting paths share: the
    expected schema and example, up to the sentence that names the tool.
    [None] when the example synthesis raised. *)
Definition schemaHelp (call : ToolCall) (schema : option json) : option string :=
  match Example.generateExample schema with
  | Some argsExample =>
      Some (nl +:+ nl +:+ "Expected Schema:" +:+ nl +:+ prettyText schema
            +:+ nl +:+ nl +:+ "Expected Example:" +:+ nl
            +:+ prettyText (Some (fullExample (call_name call) argsExample))
            +:+ nl +:+ nl +:+ "You MUST generate a NEW tool call with the name '"
            +:+ call_name call
            +:+ "' and the corrected arguments based on the JSON schema above.")
  | None => None
  end.

(** The content of the corrective message of [runExecution]. *)
Definition correctiveContent (call : ToolCall) (result : Validation) : option string :=
  if truthyU (validationSchema result) then
    option_map (String.append ("Error: " +:+ validationError result))
      (schemaHelp call (validationSchema result))
  else
    Some ("Error: " +:+ validationError result +:+ nl +:+ nl +:+ "The tool '" +:+ call_name call
          +:+ "' does not exist. Use '{" +:+ dq +:+ "name" +:+ dq +:+ ": " +:+ dq +:+ "listTools"
          +:+ dq +:+ ", " +:+ dq +:+ "arguments" +:+ dq +:+ ": {}}' to see available tools.").

(** The content of the deferred corrective message of [approveToolCalls]. *)
Definition deferredContent (call : ToolCall) (result : Validation) : option string :=
  if truthyU (validationSchema result) then
    option_map
      (fun help => help +:+ nl +:+ nl +:+ "What was wrong with your input: "
                   +:+ validationError result)
      (schemaHelp call (validationSchema result))
  else Some "".

(** The report of the error call: the corrective tool message, then the
    model is re-entered.  Nothing happens when building the content
    raised. *)
Definition reportError (content : option string) (call : ToolCall) (st : State) : State :=
  match content with
  | Some text => postChatToWorker (pushMessage (Tool (call_id call) (call_name call) (Some text) false) st)
  | None => st
  end.

(** [runExecution]. *)
Definition runExecution (callsToProcess : list ToolCall)
    (errorCall : option (ToolCall * Validation)) (st : State) : State :=
  let st1 :=
    match callsToProcess with
    | [] => st
    | _ => executeTools callsToProcess st
    end in
  match errorCall with
  | Some (call, result) => reportError (correctiveContent call result) call st1
  | None => st1
  end.

(** The calls the persisted assistant message shows. *)
Definition visibleCalls (callsToProcess : list ToolCall)
    (errorCall : option (ToolCall * Validation)) : list ToolCall :=
  callsToProcess ++ match errorCall with
                    | Some (call, _) => [call]
                    | None => []
                    end.

(** [handleWorkerResponse] for an assistant message with the given
    content and tool calls. *)
Definition handleWorkerResponse (content : option string) (toolCalls : list ToolCall)
    (st : State) : State :=
  match toolCalls with
  | [] => setGenerating false (setMessages (messages st ++ [Assistant content []]) st)
  | _ =>
      let activeTools := fullTools (mcpServers st) in
      let results := validationResults toolCalls activeTools in
      let callsToProcess := deduplicate (fst (sequenceCalls toolCalls results)) in
      let errorCall := snd (sequenceCalls toolCalls results) in
      let st1 :=
        setMessages (messages st ++ [Assistant content (visibleCalls callsToProcess errorCall)]) st in
      match needsApproval st1 callsToProcess with
      | [] => runExecution callsToProcess errorCall st1
      | _ =>
          setPending (Some {| pending_calls := callsToProcess;
                              pending_errorCall := errorCall |}) st1
      end
  end.

(** [approveToolCalls(mode)]. *)
Definition approveToolCalls (mode : string) (st : State) : State :=
  match pendingToolCalls st with
  | None => st
  | Some pending =>
      let calls := pending_calls pending in
      let st1 := if mode =? "always" then setLocalStorage "mcp_allow_all" "true" st else st in
      let st2 :=
        if mode =? "session"
        then setSessionAllowed
               (fold_left (fun allowed call => {[call_name call]} ∪ allowed) calls
                  (sessionAllowed st1)) st1
        else st1 in
      let st3 := executeTools calls (setPending None st2) in
      match pending_errorCall pending with
      | Some (call, result) => reportError (deferredContent call result) call st3
      | None => st3
      end
  end.

(** [cancelToolCalls]. *)
Definition cancelToolCalls (st : State) : State :=
  pushMessage (Assistant (Some "_Tool execution declined._") [])
    (setGenerating false (setPending None st)).

(** [selectChat(chatId)]: the chat becomes the active one and the
    history is replaced by [loaded], the messages the store holds for
    the chat (the last fifty).  The [saveToStorage] it ends with
    rewrites entries of [localStorage] that the engine does not read. *)
Definition selectChat (chatId : string) (loaded : list Message) (st : State) : State :=
  setMessages loaded (setActiveChatId (Some chatId) st).

(** [sendMessage] once the model worker exists.  Blank content is
    ignored.  Without an active chat one is opened first: [opened] is
    the chat created in the current project, or the chat [loadProjects]
    selects when there is no current project, with the messages the
    store holds for it.  The retitling of a new chat, which comes next,
    touches the list of chats and the store only. *)
Definition sendMessage (content : string) (opened : string * list Message) (st : State)
    : State :=
  match Extractor.trim (list_ascii_of_string content) with
  | [] => st
  | _ =>
      let st1 := if chatActive st then st else selectChat (fst opened) (snd opened) st in
      postChatToWorker (setGenerating true (pushMessage (User content) st1))
  end.

(** [clearChat], without the stop notice it sends first. *)
Definition clearChat (st : State) : State :=
  setMessages [] (setPending None (setGenerating false st)).

(** A new process lifetime: the module-level state starts afresh, the
    world and with it the entries of [localStorage] stay.  The providers
    reconnect to whatever [servers] they then report; the sandbox toggle,
    which the interface saves on every change, is taken to read back as
    it was. *)
Definition restart (servers : list McpServer) (chat : option string) (st : State) : State :=
  {| messages := []; activeChatId := chat; pendingToolCalls := None;
     sessionAllowed := ∅;
     useSafeEval := useSafeEval st; mcpServers := servers;
     isGenerating := false; posted := []; world := world st |}.

(** What can happen to the engine between two observations. *)
Inductive Event : Type :=
| WorkerResponse (content : option string) (toolCalls : list ToolCall)
| Approve (mode : string)
| Cancel
| Send (content : string) (opened : string * list Message)
| Clear
| Providers (servers : list McpServer)
| SafeEvalToggle
| Restart (servers : list McpServer) (chat : option string).

Definition step (st : State) (ev : Event) : State :=
  match ev with
  | WorkerResponse content toolCalls => handleWorkerResponse content toolCalls st
  | Approve mode => approveToolCalls mode st
  | Cancel => cancelToolCalls st
  | Send content opened => sendMessage content opened st
  | Clear => clearChat st
  | Providers servers =>
      {| messages := messages st; activeChatId := activeChatId st;
         pendingToolCalls := pendingToolCalls st; sessionAllowed := sessionAllowed st;
         useSafeEval := useSafeEval st;
         mcpServers := servers; isGenerating := isGenerating st;
         posted := posted st; world := world st |}
  | SafeEvalToggle =>
      {| messages := messages st; activeChatId := activeChatId st;
         pendingToolCalls := pendingToolCalls st; sessionAllowed := sessionAllowed st;
         useSafeEval := negb (useSafeEval st);
         mcpServers := mcpServers st; isGenerating := isGenerating st;
         posted := posted st; world := world st |}
  | Restart servers chat => restart servers chat st
  end.

(** The state after a sequence of events. *)
Definition run (st : State) (events : list Event) : State := fold_left step events st.

(** *** Notions the properties of the engine are stated with *)

(** [st'] is [st] after one tool message for [call] was pushed, the
    world having possibly moved on before. *)
Definition pushes (call : ToolCall) (st st' : State) : Prop :=
  exists content is_error w, st' = pushTool call content is_error (setWorld w st).

(** The part of the state the execution pipeline only reads. *)
Definition gate (st : State) :=
  (activeChatId st, pendingToolCalls st, sessionAllowed st,
   useSafeEval st, mcpServers st, isGenerating st).

(** [m] is a tool message that answers one of [calls]. *)
Definition toolMessageOf (calls : list ToolCall) (m : Message) : Prop :=
  exists call content is_error,
    call ∈ calls /\ m = Tool (call_id call) (call_name call) content is_error.

(** The providers answer the calls of [calls] one after the other, from
    the world [w] on: every call names a tool that a connected provider
    lists, its argument text parses, and the provider returns a result.
    The tool messages these results make, and the world they leave. *)
Fixpoint providersAnswer (servers : list McpServer) (calls : list ToolCall) (w : World)
    : option (list Message * World) :=
  match calls with
  | [] => Some ([], w)
  | call :: rest =>
      match findServer servers (call_name call), JSON_parse (call_arguments call) with
      | Some client, Ok args =>
          match callTool client (call_name call) args w with
          | (Ok result, w1) =>
              match providersAnswer servers rest w1 with
              | Some (replies, w2) =>
                  Some (Tool (call_id call) (call_name call) (Some result) false :: replies, w2)
              | None => None
              end
          | (Err _, _) => None
          end
      | _, _ => None
      end
  end.

(** The corrective text for a call of [name] that failed validation with
    [error], written from the description of the report: the error,
    then for a tool with a schema the expected schema, the [example]
    call and the request for a new call, and for a tool without one the
    hint that the tool does not exist. *)
Definition correctiveText (name error : string) (schema : option json) (example : json)
    : string :=
  if truthyU schema then
    "Error: " +:+ error +:+ nl +:+ nl +:+ "Expected Schema:" +:+ nl +:+ prettyText schema
    +:+ nl +:+ nl +:+ "Expected Example:" +:+ nl
    +:+ prettyText (Some (fullExample name example))
    +:+ nl +:+ nl +:+ "You MUST generate a NEW tool call with the name '" +:+ name
    +:+ "' and the corrected arguments based on the JSON schema above."
  else
    "Error: " +:+ error +:+ nl +:+ nl +:+ "The tool '" +:+ name
    +:+ "' does not exist. Use '{" +:+ dq +:+ "name" +:+ dq +:+ ": " +:+ dq +:+ "listTools"
    +:+ dq +:+ ", " +:+ dq +:+ "arguments" +:+ dq +:+ ": {}}' to see available tools.".

(** A tool name that none of the built-in tools bears. *)
Definition providerTool (call : ToolCall) : Prop :=
  call_name call <> "getToolSchema" /\ call_name call <> "listTools"
  /\ call_name call <> "evalCode".

(** The always-allow flag is set and nothing is pending. *)
Definition granted (st : State) : Prop :=
  mcp_allow_all st = Some "true" /\ pendingToolCalls st = None.

(** Code evaluated in the page leaves the always-allow entry set
    wherever it finds it set. *)
Definition directKeepsGrant : Prop :=
  forall code w,
    localStorage_getItem "mcp_allow_all" w = Some "true" ->
    localStorage_getItem "mcp_allow_all" (snd (evalDirect code w)) = Some "true".

(** The evaluation of [code] in state [st] fails for [reason]: the
    sandbox reports an error result, its worker raises, or the watchdog
    fires; without the sandbox, the code throws a value with a message. *)
Definition evalFails (code : option json) (st : State) (reason : string) : Prop :=
  if useSafeEval st then
    fst (evalSafe code (world st)) = SafeErrorResult reason
    \/ fst (evalSafe code (world st)) = SafeException reason
    \/ (fst (evalSafe code (world st)) = SafeTimeout
        /\ reason = "Execution timed out (Infinite loop detected?)")
  else fst (evalDirect code (world st)) = DirectThrew reason.

End WithPlatform.

End Engine.

(** ** A reference platform

    Executable stand-ins for the library functions, used to run the model
    on concrete inputs.  The parser and the printers cover JSON text
    whose numbers are integers and whose strings use the two-character
    escapes only; object keys are kept in source order, which is the
    enumeration order unless a key is an array index.  The lowering
    covers text whose capitals are ASCII letters.  Error texts are
    representative: engines word them differently. *)

Module Reference.

Import Extractor.

Definition isSpace (c : ascii) : bool :=
  let n := nat_of_ascii c in
  (n =? 32)%nat || (n =? 9)%nat || (n =? 10)%nat || (n =? 13)%nat.

Fixpoint skipSpace (s : text) : text :=
  match s with
  | c :: rest => if isSpace c then skipSpace rest else s
  | [] => []
  end.

Definition isDigit (c : ascii) : bool :=
  let n := nat_of_ascii c in (48 <=? n)%nat && (n <=? 57)%nat.

(** The character an escape letter stands for. *)
Definition unescape (c : ascii) : option ascii :=
  let n := nat_of_ascii c in
  if (n =? 34)%nat || (n =? 92)%nat || (n =? 47)%nat then Some c
  else if (n =? 98)%nat then Some (ascii_of_nat 8)
  else if (n =? 102)%nat then Some (ascii_of_nat 12)
  else if (n =? 110)%nat then Some (ascii_of_nat 10)
  else if (n =? 114)%nat then Some (ascii_of_nat 13)
  else if (n =? 116)%nat then Some (ascii_of_nat 9)
  else None.

(** The characters of a string literal after its opening quote, and what
    follows the closing quote. *)
Fixpoint parseString (s : text) : option (string * text) :=
  match s with
  | [] => None
  | c :: rest =>
      if isChar c quoteChar then Some (EmptyString, rest)
      else if isChar c backslash then
        match rest with
        | e :: rest' =>
            match unescape e, parseString rest' with
            | Some d, Some (str, r) => Some (String d str, r)
            | _, _ => None
            end
        | [] => None
        end
      else if (nat_of_ascii c <? 32)%nat then None
      else
        match parseString rest with
        | Some (str, r) => Some (String c str, r)
        | None => None
        end
  end.

(** The digits that start [s], read after the value [acc]. *)
Fixpoint parseDigits (acc : Z) (s : text) : Z * text :=
  match s with
  | c :: rest =>
      if isDigit c then parseDigits (10 * acc + Z.of_nat (nat_of_ascii c - 48))%Z rest
      else (acc, s)
  | [] => (acc, [])
  end.

(** An integer literal without sign; a fraction or an exponent is not
    covered. *)
Definition parseNatural (s : text) : option (Z * text) :=
  match s with
  | c :: rest =>
      if isDigit c then
        let (n, r) := if (nat_of_ascii c =? 48)%nat then (0%Z, rest) else parseDigits 0 s in
        match r with
        | d :: _ =>
            if isDigit d || isChar d (ascii_of_nat 46) || isChar d (ascii_of_nat 101)
               || isChar d (ascii_of_nat 69)
            then None else Some (n, r)
        | [] => Some (n, r)
        end
      else None
  | [] => None
  end.

(** [fs] with the field [k] set to [v]: a repeated key keeps its place
    and takes the later value. *)
Fixpoint setField (k : string) (v : json) (fs : list (string * json)) : list (string * json) :=
  match fs with
  | [] => [(k, v)]
  | (k', v') :: rest => if k' =? k then (k, v) :: rest else (k', v') :: setField k v rest
  end.

(** The elements of an array after its first value position. *)
Fixpoint parseElements (value : text -> option (json * text)) (fuel : nat) (s : text)
    (acc : list json) : option (json * text) :=
  match fuel with
  | 0 => None
  | S fuel' =>
      match value s with
      | Some (v, r) =>
          match skipSpace r with
          | c :: r' =>
              if isChar c (ascii_of_nat 44) then parseElements value fuel' r' (acc ++ [v])
              else if isChar c closeBracket then Some (JArr (acc ++ [v]), r')
              else None
          | [] => None
          end
      | None => None
      end
  end.

(** The members of an object after its opening brace. *)
Fixpoint parseMembers (value : text -> option (json * text)) (fuel : nat) (s : text)
    (acc : list (string * json)) : option (json * text) :=
  match fuel with
  | 0 => None
  | S fuel' =>
      match skipSpace s with
      | q :: r0 =>
          if isChar q quoteChar then
            match parseString r0 with
            | Some (key, r1) =>
                match skipSpace r1 with
                | colon :: r2 =>
                    if isChar colon (ascii_of_nat 58) then
                      match value r2 with
                      | Some (v, r3) =>
                          match skipSpace r3 with
                          | c :: r4 =>
                              if isChar c (ascii_of_nat 44)
                              then parseMembers value fuel' r4 (setField key v acc)
                              else if isChar c closeBrace
                              then Some (JObj (setField key v acc), r4)
                              else None
                          | [] => None
                          end
                      | None => None
                      end
                    else None
                | [] => None
                end
            | None => None
            end
          else None
      | [] => None
      end
  end.

(** A JSON value at the start of [s], after optional white space. *)
Fixpoint parseValue (fuel : nat) (s : text) : option (json * text) :=
  match fuel with
  | 0 => None
  | S fuel' =>
      match skipSpace s with
      | c :: rest =>
          if isChar c openBrace then
            match skipSpace rest with
            | d :: r => if isChar d closeBrace then Some (JObj [], r)
                        else parseMembers (parseValue fuel') fuel' rest []
            | [] => None
            end
          else if isChar c openBracket then
            match skipSpace rest with
            | d :: r => if isChar d closeBracket then Some (JArr [], r)
                        else parseElements (parseValue fuel') fuel' rest []
            | [] => None
            end
          else if isChar c quoteChar then
            match parseString rest with
            | Some (str, r) => Some (JStr str, r)
            | None => None
            end
          else if isChar c (ascii_of_nat 45) then
            match parseNatural rest with
            | Some (n, r) => Some (JNum (- n), r)
            | None => None
            end
          else if isDigit c then
            match parseNatural (c :: rest) with
            | Some (n, r) => Some (JNum n, r)
            | None => None
            end
          else
            match stripPrefix (list_ascii_of_string "true") (c :: rest),
                  stripPrefix (list_ascii_of_string "false") (c :: rest),
                  stripPrefix (list_ascii_of_string "null") (c :: rest) with
            | Some r, _, _ => Some (JBool true, r)
            | _, Some r, _ => Some (JBool false, r)
            | _, _, Some r => Some (JNull, r)
            | _, _, _ => None
            end
      | [] => None
      end
  end.

(** [JSON.parse] on the covered fragment. *)
Definition parse (s : string) : Result json :=
  let chars := list_ascii_of_string s in
  match parseValue (S (length chars)) chars with
  | Some (v, rest) =>
      match skipSpace rest with
      | [] => Ok v
      | _ => Err "Unexpected non-whitespace character after JSON"
      end
  | None => Err "Unexpected token in JSON"
  end.

(** The escape of a character inside a printed string literal. *)
Definition escapeChar (c : ascii) : string :=
  let n := nat_of_ascii c in
  let esc (d : string) := String backslash d in
  if (n =? 34)%nat || (n =? 92)%nat then esc (String c EmptyString)
  else if (n =? 8)%nat then esc "b"
  else if (n =? 12)%nat then esc "f"
  else if (n =? 10)%nat then esc "n"
  else if (n =? 13)%nat then esc "r"
  else if (n =? 9)%nat then esc "t"
  else String c EmptyString.

Fixpoint escape (s : string) : string :=
  match s with
  | EmptyString => EmptyString
  | String c rest => escapeChar c +:+ escape rest
  end.

Definition quoted (s : string) : string :=
  String quoteChar (escape s +:+ String quoteChar EmptyString).

Definition number (n : Z) : string := NilEmpty.string_of_int (Z.to_int n).

(** [JSON.stringify(v)]. *)
Fixpoint stringify (v : json) : string :=
  match v with
  | JNull => "null"
  | JBool true => "true"
  | JBool false => "false"
  | JNum n => number n
  | JStr s => quoted s
  | JArr l => "[" +:+ String.concat "," (map stringify l) +:+ "]"
  | JObj fs =>
      "{" +:+ String.concat "," (map (fun kv => quoted (fst kv) +:+ ":" +:+ stringify (snd kv)) fs)
      +:+ "}"
  end.

(** [JSON.stringify(v, null, 2)] at the given indentation. *)
Fixpoint prettyAt (indent : string) (v : json) : string :=
  let inner := indent +:+ "  " in
  let sep := "," +:+ Engine.nl in
  match v with
  | JArr [] => "[]"
  | JObj [] => "{}"
  | JArr l =>
      "[" +:+ Engine.nl
      +:+ String.concat sep (map (fun x => inner +:+ prettyAt inner x) l)
      +:+ Engine.nl +:+ indent +:+ "]"
  | JObj fs =>
      "{" +:+ Engine.nl
      +:+ String.concat sep
            (map (fun kv => inner +:+ quoted (fst kv) +:+ ": " +:+ prettyAt inner (snd kv)) fs)
      +:+ Engine.nl +:+ indent +:+ "}"
  | _ => stringify v
  end.

Definition pretty (v : json) : string := prettyAt EmptyString v.

Definition lowerChar (c : ascii) : ascii :=
  let n := nat_of_ascii c in
  if (65 <=? n)%nat && (n <=? 90)%nat then ascii_of_nat (n + 32) else c.

(** [toLowerCase] on text whose only capitals are the letters A to Z. *)
Fixpoint lower (s : string) : string :=
  match s with
  | EmptyString => EmptyString
  | String c rest => String (lowerChar c) (lower rest)
  end.

(** The entries of [localStorage], the latest written first. *)
Definition Storage : Type := list (string * string).

Fixpoint getItem (key : string) (entries : Storage) : option string :=
  match entries with
  | [] => None
  | (k, v) :: rest => if k =? key then Some v else getItem key rest
  end.

Definition setItem (key value : string) (entries : Storage) : Storage :=
  (key, value) :: entries.

(** [localStorage.removeItem(key)]. *)
Definition removeItem (key : string) (entries : Storage) : Storage :=
  List.filter (fun kv => negb (fst kv =? key)) entries.

(** A platform whose world is [localStorage], with the reference parser
    and printers, a validator, a sandbox, an in-process evaluator and a
    provider of the caller's choice, and no regular expressions (every
    pattern is refused).  The sandbox and the provider answer without a
    view of the world. *)
Definition platform (ajv : json -> json -> AjvOutcome)
    (safe : option json -> SafeOutcome)
    (direct : option json -> Storage -> DirectOutcome * Storage)
    (provider : McpClient -> string -> json -> Result string) : Platform :=
  {| World := Storage;
     localStorage_getItem := getItem;
     localStorage_setItem := setItem;
     getItem_setItem := fun key value w =>
       @eq_ind_r bool true
         (fun b : bool => (if b then Some value else getItem key w) = Some value)
         eq_refl (key =? key) (String.eqb_refl key);
     JSON_parse := parse;
     JSON_stringify := stringify;
     JSON_pretty := pretty;
     ajv_validate := ajv;
     nullReadMessage := fun k => "Cannot read properties of null (reading '" +:+ k +:+ "')";
     typeErrorMessage := fun e => e +:+ " is not a function";
     regExp := fun _ => Err "Invalid regular expression";
     toLowerCase := lower;
     toLowerCase_nil := eq_refl;
     evalSafe := fun code w => (safe code, w);
     evalSafe_storage := fun code w key => eq_refl;
     evalDirect := direct;
     callTool := fun client name args w => (provider client name args, w);
     callTool_storage := fun client name args w key => eq_refl;
     randomId := fun k => "call_" +:+ indexKey k |}.

(** The validator that accepts every document. *)
Definition acceptAll (schema args : json) : AjvOutcome := AjvValid.

(** A sandbox in which every evaluation runs into the watchdog. *)
Definition alwaysTimesOut (code : option json) : SafeOutcome := SafeTimeout.

(** An in-process evaluator whose code always throws [null]. *)
Definition alwaysThrowsNull (code : option json) (w : Storage) : DirectOutcome * Storage :=
  (DirectThrewUnreadable "Cannot read properties of null (reading 'message')", w).

(** A provider that answers every call with the same text. *)
Definition echoProvider (client : McpClient) (name : string) (args : json) : Result string :=
  Ok "ok".

(** The platform the examples run on. *)
Definition demo : Platform := platform acceptAll alwaysTimesOut alwaysThrowsNull echoProvider.

(** A session on that platform in which a chat is active, no provider is
    connected and nothing has been granted. *)
Definition freshSession : @Engine.State demo :=
  @Engine.Build_State demo [] (Some "chat-1") None ∅ true [] true [] [].

(** A call with the given identifier, tool name and arguments, the
    arguments written as the JSON text of a value. *)
Definition callOf (id name : string) (arguments : json) : Engine.ToolCall :=
  {| Engine.call_id := id; Engine.call_name := name;
     Engine.call_arguments := stringify arguments |}.

End Reference.

(** ** The message store ([MessageStore])

    The IndexedDB database behind the composable, as far as the store's
    methods use it.  An object store is the list of its records in
    ascending order of their key (the [id] of the record, a string);
    [put] adds a record or replaces the one with the same key.  An index
    enumerates the records by the indexed number and, among equal
    numbers, by key.  The identifiers and the clock readings a method
    draws are arguments. *)

Module Store.

Record Project : Type := {
  project_id : string;
  project_name : string;
  project_systemPrompt : option string;
  project_createdAt : Z
}.

Record Chat : Type := {
  chat_id : string;
  chat_projectId : string;
  chat_title : string;
  chat_createdAt : Z;
  chat_updatedAt : Z
}.

(** A message as stored: its key, the chat it is indexed under (none
    when the field is missing or [null]), its time stamp and the rest of
    it. *)
Record StoredMessage : Type := {
  message_id : string;
  message_chatId : option string;
  message_timestamp : Z;
  message_body : Engine.Message
}.

(** A message as [addMessage] receives it: [id] and [timestamp] may be
    missing. *)
Record Draft : Type := {
  draft_id : option string;
  draft_chatId : option string;
  draft_timestamp : option Z;
  draft_body : Engine.Message
}.

Record Database : Type := {
  projectStore : list Project;
  chatStore : list Chat;
  messageStore : list StoredMessage
}.

Section ObjectStore.
Context {A : Type} (key : A -> string).

(** [db.put(store, record)]. *)
Fixpoint put (r : A) (l : list A) : list A :=
  match l with
  | [] => [r]
  | x :: rest =>
      match String.compare (key r) (key x) with
      | Lt => r :: l
      | Eq => r :: rest
      | Gt => x :: put r rest
      end
  end.

(** [db.delete(store, key)]. *)
Definition remove (k : string) (l : list A) : list A :=
  List.filter (fun x => negb (key x =? k)) l.

(** The records are in ascending key order, without repetition. *)
Definition ordered (l : list A) : Prop :=
  StronglySorted (fun a b => String.compare (key a) (key b) = Lt) l.

End ObjectStore.

Section Index.
Context {A : Type} (ix : A -> Z).

(** Insertion before the first record that is not smaller. *)
Fixpoint insertBy (x : A) (l : list A) : list A :=
  match l with
  | [] => [x]
  | y :: rest => if (ix x <=? ix y)%Z then x :: l else y :: insertBy x rest
  end.

(** The stable sort by ascending [ix]: of records in key order, the
    enumeration of the index on [ix]; of an array, what [sort] with the
    comparator [a.ix - b.ix] yields. *)
Definition sortBy (l : list A) : list A := fold_right insertBy [] l.

End Index.

(** [createProject(name, systemPrompt)]. *)
Definition createProject (name : string) (systemPrompt : option string) (uuid : string) (now : Z)
    (db : Database) : Project * Database :=
  let project :=
    {| project_id := uuid; project_name := name;
       project_systemPrompt :=
         match systemPrompt with
         | Some text => if text =? "" then None else Some text
         | None => None
         end;
       project_createdAt := now |} in
  (project,
   {| projectStore := put project_id project (projectStore db);
      chatStore := chatStore db; messageStore := messageStore db |}).

Definition updateProject (project : Project) (db : Database) : Database :=
  {| projectStore := put project_id project (projectStore db);
     chatStore := chatStore db; messageStore := messageStore db |}.

Definition getProjects (db : Database) : list Project :=
  sortBy project_createdAt (projectStore db).

(** [createChat(projectId, title)]; the clock is read twice. *)
Definition createChat (projectId title uuid : string) (createdAt updatedAt : Z) (db : Database)
    : Chat * Database :=
  let chat := {| chat_id := uuid; chat_projectId := projectId; chat_title := title;
                 chat_createdAt := createdAt; chat_updatedAt := updatedAt |} in
  (chat,
   {| projectStore := projectStore db; chatStore := put chat_id chat (chatStore db);
      messageStore := messageStore db |}).

(** The chat [updateChat] stores: the one given, stamped anew. *)
Definition touched (chat : Chat) (now : Z) : Chat :=
  {| chat_id := chat_id chat; chat_projectId := chat_projectId chat;
     chat_title := chat_title chat; chat_createdAt := chat_createdAt chat;
     chat_updatedAt := now |}.

Definition updateChat (chat : Chat) (now : Z) (db : Database) : Database :=
  {| projectStore := projectStore db;
     chatStore := put chat_id (touched chat now) (chatStore db);
     messageStore := messageStore db |}.

(** [getChats(projectId)]: the chats of the index on [updatedAt] that
    belong to the project, reversed. *)
Definition getChats (projectId : string) (db : Database) : list Chat :=
  rev (List.filter (fun c => chat_projectId c =? projectId)
         (sortBy chat_updatedAt (chatStore db))).

Definition deleteChat (chatId : string) (db : Database) : Database :=
  {| projectStore := projectStore db; chatStore := remove chat_id chatId (chatStore db);
     messageStore := messageStore db |}.

(** The records of the index on [chatId] under the key [chatId], in key
    order. *)
Definition byChat (chatId : string) (ms : list StoredMessage) : list StoredMessage :=
  List.filter (fun m => match message_chatId m with
                        | Some c => c =? chatId
                        | None => false
                        end) ms.

(** The inner loop of [deleteProject]: the messages of one chat are
    deleted by their keys. *)
Definition deleteMessagesOf (chatId : string) (ms : list StoredMessage) : list StoredMessage :=
  fold_left (fun ms msgId => remove message_id msgId ms)
    (map message_id (byChat chatId ms)) ms.

(** [deleteProject(id)]. *)
Definition deleteProject (id : string) (db : Database) : Database :=
  let chats := getChats id db in
  let stores :=
    fold_left (fun stores chat =>
                 (remove chat_id (chat_id chat) (fst stores),
                  deleteMessagesOf (chat_id chat) (snd stores)))
      chats (chatStore db, messageStore db) in
  {| projectStore := remove project_id id (projectStore db);
     chatStore := fst stores; messageStore := snd stores |}.

(** The message [addMessage] stores and returns: a missing (or empty)
    [id] and a missing (or zero) [timestamp] are filled in. *)
Definition completed (draft : Draft) (uuid : string) (now : Z) : StoredMessage :=
  {| message_id := match draft_id draft with
                   | Some id => if id =? "" then uuid else id
                   | None => uuid
                   end;
     message_chatId := draft_chatId draft;
     message_timestamp := match draft_timestamp draft with
                          | Some t => if (t =? 0)%Z then now else t
                          | None => now
                          end;
     message_body := draft_body draft |}.

Definition addMessage (draft : Draft) (uuid : string) (now : Z) (db : Database)
    : StoredMessage * Database :=
  let message := completed draft uuid now in
  (message,
   {| projectStore := projectStore db; chatStore := chatStore db;
      messageStore := put message_id message (messageStore db) |}).

Definition updateMessage (message : StoredMessage) (db : Database) : Database :=
  {| projectStore := projectStore db; chatStore := chatStore db;
     messageStore := put message_id message (messageStore db) |}.

(** [getMessages(chatId, limit)]. *)
Definition getMessages (chatId : string) (limit : nat) (db : Database) : list StoredMessage :=
  let messages := sortBy message_timestamp (byChat chatId (messageStore db)) in
  if negb (limit =? 0)%nat && (limit <? length messages)%nat
  then drop (length messages - limit) messages
  else messages.

(** The cursor loop of [getRecentMessages]: [cursor] holds the records
    still ahead, newest first. *)
Fixpoint recentLoop (cursor messages : list StoredMessage) (limit : nat) : list StoredMessage :=
  match cursor with
  | [] => messages
  | value :: rest =>
      if (length messages <? limit)%nat then recentLoop rest (value :: messages) limit
      else messages
  end.

(** [getRecentMessages(limit)]. *)
Definition getRecentMessages (limit : nat) (db : Database) : list StoredMessage :=
  recentLoop (rev (sortBy message_timestamp (messageStore db))) [] limit.

Definition clearMessages (db : Database) : Database :=
  {| projectStore := projectStore db; chatStore := chatStore db; messageStore := [] |}.

(** Every store of the database is in key order. *)
Definition wellformed (db : Database) : Prop :=
  ordered project_id (projectStore db) /\ ordered chat_id (chatStore db)
  /\ ordered message_id (messageStore db).

Definition empty : Database := {| projectStore := []; chatStore := []; messageStore := [] |}.

End Store.


(** ** The provider list ([addServer], [toggleServer], [removeServer])

    The entries of [mcpServers] with all their fields.  What a
    connection attempt yields (the tools the provider lists, or the
    message of the error raised) and the identifier drawn for a new
    entry are arguments. *)

Module Servers.

Import Json.

Record Server : Type := {
  entry_id : Z;
  entry_url : string;
  entry_name : string;
  entry_headers : json;
  entry_enabled : bool;
  entry_status : string;
  entry_toolCount : nat;
  entry_error : option string;
  entry_client : option McpClient
}.

(** [connectServer(server)], the attempt ending as [outcome] tells. *)
Definition connectServer (outcome : Result (list ToolDef)) (server : Server) : Server :=
  match outcome with
  | Ok tools =>
      {| entry_id := entry_id server; entry_url := entry_url server;
         entry_name := entry_name server; entry_headers := entry_headers server;
         entry_enabled := entry_enabled server; entry_status := "connected";
         entry_toolCount := length tools; entry_error := None;
         entry_client := Some {| client_url := entry_url server; client_tools := tools |} |}
  | Err message =>
      {| entry_id := entry_id server; entry_url := entry_url server;
         entry_name := entry_name server; entry_headers := entry_headers server;
         entry_enabled := entry_enabled server; entry_status := "error";
         entry_toolCount := 0; entry_error := Some message;
         entry_client := Some {| client_url := entry_url server; client_tools := [] |} |}
  end.

(** The first entry that satisfies [p] is replaced by its image. *)
Fixpoint updateFirst (p : Server -> bool) (f : Server -> Server) (servers : list Server)
    : list Server :=
  match servers with
  | [] => []
  | s :: rest => if p s then f s :: rest else s :: updateFirst p f rest
  end.

(** [splice(idx, 1)] at the first entry that satisfies [p]. *)
Fixpoint removeFirst (p : Server -> bool) (servers : list Server) : list Server :=
  match servers with
  | [] => []
  | s :: rest => if p s then rest else s :: removeFirst p rest
  end.

(** The trimmed text without one trailing slash. *)
Definition cleanUrl (url : string) : string :=
  let trimmed := Extractor.trim (list_ascii_of_string url) in
  string_of_list_ascii
    match rev trimmed with
    | c :: before => if Ascii.eqb c "/" then rev before else trimmed
    | [] => trimmed
    end.

Definition named (name : string) (server : Server) : Server :=
  {| entry_id := entry_id server; entry_url := entry_url server; entry_name := name;
     entry_headers := entry_headers server; entry_enabled := entry_enabled server;
     entry_status := entry_status server; entry_toolCount := entry_toolCount server;
     entry_error := entry_error server; entry_client := entry_client server |}.

(** [addServer(url, enabled, name, headers)]. *)
Definition addServer (url : string) (enabled : bool) (name : string) (headers : option json)
    (id : Z) (outcome : Result (list ToolDef)) (servers : list Server) : list Server :=
  match List.find (fun s => entry_url s =? cleanUrl url) servers with
  | Some existing =>
      if negb (name =? "") && (entry_name existing =? "")
      then updateFirst (fun s => entry_url s =? cleanUrl url) (named name) servers
      else servers
  | None =>
      let server :=
        {| entry_id := id; entry_url := cleanUrl url; entry_name := name;
           entry_headers := match headers with
                            | Some h => if truthy h then h else JObj []
                            | None => JObj []
                            end;
           entry_enabled := enabled;
           entry_status := if enabled then "idle" else "disabled";
           entry_toolCount := 0; entry_error := None; entry_client := None |} in
      servers ++ [if enabled then connectServer outcome server else server]
  end.

(** What [toggleServer] makes of the entry it finds. *)
Definition toggled (outcome : Result (list ToolDef)) (server : Server) : Server :=
  if entry_enabled server then
    {| entry_id := entry_id server; entry_url := entry_url server;
       entry_name := entry_name server; entry_headers := entry_headers server;
       entry_enabled := false; entry_status := "disabled"; entry_toolCount := 0;
       entry_error := entry_error server; entry_client := None |}
  else
    connectServer outcome
      {| entry_id := entry_id server; entry_url := entry_url server;
         entry_name := entry_name server; entry_headers := entry_headers server;
         entry_enabled := true; entry_status := entry_status server;
         entry_toolCount := entry_toolCount server; entry_error := entry_error server;
         entry_client := entry_client server |}.

(** [toggleServer(id)]. *)
Definition toggleServer (id : Z) (outcome : Result (list ToolDef)) (servers : list Server)
    : list Server :=
  updateFirst (fun s => (entry_id s =? id)%Z) (toggled outcome) servers.

(** [removeServer(id)]. *)
Definition removeServer (id : Z) (servers : list Server) : list Server :=
  removeFirst (fun s => (entry_id s =? id)%Z) servers.

(** The entry as the engine reads it. *)
Definition asProvider (server : Server) : Engine.McpServer :=
  {| Engine.server_enabled := entry_enabled server;
     Engine.server_status := entry_status server;
     Engine.server_client := entry_client server |}.

(** The lists of entries the three operations lead to, starting with
    none. *)
Inductive reachable : list Server -> Prop :=
| reachable_start : reachable []
| reachable_add url enabled name headers id outcome servers :
    reachable servers -> reachable (addServer url enabled name headers id outcome servers)
| reachable_toggle id outcome servers :
    reachable servers -> reachable (toggleServer id outcome servers)
| reachable_remove id servers :
    reachable servers -> reachable (removeServer id servers).

(** An enabled entry has a client, connected or failed (and then
    without tools); a disabled one has none.  The tool count is that of
    the client. *)
Definition coherent (server : Server) : Prop :=
  if entry_enabled server then
    exists client,
      entry_client server = Some client
      /\ entry_toolCount server = length (client_tools client)
      /\ (entry_status server = "connected"
          \/ (entry_status server = "error" /\ client_tools client = []))
  else
    entry_client server = None /\ entry_status server = "disabled"
    /\ entry_toolCount server = 0.

End Servers.

(** ** The history as it goes to the model ([buildSystemPrompt],
       [postChatToWorker]) *)

Module Prompt.

Import Json Engine.

(** The schema shown in place of a provider tool's own. *)
Definition hiddenParameters : json :=
  JObj [("type", JStr "object"); ("properties", JObj []);
        ("description", JStr "Parameters hidden. Call getToolSchema to view.")].

(** One element of the [map] that builds [llmTools]. *)
Definition llmTool (t : ToolDef) : ToolDef :=
  if (tool_name t =? "getToolSchema") || (tool_name t =? "evalCode")
     || (tool_name t =? "listTools")
  then t
  else {| tool_name := tool_name t; tool_description := tool_description t;
          tool_parameters := Some hiddenParameters |}.

(** The character of the fence markers. *)
Definition backtick : ascii := ascii_of_nat 96.

(** [buildSystemPrompt().llmTools]. *)
Definition llmTools (servers : list McpServer) : list ToolDef :=
  map llmTool (fullTools servers).

(** A message of the payload, by its role and its content (the other
    fields of a message are copied as they are). *)
Record WireMessage : Type := {
  wire_role : string;
  wire_content : string
}.

Section WithPlatform.
Context `{Platform}.

(** One element of [toolsObj]: the name of the call and its arguments,
    parsed when they parse. *)
Definition callObject (tc : ToolCall) : json :=
  JObj [("name", JStr (call_name tc));
        ("arguments", match JSON_parse (call_arguments tc) with
                      | Ok args => args
                      | Err _ => JStr (call_arguments tc)
                      end)].

(** [toolsJson]: the calls of an assistant message as fenced JSON
    text. *)
Definition toolsJson (tool_calls : list ToolCall) : string :=
  "```json" +:+ nl +:+ JSON_pretty (JArr (map callObject tool_calls)) +:+ nl +:+ "```".

(** The body of the loop of [postChatToWorker] for one message. *)
Definition processMessage (msg : Message) : WireMessage :=
  match msg with
  | User content => {| wire_role := "user"; wire_content := content |}
  | Assistant content [] =>
      {| wire_role := "assistant"; wire_content := default "" content |}
  | Assistant content tool_calls =>
      {| wire_role := "assistant";
         wire_content :=
           match content with
           | Some text =>
               if text =? "" then toolsJson tool_calls
               else text +:+ nl +:+ toolsJson tool_calls
           | None => toolsJson tool_calls
           end |}
  | Tool _ name content _ =>
      {| wire_role := "user";
         wire_content :=
           "Tool Output [" +:+ name +:+ "]:" +:+ nl +:+ default "undefined" content |}
  end.

(** [processedMessages]. *)
Definition processedMessages (messages : list Message) : list WireMessage :=
  map processMessage messages.

End WithPlatform.

End Prompt.


(** ** Data for the examples *)

Module Fixtures.

Import Json Engine Reference.

(** A provider that lists a tool under the name of a built-in one, and a
    tool of its own. *)
Definition shadowing : McpClient :=
  {| client_url := "http://localhost:3000/mcp";
     client_tools :=
       [ {| tool_name := "getToolSchema"; tool_description := Some "Not the built-in one.";
            tool_parameters := None |};
         {| tool_name := "lookup"; tool_description := Some "Look a word up.";
            tool_parameters := Some (JObj [("type", JStr "object")]) |} ] |}.

Definition connected (client : McpClient) : McpServer :=
  {| server_enabled := true; server_status := "connected"; server_client := Some client |}.

(** The fresh session with that provider connected. *)
Definition shadowedSession : @State demo :=
  @Build_State demo [] (Some "chat-1") None ∅ true [connected shadowing] true [] [].

(** The fresh session with the always-allow entry set. *)
Definition grantedSession : @State demo :=
  @Build_State demo [] (Some "chat-1") None ∅ true [] true [] [("mcp_allow_all", "true")].

(** The session with that provider connected and the always-allow entry
    set. *)
Definition trustingSession : @State demo :=
  @Build_State demo [] (Some "chat-1") None ∅ true [connected shadowing] true []
    [("mcp_allow_all", "true")].

Definition looping : ToolCall :=
  callOf "call_1" "evalCode" (JObj [("code", JStr "while (true) {}")]).

Definition listing : ToolCall := callOf "call_2" "listTools" (JObj []).

Definition unknown : ToolCall := callOf "call_3" "nope" (JObj []).

(** The fresh session without an active chat. *)
Definition chatlessSession : @State demo :=
  @Build_State demo [] None None ∅ true [] true [] [].

(** A validator that rejects every document. *)
Definition rejectAll (schema args : json) : AjvOutcome := AjvInvalid "data must be string".

(** A sandbox in which code evaluates to its own text. *)
Definition quoting (code : option json) : SafeOutcome :=
  SafeSuccess match code with
              | Some (JStr text) => EvString text
              | _ => EvOther (Ok None)
              end.

(** The reference platform with the rejecting validator, and with the
    quoting sandbox. *)
(** The statement that removes the always-allow entry. *)
Definition clearing : string := "localStorage.removeItem('mcp_allow_all')".

(** An in-process evaluator that carries out that one statement and does
    nothing on any other code; in both cases the code returns
    [undefined]. *)
Definition obeying (code : option json) (w : Storage) : DirectOutcome * Storage :=
  (DirectReturned (EvOther (Ok None)),
   match code with
   | Some (JStr text) => if text =? clearing then removeItem "mcp_allow_all" w else w
   | _ => w
   end).

(** The reference platform with that evaluator, and a session on it with
    the sandbox switched off. *)
Definition unsandboxed : Platform := platform acceptAll alwaysTimesOut obeying echoProvider.

Definition unsandboxedSession : @State unsandboxed :=
  @Build_State unsandboxed [] (Some "chat-1") None ∅ false [] true [] [].

Definition harmless : ToolCall := callOf "call_1" "evalCode" (JObj [("code", JStr "return 1")]).

Definition wiping : ToolCall := callOf "call_2" "evalCode" (JObj [("code", JStr clearing)]).

Definition strict : Platform := platform rejectAll alwaysTimesOut alwaysThrowsNull echoProvider.
Definition literal : Platform := platform acceptAll quoting alwaysThrowsNull echoProvider.

Definition strictSession : @State strict :=
  @Build_State strict [] (Some "chat-1") None ∅ true [connected shadowing] true [] [].

Definition literalSession : @State literal :=
  @Build_State literal [] (Some "chat-1") None ∅ true [] true [] [].

(** A store with two projects, a chat in each and a message in each
    chat. *)
Definition sampleStore : Store.Database :=
  let db1 := snd (Store.createProject "Work" None "p1" 1 Store.empty) in
  let db2 := snd (Store.createProject "Home" None "p2" 2 db1) in
  let db3 := snd (Store.createChat "p1" "General" "c1" 3 3 db2) in
  let db4 := snd (Store.createChat "p2" "General" "c2" 4 4 db3) in
  let db5 := snd (Store.addMessage
                    {| Store.draft_id := None; Store.draft_chatId := Some "c1";
                       Store.draft_timestamp := None; Store.draft_body := User "hello" |}
                    "m1" 5 db4) in
  snd (Store.addMessage
         {| Store.draft_id := None; Store.draft_chatId := Some "c2";
            Store.draft_timestamp := None; Store.draft_body := User "hi" |}
         "m2" 6 db5).

End Fixtures.



(** * Properties *)

(** ** The schema-example synthesizer *)

Module ExampleFacts.

Import Example.

Lemma lookup_depth k fs v : lookup k fs = Some v -> depth v < depth (JObj fs).
Proof.
  simpl. induction fs as [|[k' v'] fs IH]; simpl; [discriminate|].
  destruct (k' =? k)%string.
  - intros [= ->]. lia.
  - intros Hl. specialize (IH Hl). lia.
Qed.

Lemma get_depth k s v : get k s = Some v -> depth v < depth s.
Proof. destruct s; simpl; try discriminate. apply lookup_depth. Qed.

Lemma indexed_depth n i l k x :
  Forall (fun y => depth y <= n) l -> In (k, x) (indexed i l) -> depth x <= n.
Proof.
  intros Hall. revert i. induction Hall as [|y l Hy _ IH]; simpl; intros i; [tauto|].
  intros [[= _ <-]|Hin]; [exact Hy|eauto].
Qed.

Lemma max_depth_bound l : Forall (fun y => depth y <= fold_right (fun x n => Nat.max (depth x) n) 0 l) l.
Proof.
  induction l as [|y l IH]; constructor; simpl; [lia|].
  eapply Forall_impl; [exact IH|]. simpl. intros. lia.
Qed.

Lemma entries_depth p k x : In (k, x) (entries p) -> depth x <= depth p.
Proof.
  destruct p as [| | |s|l|fs]; simpl; try tauto.
  - apply indexed_depth. induction s; simpl; constructor; simpl; auto.
  - intros Hin. pose proof (indexed_depth _ _ _ _ _ (max_depth_bound l) Hin). lia.
  - induction fs as [|[k' v'] fs IH]; simpl; [tauto|].
    intros [[= _ <-]|Hin]; [lia|]. specialize (IH Hin). lia.
Qed.

Lemma requiredEntries_ext g1 g2 required es :
  (forall k x, In (k, x) es -> g1 x = g2 x) ->
  requiredEntries g1 required es = requiredEntries g2 required es.
Proof.
  induction es as [|[k x] es IH]; simpl; intros Hext; [reflexivity|].
  rewrite (Hext k x) by auto. rewrite IH by (intros; eapply Hext; eauto).
  reflexivity.
Qed.

(** Fuel beyond the depth of the schema changes nothing. *)
Lemma generateExampleFuel_enough n m schema :
  fuelFor schema <= n -> fuelFor schema <= m ->
  generateExampleFuel n schema = generateExampleFuel m schema.
Proof.
  revert m schema. induction n as [|n IH]; intros m schema Hn Hm.
  - destruct schema; simpl in Hn; lia.
  - destruct m as [|m]; [destruct schema; simpl in Hm; lia|].
    destruct schema as [s|]; [|reflexivity]. simpl in Hn, Hm. simpl.
    destruct (negb (truthy s)); [reflexivity|].
    destruct (truthyU (get "example" s)); [reflexivity|].
    destruct (truthyU (get "default" s)); [reflexivity|].
    destruct (truthyU (get "const" s)); [reflexivity|].
    destruct (enumHead (get "enum" s)) as [[first|]|]; try reflexivity.
    destruct (isType _ "object").
    { destruct (truthyU (get "properties" s)); [|reflexivity].
      erewrite requiredEntries_ext; [reflexivity|].
      intros k x Hin. destruct (get "properties" s) as [p|] eqn:Hp; [|destruct Hin].
      apply get_depth in Hp. apply entries_depth in Hin.
      apply IH; simpl; lia. }
    destruct (isType _ "array"); [|reflexivity].
    destruct (get "items" s) as [it|] eqn:Hit; [|reflexivity].
    destruct (truthyU (Some it)); [|reflexivity].
    apply get_depth in Hit. rewrite (IH m (Some it)); simpl; try lia. reflexivity.
Qed.

(** The recursive calls of [generateExample] are calls of
    [generateExample] again. *)
Lemma generateExample_sub s k v :
  get k s = Some v -> generateExampleFuel (depth s) (Some v) = generateExample (Some v).
Proof.
  intros Hg. apply get_depth in Hg. unfold generateExample.
  apply generateExampleFuel_enough; simpl; lia.
Qed.

Lemma requiredIncludes_names required req key :
  requiredNames required = Some req ->
  requiredIncludes required key = Some (bool_decide (key ∈ req)).
Proof.
  unfold requiredNames, requiredIncludes, orElse.
  destruct required as [[| b | n | str | l | fs]|]; simpl; intros Hreq;
    try discriminate; try (injection Hreq as <-); try reflexivity.
  - destruct b; [discriminate|]. injection Hreq as <-. reflexivity.
  - destruct (n =? 0)%Z; simpl in *; [|discriminate]. injection Hreq as <-. reflexivity.
  - destruct (str =? "")%string; simpl in *; [|discriminate]. injection Hreq as <-. reflexivity.
  - f_equal. induction l as [|r l IH]; simpl; [reflexivity|].
    destruct r as [| | |n| |]; simpl; try exact IH.
    destruct (String.eqb_spec n key) as [->|Hne].
    + symmetry. apply bool_decide_eq_true. left.
    + rewrite IH. apply bool_decide_ext. rewrite elem_of_cons. naive_solver.
Qed.

Lemma ownEntries_cons k v es : ownEntries ((k, v) :: es) = assign k v (ownEntries es).
Proof.
  unfold ownEntries, assign. rewrite filter_cons. simpl.
  destruct (String.eqb_spec k "__proto__") as [->|Hne].
  - rewrite decide_False by (intros Hk; apply Hk; reflexivity). reflexivity.
  - rewrite decide_True by exact Hne. reflexivity.
Qed.

Lemma requiredEntries_collect gen required req es :
  requiredNames required = Some req ->
  requiredEntries gen required es
  = option_map ownEntries
      (collect (map (fun kp => (fst kp, gen (snd kp))) (filter (fun kp => fst kp ∈ req) es))).
Proof.
  intros Hreq. induction es as [|[k x] es IH]; simpl; [reflexivity|].
  rewrite (requiredIncludes_names _ _ _ Hreq), filter_cons. simpl.
  destruct (decide (k ∈ req)) as [Hin|Hout].
  - rewrite bool_decide_eq_true_2 by exact Hin. simpl.
    rewrite IH. destruct (gen x); [|reflexivity].
    destruct (collect _); simpl; [|reflexivity].
    rewrite ownEntries_cons. reflexivity.
  - rewrite bool_decide_eq_false_2 by exact Hout. exact IH.
Qed.

Lemma literal_none_enum s vs :
  enumList (get "enum" s) = Some vs ->
  truthyU (get "example" s) = false -> truthyU (get "default" s) = false ->
  truthyU (get "const" s) = false ->
  enumHead (get "enum" s) = Some (literal s).
Proof.
  intros He H1 H2 H3. unfold literal. rewrite H1, H2, H3.
  destruct (get "enum" s) as [[| | |str|[|x l]|]|]; simpl in *; try reflexivity; try discriminate.
  destruct str; [reflexivity|discriminate].
Qed.

(** C6 (as amended).  For a truthy schema whose [enum], [required] and
    [properties] keywords, where present, have the shapes JSON Schema
    gives them: the synthesizer returns a truthy [example], [default] or
    [const] value (in that precedence), else the first element of a
    non-empty [enum]; failing those it returns, by type, the object made
    of exactly the entries of [properties] whose key is listed in
    [required] and is not [__proto__], each synthesized recursively and
    in their order (an entry named [__proto__] is synthesized as well,
    but the assignment creates no property of that name), a one-element
    array holding the example of [items] or the empty array when there
    is no [items], and the stand-ins ["example_string"], 123, true and
    null for the primitive types. *)
Theorem generateExample_cases (s : json) (vs : list json) (req : list string)
    (ps : list (string * json)) :
  truthy s = true ->
  enumList (get "enum" s) = Some vs ->
  requiredNames (get "required" s) = Some req ->
  propertyList (get "properties" s) = Some ps ->
  generateExample (Some s)
  = match literal s with
    | Some v => Some v
    | None => synthesize s req ps
    end.
Proof.
  intros Hs He Hreq Hps. unfold generateExample. simpl. rewrite Hs. simpl.
  destruct (truthyU (get "example" s)) eqn:H1.
  { unfold literal. rewrite H1. destruct (get "example" s); [reflexivity|discriminate]. }
  destruct (truthyU (get "default" s)) eqn:H2.
  { unfold literal. rewrite H1, H2. destruct (get "default" s); [reflexivity|discriminate]. }
  destruct (truthyU (get "const" s)) eqn:H3.
  { unfold literal. rewrite H1, H2, H3. destruct (get "const" s); [reflexivity|discriminate]. }
  rewrite (literal_none_enum s vs He H1 H2 H3).
  destruct (literal s) as [v|]; [reflexivity|].
  unfold synthesize.
  destruct (isType _ "object").
  { rewrite (requiredEntries_collect _ _ req _ Hreq).
    assert (Hent : forall p, get "properties" s = Some p -> truthy p = true ->
                             forall k x, In (k, x) (entries p) ->
                             generateExampleFuel (depth s) (Some x) = generateExample (Some x)).
    { intros p Hp _ k x Hin. apply get_depth in Hp. apply entries_depth in Hin.
      unfold generateExample. apply generateExampleFuel_enough; simpl; lia. }
    destruct (get "properties" s) as [p|] eqn:Hp; simpl in *.
    - destruct (truthy p) eqn:Htp.
      + specialize (Hent p eq_refl Htp).
        assert (Hes : entries p = ps).
        { destruct p as [| b | n | str | l | fs]; simpl in *; try discriminate;
            try (injection Hps as <-; reflexivity).
          destruct (str =? "")%string; discriminate. }
        rewrite Hes in *. clear Hes.
        match goal with |- match option_map _ (collect ?a) with _ => _ end
                           = option_map _ (collect ?b) =>
          replace a with b end.
        { destruct (collect _); reflexivity. }
        clear -Hent. induction ps as [|[k x] ps IH]; [reflexivity|].
        rewrite !filter_cons. simpl. destruct (decide (k ∈ req)); simpl.
        * f_equal; [f_equal; symmetry; eapply Hent; left; reflexivity|].
          apply IH. intros; eapply Hent; right; eauto.
        * apply IH. intros; eapply Hent; right; eauto.
      + assert (ps = []) as ->.
        { destruct p as [| b | n | str | l | fs]; simpl in *; try discriminate;
            try (injection Hps as <-; reflexivity).
          destruct (str =? "")%string; [injection Hps as <-; reflexivity|discriminate]. }
        reflexivity.
    - injection Hps as <-. reflexivity. }
  destruct (isType _ "array").
  { destruct (get "items" s) as [it|] eqn:Hit; simpl; [|reflexivity].
    destruct (truthy it); [|reflexivity].
    rewrite (generateExample_sub s "items" it Hit).
    destruct (generateExample (Some it)); reflexivity. }
  destruct (isType _ "string"); [reflexivity|].
  destruct (isType _ "number"); [reflexivity|]. simpl.
  destruct (isType _ "integer"); [reflexivity|].
  destruct (isType _ "boolean"); [reflexivity|].
  destruct (isType _ "null"); reflexivity.
Qed.

(** The example of the specification: with [required: ["a"]] and
    properties [a] (a string) and [b] (a number), the synthesized object
    has the key [a] only, with the string stand-in. *)
Lemma generateExample_cases_witness :
  let s := JObj [("type", JStr "object"); ("required", JArr [JStr "a"]);
                 ("properties", JObj [("a", JObj [("type", JStr "string")]);
                                      ("b", JObj [("type", JStr "number")])])] in
  generateExample (Some s) = Some (JObj [("a", JStr "example_string")]).
Proof.
  intros s.
  rewrite (generateExample_cases s [] ["a"]
             [("a", JObj [("type", JStr "string")]); ("b", JObj [("type", JStr "number")])]
             eq_refl eq_refl eq_refl eq_refl).
  vm_compute. reflexivity.
Defined.

(** C6 as stated fails on four inputs: an array schema without [items]
    yields no element, a required name that [properties] does not
    declare is left out of the object, a [default] that is [false] is
    not returned (the boolean stand-in is), and a required property
    named [__proto__] that [properties] declares is not in the object. *)
Lemma generateExample_counterexample :
  generateExample (Some (JObj [("type", JStr "array")])) = Some (JArr [])
  /\ generateExample (Some (JObj [("type", JStr "object"); ("required", JArr [JStr "a"])]))
     = Some (JObj [])
  /\ generateExample (Some (JObj [("type", JStr "boolean"); ("default", JBool false)]))
     = Some (JBool true)
  /\ generateExample
       (Some (JObj [("type", JStr "object");
                    ("required", JArr [JStr "__proto__"; JStr "a"]);
                    ("properties", JObj [("__proto__", JObj [("type", JStr "string")]);
                                         ("a", JObj [("type", JStr "string")])])]))
     = Some (JObj [("a", JStr "example_string")]).
Proof. repeat split; reflexivity. Qed.

End ExampleFacts.

(** ** The engine *)

Module EngineFacts.

Import Engine.

Section WithPlatform.
Context `{Platform}.

Implicit Types (st : State) (call : ToolCall) (calls : list ToolCall).

(** *** The validator *)

(** C3 (as amended).  A [getToolSchema] call is [Valid] whatever its
    argument text; a [listTools] call is validated like a call of any
    other tool: it is [Valid] exactly when the registry holds the tool,
    the argument text parses as JSON and the parsed arguments conform to
    the tool's schema. *)
Theorem validateToolCall_introspection (id arguments : string) (activeTools : list ToolDef) :
  validateToolCall {| call_id := id; call_name := "getToolSchema"; call_arguments := arguments |}
    activeTools = Valid
  /\ isValid (validateToolCall
                {| call_id := id; call_name := "listTools"; call_arguments := arguments |}
                activeTools)
     = conforms activeTools "listTools" arguments.
Proof.
  split; [reflexivity|].
  unfold validateToolCall, conforms. simpl.
  destruct (findTool activeTools "listTools") as [toolDef|]; [|reflexivity].
  destruct (JSON_parse arguments) as [args|message]; [|reflexivity].
  destruct (tool_parameters toolDef) as [parameters|]; [|reflexivity].
  destruct (truthy parameters); [|reflexivity]. simpl.
  destruct (ajv_validate parameters args); reflexivity.
Qed.

(** *** The sequencer *)

Lemma validationResults_app calls1 calls2 activeTools :
  validationResults (calls1 ++ calls2) activeTools
  = validationResults calls1 activeTools ++ validationResults calls2 activeTools.
Proof. apply map_app. Qed.

Lemma firstInvalidIndex_none calls activeTools :
  Forall (fun call => isValid (validateToolCall call activeTools) = true) calls ->
  firstInvalidIndex (validationResults calls activeTools) = None.
Proof.
  induction 1 as [|call calls Hv _ IH]; simpl; [reflexivity|].
  rewrite Hv, IH. reflexivity.
Qed.

Lemma firstInvalidIndex_split before bad after activeTools :
  Forall (fun call => isValid (validateToolCall call activeTools) = true) before ->
  isValid (validateToolCall bad activeTools) = false ->
  firstInvalidIndex (validationResults (before ++ bad :: after) activeTools)
  = Some (length before).
Proof.
  intros Hbefore Hbad. induction Hbefore as [|call calls Hv _ IH]; simpl.
  - rewrite Hbad. reflexivity.
  - rewrite Hv. simpl. rewrite IH. reflexivity.
Qed.

Lemma sequenceCalls_split before bad after activeTools :
  Forall (fun call => isValid (validateToolCall call activeTools) = true) before ->
  isValid (validateToolCall bad activeTools) = false ->
  sequenceCalls (before ++ bad :: after)
    (validationResults (before ++ bad :: after) activeTools)
  = (before, Some (bad, validateToolCall bad activeTools)).
Proof.
  intros Hbefore Hbad. unfold sequenceCalls.
  rewrite (firstInvalidIndex_split _ _ _ _ Hbefore Hbad).
  rewrite validationResults_app. f_equal.
  - rewrite <- (length_map (fun call => (call, validateToolCall call activeTools)) before).
    unfold validationResults at 1. rewrite take_app_length.
    rewrite map_map. simpl. apply map_id.
  - rewrite <- (length_map (fun call => (call, validateToolCall call activeTools)) before).
    unfold validationResults. simpl. rewrite list_lookup_middle by reflexivity. reflexivity.
Qed.

Lemma sequenceCalls_all_valid calls activeTools :
  Forall (fun call => isValid (validateToolCall call activeTools) = true) calls ->
  sequenceCalls calls (validationResults calls activeTools) = (calls, None).
Proof.
  intros Hall. unfold sequenceCalls. rewrite (firstInvalidIndex_none _ _ Hall). reflexivity.
Qed.

(** *** Deduplication *)

Lemma dedupLoop_acc seen acc calls :
  dedupLoop seen acc calls = acc ++ dedupLoop seen [] calls.
Proof.
  revert seen acc. induction calls as [|call calls IH]; intros seen acc; simpl.
  - symmetry. apply app_nil_r.
  - case_decide; [apply IH|].
    rewrite IH, (IH _ [call]), <- app_assoc. reflexivity.
Qed.

Lemma dedupLoop_cons_fresh seen call calls :
  dedupKey call ∉ seen ->
  dedupLoop seen [] (call :: calls) = call :: dedupLoop ({[dedupKey call]} ∪ seen) [] calls.
Proof. intros Hfresh. simpl. rewrite decide_False by exact Hfresh. apply dedupLoop_acc. Qed.

Lemma dedupLoop_cons_seen seen call calls :
  dedupKey call ∈ seen ->
  dedupLoop seen [] (call :: calls) = dedupLoop seen [] calls.
Proof. intros Hseen. simpl. rewrite decide_True by exact Hseen. reflexivity. Qed.

Lemma dedupLoop_sublist seen calls : dedupLoop seen [] calls `sublist_of` calls.
Proof.
  revert seen. induction calls as [|call calls IH]; intros seen; [constructor|].
  destruct (decide (dedupKey call ∈ seen)) as [Hin|Hout].
  - rewrite dedupLoop_cons_seen by exact Hin. apply sublist_cons, IH.
  - rewrite dedupLoop_cons_fresh by exact Hout. apply sublist_skip, IH.
Qed.

Lemma dedupLoop_fresh seen calls c :
  c ∈ dedupLoop seen [] calls -> dedupKey c ∉ seen.
Proof.
  revert seen. induction calls as [|call calls IH]; intros seen; [intros Hin; inversion Hin|].
  destruct (decide (dedupKey call ∈ seen)) as [Hin|Hout].
  - rewrite dedupLoop_cons_seen by exact Hin. apply IH.
  - rewrite dedupLoop_cons_fresh by exact Hout. rewrite elem_of_cons.
    intros [->|Hc]; [exact Hout|]. apply IH in Hc. set_solver.
Qed.

Lemma dedupLoop_NoDup seen calls : NoDup (map dedupKey (dedupLoop seen [] calls)).
Proof.
  revert seen. induction calls as [|call calls IH]; intros seen; [constructor|].
  destruct (decide (dedupKey call ∈ seen)) as [Hin|Hout].
  - rewrite dedupLoop_cons_seen by exact Hin. apply IH.
  - rewrite dedupLoop_cons_fresh by exact Hout. simpl. constructor; [|apply IH].
    rewrite list_elem_of_fmap. intros (c & Hkey & Hc).
    apply dedupLoop_fresh in Hc. set_solver.
Qed.

Lemma dedupLoop_first seen l1 c l2 :
  dedupKey c ∉ seen ->
  (forall c', c' ∈ l1 -> dedupKey c' <> dedupKey c) ->
  c ∈ dedupLoop seen [] (l1 ++ c :: l2).
Proof.
  revert seen. induction l1 as [|call l1 IH]; intros seen Hfresh Hl1.
  - simpl app. rewrite dedupLoop_cons_fresh by exact Hfresh. left.
  - simpl app. destruct (decide (dedupKey call ∈ seen)) as [Hin|Hout].
    + rewrite dedupLoop_cons_seen by exact Hin. apply IH; [exact Hfresh|].
      intros c' Hc'. apply Hl1. right. exact Hc'.
    + rewrite dedupLoop_cons_fresh by exact Hout. right. apply IH.
      * assert (dedupKey call <> dedupKey c) by (apply Hl1; left). set_solver.
      * intros c' Hc'. apply Hl1. right. exact Hc'.
Qed.

Lemma dedupLoop_cover seen calls c :
  c ∈ calls ->
  dedupKey c ∈ seen \/ exists c', c' ∈ dedupLoop seen [] calls /\ dedupKey c' = dedupKey c.
Proof.
  revert seen. induction calls as [|call calls IH]; intros seen Hc; [inversion Hc|].
  destruct (decide (dedupKey call ∈ seen)) as [Hin|Hout].
  - rewrite dedupLoop_cons_seen by exact Hin.
    apply elem_of_cons in Hc as [->|Hc]; [left; exact Hin|apply IH, Hc].
  - rewrite dedupLoop_cons_fresh by exact Hout.
    apply elem_of_cons in Hc as [->|Hc].
    + right. exists call. split; [left|reflexivity].
    + destruct (IH ({[dedupKey call]} ∪ seen) Hc) as [Hs|(c' & Hc' & Hk)].
      * apply elem_of_union in Hs as [Hs|Hs]; [|left; exact Hs].
        apply elem_of_singleton in Hs. right. exists call. split; [left|congruence].
      * right. exists c'. split; [right; exact Hc'|exact Hk].
Qed.

(** A tool name without a colon determines where the key splits. *)
Lemma key_split_unique (n1 n2 a1 a2 : string) :
  (forall c, c ∈ list_ascii_of_string n1 -> c <> ":"%char) ->
  (forall c, c ∈ list_ascii_of_string n2 -> c <> ":"%char) ->
  n1 +:+ "::" +:+ a1 = n2 +:+ "::" +:+ a2 -> n1 = n2 /\ a1 = a2.
Proof.
  revert n2. induction n1 as [|c n1 IH]; intros [|d n2] H1 H2; cbv [String.append];
    fold String.append; intros Heq.
  - injection Heq as ->. split; reflexivity.
  - injection Heq as <- _. exfalso. apply (H2 ":"%char); [left|reflexivity].
  - injection Heq as -> _. exfalso. apply (H1 ":"%char); [left|reflexivity].
  - injection Heq as -> Hrest. destruct (IH n2) as [-> ->]; try exact Hrest.
    + intros c Hc. apply H1. right. exact Hc.
    + intros c Hc. apply H2. right. exact Hc.
    + split; reflexivity.
Qed.

(** *** What the execution pipeline writes *)

Lemma setWorld_same st : setWorld (world st) st = st.
Proof. destruct st; reflexivity. Qed.

Lemma pushes_here call content is_error st :
  pushes call st (pushTool call content is_error st).
Proof. exists content, is_error, (world st). rewrite setWorld_same. reflexivity. Qed.

Lemma pushes_world call content is_error w st :
  pushes call st (pushTool call content is_error (setWorld w st)).
Proof. exists content, is_error, w. reflexivity. Qed.

Lemma gate_pushMessage msg st : gate (pushMessage msg st) = gate st.
Proof. unfold pushMessage. destruct (chatActive st); reflexivity. Qed.

Lemma posted_pushMessage msg st : posted (pushMessage msg st) = posted st.
Proof. unfold pushMessage. destruct (chatActive st); reflexivity. Qed.

Lemma world_pushMessage msg st : world (pushMessage msg st) = world st.
Proof. unfold pushMessage. destruct (chatActive st); reflexivity. Qed.

Lemma messages_pushMessage msg st :
  messages (pushMessage msg st) = if chatActive st then messages st ++ [msg] else messages st.
Proof. unfold pushMessage. destruct (chatActive st); reflexivity. Qed.

Lemma chatActive_gate st st' : gate st' = gate st -> chatActive st' = chatActive st.
Proof. unfold gate, chatActive. intros [= -> _ _ _ _ _]. reflexivity. Qed.

Lemma gate_pending st st' : gate st' = gate st -> pendingToolCalls st' = pendingToolCalls st.
Proof. unfold gate. intros [= _ -> _ _ _ _]. reflexivity. Qed.

Lemma gate_useSafeEval st st' : gate st' = gate st -> useSafeEval st' = useSafeEval st.
Proof. unfold gate. intros [= _ _ _ -> _ _]. reflexivity. Qed.

Lemma pushes_gate call st st' : pushes call st st' -> gate st' = gate st.
Proof. intros (content & is_error & w & ->). unfold pushTool. rewrite gate_pushMessage. reflexivity. Qed.

Lemma pushes_posted call st st' : pushes call st st' -> posted st' = posted st.
Proof. intros (content & is_error & w & ->). unfold pushTool. rewrite posted_pushMessage. reflexivity. Qed.

Lemma pushes_messages call st st' :
  pushes call st st' -> chatActive st = true ->
  exists content is_error,
    messages st' = messages st ++ [Tool (call_id call) (call_name call) content is_error].
Proof.
  intros (content & is_error & w & ->) Hactive. exists content, is_error.
  unfold pushTool. rewrite messages_pushMessage.
  replace (chatActive (setWorld w st)) with (chatActive st) by reflexivity.
  rewrite Hactive. reflexivity.
Qed.

Lemma runGetToolSchema_pushes activeTools call st :
  pushes call st (runGetToolSchema activeTools call st).
Proof.
  unfold runGetToolSchema.
  destruct (JSON_parse (call_arguments call)) as [args|message]; [|apply pushes_here].
  destruct args; try apply pushes_here;
    match goal with |- pushes _ _ (match ?x with _ => _ end) => destruct x end;
    apply pushes_here.
Qed.

Lemma runListTools_pushes activeTools call st :
  pushes call st (runListTools activeTools call st).
Proof.
  unfold runListTools. destruct (listToolsResults _ _); apply pushes_here.
Qed.

Lemma runEvalCode_pushes call st : pushes call st (snd (runEvalCode call st)).
Proof.
  unfold runEvalCode.
  destruct (JSON_parse (call_arguments call)) as [args|message]; [|apply pushes_here].
  destruct args; try apply pushes_here;
    match goal with |- context [evalResult ?c st] => destruct (evalResult c st) as [[[text|[[str|]|m]]|m] w] end;
    simpl; try apply pushes_world;
    destruct (String.prefix _ _); apply pushes_world.
Qed.

Lemma runRemote_pushes activeTools call st :
  pushes call st (snd (runRemote activeTools call st)).
Proof.
  unfold runRemote.
  destruct (findServer _ _) as [client|]; [|apply pushes_here].
  destruct (findTool _ _) as [toolDef|]; [|apply pushes_here].
  destruct (JSON_parse _) as [args|message]; [|apply pushes_here].
  assert (Hcall : pushes call st
            (snd (match callTool client (call_name call) args (world st) with
                  | (Ok result, w) => (Next, pushTool call (Some result) false (setWorld w st))
                  | (Err message, w) =>
                      (Break, pushTool call (Some ("Error: " +:+ message)) true (setWorld w st))
                  end))).
  { destruct (callTool _ _ _ _) as [[result|message] w]; apply pushes_world. }
  assert (Hbad : forall validationError,
            pushes call st
              (snd (match Example.generateExample (tool_parameters toolDef) with
                    | Some argsExample =>
                        (Break,
                         pushTool call
                           (Some ("Error: Invalid arguments: " +:+ validationError +:+ ". " +:+ nl +:+ nl
                                  +:+ "Expected Schema:" +:+ nl +:+ prettyText (tool_parameters toolDef)
                                  +:+ nl +:+ nl +:+ "Expected Request Example Payload:" +:+ nl
                                  +:+ prettyText (Some (fullExample (call_name call) argsExample))
                                  +:+ nl +:+ nl
                                  +:+ "Please correct your input payload based on the schema and try again."))
                           true st)
                    | None =>
                        (Break,
                         pushTool call (Some ("Error: " +:+ typeErrorMessage "requiredFields.includes"))
                           true st)
                    end))).
  { intros e. destruct (Example.generateExample _); apply pushes_here. }
  destruct (tool_parameters toolDef) as [parameters|]; [|exact Hcall].
  destruct (truthy parameters); [|exact Hcall].
  destruct (ajv_validate parameters args) as [|errorsText|message];
    [exact Hcall| |apply pushes_here].
  destruct (errorsText =? "")%string; [exact Hcall|apply Hbad].
Qed.

(** A call of any tool but [getToolSchema] pushes one tool message. *)
Lemma executeCall_pushes activeTools call st :
  call_name call <> "getToolSchema" ->
  pushes call st (snd (executeCall activeTools call st)).
Proof.
  intros Hname. unfold executeCall.
  destruct (String.eqb_spec (call_name call) "getToolSchema") as [Heq|_]; [contradiction|].
  destruct (call_name call =? "listTools")%string; [apply runListTools_pushes|].
  destruct (call_name call =? "evalCode")%string;
    [apply runEvalCode_pushes|apply runRemote_pushes].
Qed.

(** A [getToolSchema] call pushes its answer and then, control falling
    through to the provider path, a second message. *)
Lemma executeCall_getToolSchema activeTools call st :
  call_name call = "getToolSchema" ->
  executeCall activeTools call st
  = runRemote activeTools call (runGetToolSchema activeTools call st).
Proof. intros Hname. unfold executeCall. rewrite Hname. reflexivity. Qed.

Lemma executeCall_gate activeTools call st :
  gate (snd (executeCall activeTools call st)) = gate st.
Proof.
  destruct (String.eqb_spec (call_name call) "getToolSchema") as [Heq|Hne].
  - rewrite executeCall_getToolSchema by exact Heq.
    rewrite (pushes_gate _ _ _ (runRemote_pushes _ _ _)).
    apply (pushes_gate _ _ _ (runGetToolSchema_pushes _ _ _)).
  - apply (pushes_gate _ _ _ (executeCall_pushes _ _ _ Hne)).
Qed.

Lemma executeCall_posted activeTools call st :
  posted (snd (executeCall activeTools call st)) = posted st.
Proof.
  destruct (String.eqb_spec (call_name call) "getToolSchema") as [Heq|Hne].
  - rewrite executeCall_getToolSchema by exact Heq.
    rewrite (pushes_posted _ _ _ (runRemote_pushes _ _ _)).
    apply (pushes_posted _ _ _ (runGetToolSchema_pushes _ _ _)).
  - apply (pushes_posted _ _ _ (executeCall_pushes _ _ _ Hne)).
Qed.

Lemma executeLoop_flow activeTools calls st :
  executeLoop activeTools calls st = snd (executeLoopFlow activeTools calls st).
Proof.
  revert st. induction calls as [|call calls IH]; intros st; simpl; [reflexivity|].
  destruct (executeCall activeTools call st) as [[|] st']; [apply IH|reflexivity].
Qed.

Lemma executeLoop_gate activeTools calls st :
  gate (executeLoop activeTools calls st) = gate st.
Proof.
  revert st. induction calls as [|call calls IH]; intros st; simpl; [reflexivity|].
  pose proof (executeCall_gate activeTools call st) as Hg.
  destruct (executeCall activeTools call st) as [[|] st']; simpl in Hg; [rewrite IH|]; exact Hg.
Qed.

Lemma executeTools_gate calls st : gate (executeTools calls st) = gate st.
Proof. unfold executeTools, postChatToWorker. apply executeLoop_gate. Qed.

(** The loop over [pre ++ rest] when the calls of [pre] all run through. *)
Lemma executeLoop_app activeTools pre rest st st' :
  executeLoopFlow activeTools pre st = (Next, st') ->
  executeLoop activeTools (pre ++ rest) st = executeLoop activeTools rest st'.
Proof.
  revert st. induction pre as [|call pre IH]; intros st; simpl.
  - intros [= ->]. reflexivity.
  - destruct (executeCall activeTools call st) as [[|] st1]; [apply IH|discriminate].
Qed.

Lemma toolMessageOf_mono calls calls' m :
  calls ⊆ calls' -> toolMessageOf calls m -> toolMessageOf calls' m.
Proof. intros Hsub (call & c & e & Hin & ->). exists call, c, e. split; [apply Hsub, Hin|reflexivity]. Qed.

Lemma pushes_answers call st st' :
  pushes call st st' ->
  exists ms, messages st' = messages st ++ ms /\ Forall (toolMessageOf [call]) ms.
Proof.
  intros (content & is_error & w & ->). unfold pushTool. rewrite messages_pushMessage.
  destruct (chatActive _); simpl.
  - eexists. split; [reflexivity|]. repeat constructor.
    exists call, content, is_error. split; [left|reflexivity].
  - exists []. split; [symmetry; apply app_nil_r|constructor].
Qed.

Lemma executeCall_answers activeTools call st :
  exists ms, messages (snd (executeCall activeTools call st)) = messages st ++ ms
             /\ Forall (toolMessageOf [call]) ms.
Proof.
  destruct (String.eqb_spec (call_name call) "getToolSchema") as [Heq|Hne].
  - rewrite executeCall_getToolSchema by exact Heq.
    destruct (pushes_answers _ _ _ (runGetToolSchema_pushes activeTools call st))
      as (ms1 & Hm1 & Hf1).
    destruct (pushes_answers _ _ _
                (runRemote_pushes activeTools call (runGetToolSchema activeTools call st)))
      as (ms2 & Hm2 & Hf2).
    exists (ms1 ++ ms2). rewrite Hm2, Hm1, <- app_assoc. split; [reflexivity|].
    apply Forall_app. split; assumption.
  - apply pushes_answers, executeCall_pushes, Hne.
Qed.

(** Every message the loop adds answers one of its calls. *)
Lemma executeLoop_answers activeTools calls st :
  exists ms, messages (executeLoop activeTools calls st) = messages st ++ ms
             /\ Forall (toolMessageOf calls) ms.
Proof.
  revert st. induction calls as [|call calls IH]; intros st; simpl.
  - exists []. split; [symmetry; apply app_nil_r|constructor].
  - destruct (executeCall_answers activeTools call st) as (ms1 & Hm1 & Hf1).
    destruct (executeCall activeTools call st) as [[|] st1]; simpl in Hm1.
    + destruct (IH st1) as (ms2 & Hm2 & Hf2).
      exists (ms1 ++ ms2). rewrite Hm2, Hm1, <- app_assoc. split; [reflexivity|].
      apply Forall_app. split.
      * eapply Forall_impl; [exact Hf1|]. intros m. apply toolMessageOf_mono. set_solver.
      * eapply Forall_impl; [exact Hf2|]. intros m. apply toolMessageOf_mono. set_solver.
    + exists ms1. split; [exact Hm1|].
      eapply Forall_impl; [exact Hf1|]. intros m. apply toolMessageOf_mono. set_solver.
Qed.

Lemma reportError_answers content call st :
  exists ms, messages (reportError content call st) = messages st ++ ms
             /\ Forall (toolMessageOf [call]) ms.
Proof.
  unfold reportError. destruct content as [text|].
  - unfold postChatToWorker. simpl. rewrite messages_pushMessage.
    destruct (chatActive st).
    + eexists. split; [reflexivity|]. repeat constructor.
      exists call, (Some text), false. split; [left|reflexivity].
    + exists []. split; [symmetry; apply app_nil_r|constructor].
  - exists []. split; [symmetry; apply app_nil_r|constructor].
Qed.

Lemma deduplicate_subseteq calls : deduplicate calls ⊆ calls.
Proof. apply sublist_subseteq, dedupLoop_sublist. Qed.

(** The turn as the sequencer settles it: what runs when the calls to
    process are [calls] and the error call is [errorCall]. *)
Lemma handleWorkerResponse_sequenced content toolCalls st :
  toolCalls <> [] ->
  let results := validationResults toolCalls (fullTools (mcpServers st)) in
  let calls := deduplicate (fst (sequenceCalls toolCalls results)) in
  let errorCall := snd (sequenceCalls toolCalls results) in
  let st1 := setMessages (messages st ++ [Assistant content (visibleCalls calls errorCall)]) st in
  handleWorkerResponse content toolCalls st
  = match needsApproval st1 calls with
    | [] => runExecution calls errorCall st1
    | _ => setPending (Some {| pending_calls := calls; pending_errorCall := errorCall |}) st1
    end.
Proof. destruct toolCalls; [congruence|reflexivity]. Qed.

Lemma append_assoc (a b c : string) : (a +:+ b) +:+ c = a +:+ (b +:+ c).
Proof.
  induction a as [|x a IH]; [reflexivity|].
  change (String x ((a +:+ b) +:+ c) = String x (a +:+ (b +:+ c))). rewrite IH. reflexivity.
Qed.

(** The corrective content of the turn handler is the corrective text. *)
Lemma correctiveContent_text call error schema example :
  (truthyU schema = true -> Example.generateExample schema = Some example) ->
  correctiveContent call (Invalid error schema)
  = Some (correctiveText (call_name call) error schema example).
Proof.
  intros Hex. unfold correctiveContent, correctiveText, schemaHelp.
  cbn [validationSchema validationError].
  destruct (truthyU schema); [|reflexivity].
  rewrite (Hex eq_refl). cbn [option_map]. rewrite append_assoc. reflexivity.
Qed.

(** A validated call of a provider's tool that the provider answers:
    the answer is the one message pushed, and the loop goes on. *)
Lemma executeCall_answered activeTools call st client args result w :
  providerTool call ->
  isValid (validateToolCall call activeTools) = true ->
  findServer (mcpServers st) (call_name call) = Some client ->
  JSON_parse (call_arguments call) = Ok args ->
  callTool client (call_name call) args (world st) = (Ok result, w) ->
  executeCall activeTools call st = (Next, pushTool call (Some result) false (setWorld w st)).
Proof.
  intros (Hg & Hl & He) Hvalid Hserver Hparse Hcall. unfold executeCall.
  destruct (String.eqb_spec (call_name call) "getToolSchema"); [contradiction|].
  destruct (String.eqb_spec (call_name call) "listTools"); [contradiction|].
  destruct (String.eqb_spec (call_name call) "evalCode"); [contradiction|].
  unfold validateToolCall in Hvalid. unfold runRemote. rewrite Hserver.
  destruct (String.eqb_spec (call_name call) "getToolSchema"); [contradiction|].
  destruct (findTool activeTools (call_name call)) as [toolDef|]; [|discriminate].
  rewrite Hparse in *.
  destruct (tool_parameters toolDef) as [parameters|]; [|rewrite Hcall; reflexivity].
  destruct (truthy parameters); [|rewrite Hcall; reflexivity].
  destruct (ajv_validate parameters args); try discriminate. rewrite Hcall. reflexivity.
Qed.

(** Validated calls of providers' tools that the providers answer all
    run, in order, each adding its answer. *)
Lemma executeLoopFlow_answered activeTools calls st replies w' :
  Forall providerTool calls ->
  Forall (fun call => isValid (validateToolCall call activeTools) = true) calls ->
  chatActive st = true ->
  providersAnswer (mcpServers st) calls (world st) = Some (replies, w') ->
  executeLoopFlow activeTools calls st
  = (Next, setWorld w' (setMessages (messages st ++ replies) st))
  /\ length replies = length calls.
Proof.
  intros Htools Hvalid. revert st replies w'.
  induction calls as [|call calls IH]; intros st replies w' Hactive Hanswer.
  - cbn in Hanswer. injection Hanswer as <- <-. cbn. rewrite app_nil_r.
    split; [|reflexivity]. destruct st; reflexivity.
  - apply Forall_cons in Htools as [Htool Htools].
    apply Forall_cons in Hvalid as [Hv Hvalid].
    cbn [providersAnswer] in Hanswer.
    destruct (findServer (mcpServers st) (call_name call)) as [client|] eqn:Hserver;
      [|discriminate].
    destruct (JSON_parse (call_arguments call)) as [args|message] eqn:Hparse; [|discriminate].
    destruct (callTool client (call_name call) args (world st)) as [[result|message] w] eqn:Hcall;
      [|discriminate].
    destruct (providersAnswer (mcpServers st) calls w) as [[more w2]|] eqn:Hmore; [|discriminate].
    injection Hanswer as <- <-.
    cbn [executeLoopFlow].
    rewrite (executeCall_answered activeTools call st client args result w
               Htool Hv Hserver Hparse Hcall).
    set (st1 := pushTool call (Some result) false (setWorld w st)).
    assert (Hst1 : st1 = setMessages
                           (messages st ++ [Tool (call_id call) (call_name call) (Some result) false])
                           (setWorld w st)).
    { unfold st1, pushTool, pushMessage.
      replace (chatActive (setWorld w st)) with (chatActive st) by reflexivity.
      rewrite Hactive. reflexivity. }
    destruct (IH Htools Hvalid st1 more w2) as [Hloop Hlen].
    + rewrite Hst1. exact Hactive.
    + rewrite Hst1. exact Hmore.
    + rewrite Hloop. split; [|cbn [length]; rewrite Hlen; reflexivity].
      rewrite Hst1. destruct st. cbn. rewrite <- app_assoc. reflexivity.
Qed.

Lemma Forall_deduplicate (P : ToolCall -> Prop) calls :
  Forall P calls -> Forall P (deduplicate calls).
Proof.
  rewrite !Forall_forall. intros Hall c Hc. apply Hall.
  apply (deduplicate_subseteq calls c), Hc.
Qed.

(** The batch of a turn whose calls the providers answer: the messages
    and the world the execution leaves. *)
Lemma executeTools_answered calls st replies w' :
  Forall providerTool calls ->
  Forall (fun call => isValid (validateToolCall call (fullTools (mcpServers st))) = true) calls ->
  chatActive st = true ->
  providersAnswer (mcpServers st) calls (world st) = Some (replies, w') ->
  messages (match calls with [] => st | _ => executeTools calls st end) = messages st ++ replies
  /\ world (match calls with [] => st | _ => executeTools calls st end) = w'
  /\ chatActive (match calls with [] => st | _ => executeTools calls st end) = true
  /\ length replies = length calls.
Proof.
  intros Htools Hvalid Hactive Hanswer.
  destruct (executeLoopFlow_answered _ calls st replies w' Htools Hvalid Hactive Hanswer)
    as [Hloop Hlen].
  assert (Hexec : executeTools calls st
                  = postChatToWorker (setWorld w' (setMessages (messages st ++ replies) st))).
  { unfold executeTools. rewrite executeLoop_flow, Hloop. reflexivity. }
  destruct calls as [|c cs].
  - cbn in Hanswer. injection Hanswer as <- <-. rewrite app_nil_r. repeat split; assumption.
  - rewrite Hexec. repeat split; [exact Hactive|exact Hlen].
Qed.

(** C2 (as amended).  When the calls of a turn are
    [before ++ bad :: after], every call of [before] validating and
    [bad] not: the sequencer selects exactly [before] for execution and
    makes [bad] the one error call; the outcome does not depend on
    [after], and every message added after the assistant message answers
    a call of [before] or [bad].  When a selected call needs approval
    the turn suspends with the deduplicated calls of [before] and the
    error call pending.  Otherwise the deduplicated calls run in order
    until one leaves the loop, and the error call is reported after
    them: with a chat active, the messages added after the assistant
    message are answers to calls of [before] followed by exactly one
    corrective message for [bad], which carries the corrective text;
    and when the calls are calls of providers' tools that the providers
    answer, each of them is executed, the messages added are the
    assistant message, one answer for each of them in order, and one
    corrective message for [bad] with the corrective text, and the world
    is the one the providers left.  When every call validates, all of
    them are selected, there is no error call, and under the same
    conditions each distinct one is executed. *)
Theorem sequencer_first_invalid (content : option string) (st : State) :
  let activeTools := fullTools (mcpServers st) in
  (forall before bad after error schema,
      Forall (fun call => isValid (validateToolCall call activeTools) = true) before ->
      validateToolCall bad activeTools = Invalid error schema ->
      let errorCall := (bad, Invalid error schema) in
      let st1 :=
        setMessages (messages st ++ [Assistant content (deduplicate before ++ [bad])]) st in
      let st' := handleWorkerResponse content (before ++ bad :: after) st in
      sequenceCalls (before ++ bad :: after)
        (validationResults (before ++ bad :: after) activeTools) = (before, Some errorCall)
      /\ st' = handleWorkerResponse content (before ++ [bad]) st
      /\ (exists ms,
            messages st' = messages st ++ Assistant content (deduplicate before ++ [bad]) :: ms
            /\ Forall (toolMessageOf (before ++ [bad])) ms)
      /\ (needsApproval st (deduplicate before) <> [] ->
          st' = setPending (Some {| pending_calls := deduplicate before;
                                    pending_errorCall := Some errorCall |}) st1)
      /\ (needsApproval st (deduplicate before) = [] ->
          st' = reportError (correctiveContent bad (Invalid error schema)) bad
                  match deduplicate before with
                  | [] => st1
                  | _ => executeTools (deduplicate before) st1
                  end)
      /\ (forall example,
            needsApproval st (deduplicate before) = [] ->
            chatActive st = true ->
            (truthyU schema = true -> Example.generateExample schema = Some example) ->
            exists ms,
              messages st'
              = messages st ++ Assistant content (deduplicate before ++ [bad]) :: ms
                ++ [Tool (call_id bad) (call_name bad)
                      (Some (correctiveText (call_name bad) error schema example)) false]
              /\ Forall (toolMessageOf before) ms)
      /\ (forall replies w' example,
            needsApproval st (deduplicate before) = [] ->
            chatActive st = true ->
            Forall providerTool before ->
            providersAnswer (mcpServers st) (deduplicate before) (world st) = Some (replies, w') ->
            (truthyU schema = true -> Example.generateExample schema = Some example) ->
            messages st'
            = messages st ++ Assistant content (deduplicate before ++ [bad]) :: replies
              ++ [Tool (call_id bad) (call_name bad)
                    (Some (correctiveText (call_name bad) error schema example)) false]
            /\ length replies = length (deduplicate before)
            /\ world st' = w'
            /\ pendingToolCalls st' = pendingToolCalls st))
  /\ (forall calls,
        calls <> [] ->
        Forall (fun call => isValid (validateToolCall call activeTools) = true) calls ->
        let st1 := setMessages (messages st ++ [Assistant content (deduplicate calls)]) st in
        let st' := handleWorkerResponse content calls st in
        sequenceCalls calls (validationResults calls activeTools) = (calls, None)
        /\ (needsApproval st (deduplicate calls) <> [] ->
            st' = setPending (Some {| pending_calls := deduplicate calls;
                                      pending_errorCall := None |}) st1)
        /\ (needsApproval st (deduplicate calls) = [] ->
            st' = executeTools (deduplicate calls) st1)
        /\ (forall replies w',
              needsApproval st (deduplicate calls) = [] ->
              chatActive st = true ->
              Forall providerTool calls ->
              providersAnswer (mcpServers st) (deduplicate calls) (world st) = Some (replies, w') ->
              messages st' = messages st ++ Assistant content (deduplicate calls) :: replies
              /\ length replies = length (deduplicate calls)
              /\ world st' = w')).
Proof.
  intros activeTools. split.
  - intros before bad after error schema Hbefore Hinvalid errorCall st1 st'.
    assert (Hbad : isValid (validateToolCall bad activeTools) = false)
      by (rewrite Hinvalid; reflexivity).
    pose proof (sequenceCalls_split before bad after activeTools Hbefore Hbad) as Hseq.
    rewrite Hinvalid in Hseq.
    assert (Hrun : forall rest,
      handleWorkerResponse content (before ++ bad :: rest) st
      = match needsApproval st1 (deduplicate before) with
        | [] =>
            reportError (correctiveContent bad (snd errorCall)) bad
              match deduplicate before with
              | [] => st1
              | _ => executeTools (deduplicate before) st1
              end
        | _ =>
            setPending (Some {| pending_calls := deduplicate before;
                                pending_errorCall := Some errorCall |}) st1
        end).
    { intros rest. rewrite handleWorkerResponse_sequenced by (destruct before; discriminate).
      cbv zeta. fold activeTools.
      rewrite (sequenceCalls_split before bad rest activeTools Hbefore Hbad), Hinvalid.
      reflexivity. }
    assert (Hsame : needsApproval st1 (deduplicate before) = needsApproval st (deduplicate before))
      by reflexivity.
    split; [exact Hseq|]. split; [unfold st'; rewrite !Hrun; reflexivity|].
    assert (Hexec : exists ms,
              messages (match deduplicate before with
                        | [] => st1
                        | _ => executeTools (deduplicate before) st1
                        end) = messages st1 ++ ms
              /\ gate (match deduplicate before with
                       | [] => st1
                       | _ => executeTools (deduplicate before) st1
                       end) = gate st
              /\ Forall (toolMessageOf before) ms).
    { destruct (deduplicate before) as [|c cs] eqn:Hd.
      - exists []. split; [symmetry; apply app_nil_r|]. split; [reflexivity|constructor].
      - destruct (executeLoop_answers (fullTools (mcpServers st1)) (deduplicate before) st1)
          as (ms & Hm & Hf).
        exists ms. rewrite <- Hd. split; [exact Hm|].
        split; [apply (executeTools_gate (deduplicate before) st1)|].
        eapply Forall_impl; [exact Hf|]. intros m. apply toolMessageOf_mono.
        apply deduplicate_subseteq. }
    destruct Hexec as (ms1 & Hm1 & Hg1 & Hf1).
    split; [|split; [|split; [|split]]].
    + unfold st'. rewrite Hrun. destruct (needsApproval st1 (deduplicate before)).
      * destruct (reportError_answers (correctiveContent bad (snd errorCall)) bad
                    (match deduplicate before with
                     | [] => st1
                     | _ => executeTools (deduplicate before) st1
                     end)) as (ms2 & Hm2 & Hf2).
        exists (ms1 ++ ms2). rewrite Hm2, Hm1. simpl. rewrite <- !app_assoc.
        split; [reflexivity|]. apply Forall_app. split.
        -- eapply Forall_impl; [exact Hf1|]. intros m. apply toolMessageOf_mono. set_solver.
        -- eapply Forall_impl; [exact Hf2|]. intros m. apply toolMessageOf_mono. set_solver.
      * exists []. split; [reflexivity|constructor].
    + intros Hasks. unfold st'. rewrite Hrun, Hsame.
      destruct (needsApproval st (deduplicate before)); [contradiction|reflexivity].
    + intros Hopen. unfold st'. rewrite Hrun, Hsame, Hopen. reflexivity.
    + intros example Hopen Hactive Hexample.
      unfold st'. rewrite Hrun, Hsame, Hopen. cbn [snd errorCall].
      rewrite (correctiveContent_text bad error schema example Hexample).
      exists ms1. split; [|exact Hf1].
      unfold reportError, postChatToWorker. cbn [messages setPosted].
      rewrite messages_pushMessage, (chatActive_gate st _ Hg1), Hactive, Hm1.
      simpl. rewrite <- !app_assoc. reflexivity.
    + intros replies w' example Hopen Hactive Htools Hanswer Hexample.
      unfold st'. rewrite Hrun, Hsame, Hopen. cbn [snd errorCall].
      rewrite (correctiveContent_text bad error schema example Hexample).
      destruct (executeTools_answered (deduplicate before) st1 replies w') as (Hm & Hw & Ha & Hlen).
      * apply Forall_deduplicate, Htools.
      * apply Forall_deduplicate, Hbefore.
      * exact Hactive.
      * exact Hanswer.
      * unfold reportError, postChatToWorker.
        cbn [messages world pendingToolCalls setPosted].
        rewrite messages_pushMessage, Ha, Hm, world_pushMessage, Hw.
        rewrite (gate_pending _ _ (gate_pushMessage _ _)).
        split; [cbn; rewrite <- !app_assoc; reflexivity|]. split; [exact Hlen|].
        split; [reflexivity|].
        destruct (deduplicate before); [reflexivity|].
        rewrite (gate_pending _ _ (executeTools_gate _ _)). reflexivity.
  - intros calls Hne Hall st1 st'.
    pose proof (sequenceCalls_all_valid calls activeTools Hall) as Hseq.
    assert (Hrun : st' = match needsApproval st (deduplicate calls) with
                         | [] => executeTools (deduplicate calls) st1
                         | _ => setPending (Some {| pending_calls := deduplicate calls;
                                                    pending_errorCall := None |}) st1
                         end).
    { unfold st'. rewrite handleWorkerResponse_sequenced by exact Hne.
      cbv zeta. fold activeTools. rewrite Hseq. simpl. unfold visibleCalls. rewrite app_nil_r.
      fold st1.
      replace (needsApproval st1 (deduplicate calls)) with (needsApproval st (deduplicate calls))
        by reflexivity.
      destruct (needsApproval st (deduplicate calls)) eqn:Hn; [|reflexivity].
      unfold runExecution. destruct (deduplicate calls) eqn:Hd; [|reflexivity].
      exfalso. destruct calls as [|c cs]; [congruence|].
      unfold deduplicate in Hd. rewrite dedupLoop_cons_fresh in Hd by set_solver. discriminate. }
    split; [exact Hseq|]. split; [|split].
    + intros Hasks. rewrite Hrun.
      destruct (needsApproval st (deduplicate calls)); [contradiction|reflexivity].
    + intros Hopen. rewrite Hrun, Hopen. reflexivity.
    + intros replies w' Hopen Hactive Htools Hanswer. rewrite Hrun, Hopen.
      destruct (executeTools_answered (deduplicate calls) st1 replies w') as (Hm & Hw & _ & Hlen).
      * apply Forall_deduplicate, Htools.
      * apply Forall_deduplicate, Hall.
      * exact Hactive.
      * exact Hanswer.
      * assert (Hsome : deduplicate calls <> []).
        { destruct calls as [|c cs]; [congruence|].
          unfold deduplicate. rewrite dedupLoop_cons_fresh by set_solver. discriminate. }
        destruct (deduplicate calls); [contradiction|].
        rewrite Hm, Hw. cbn. rewrite <- !app_assoc.
        split; [reflexivity|]. split; [exact Hlen|reflexivity].
Qed.

Lemma validateToolCall_same_text call call' activeTools :
  call_name call = call_name call' -> call_arguments call = call_arguments call' ->
  validateToolCall call activeTools = validateToolCall call' activeTools.
Proof. unfold validateToolCall. intros -> ->. reflexivity. Qed.

Lemma deduplicate_twice call call' :
  call_name call = call_name call' -> call_arguments call = call_arguments call' ->
  deduplicate [call; call'] = [call].
Proof.
  intros Hn Ha. unfold deduplicate.
  rewrite dedupLoop_cons_fresh by set_solver.
  rewrite dedupLoop_cons_seen; [reflexivity|].
  unfold dedupKey. rewrite Hn, Ha. set_solver.
Qed.

(** C4.  The deduplicated calls are a subsequence of the calls of the
    turn; no two of them agree on both tool name and argument text; the
    first call with a given key (the name, two colons, the argument
    text) is among them, and every call has a kept call with its key;
    where tool names hold no colon, equal keys mean equal name and
    argument text.  Two calls of [x] with the same argument text
    collapse to the first, and a turn made of them adds exactly one tool
    message, for [x]. *)
Theorem deduplicate_collapses (calls : list ToolCall) :
  deduplicate calls `sublist_of` calls
  /\ NoDup (map (fun call => (call_name call, call_arguments call)) (deduplicate calls))
  /\ (forall l1 call l2,
        calls = l1 ++ call :: l2 ->
        (forall call', call' ∈ l1 -> dedupKey call' <> dedupKey call) ->
        call ∈ deduplicate calls)
  /\ (forall call, call ∈ calls ->
        exists call', call' ∈ deduplicate calls /\ dedupKey call' = dedupKey call)
  /\ (forall call call',
        (forall c, c ∈ list_ascii_of_string (call_name call) -> c <> ":"%char) ->
        (forall c, c ∈ list_ascii_of_string (call_name call') -> c <> ":"%char) ->
        dedupKey call = dedupKey call' ->
        call_name call = call_name call' /\ call_arguments call = call_arguments call')
  /\ (forall id1 id2 arguments,
        deduplicate [ {| call_id := id1; call_name := "x"; call_arguments := arguments |};
                      {| call_id := id2; call_name := "x"; call_arguments := arguments |} ]
        = [ {| call_id := id1; call_name := "x"; call_arguments := arguments |} ])
  /\ (forall content st call call',
        call_name call = call_name call' -> call_arguments call = call_arguments call' ->
        call_name call <> "getToolSchema" ->
        isValid (validateToolCall call (fullTools (mcpServers st))) = true ->
        needsApproval st [call] = [] ->
        chatActive st = true ->
        exists text is_error,
          messages (handleWorkerResponse content [call; call'] st)
          = messages st ++ [Assistant content [call];
                            Tool (call_id call) (call_name call) text is_error]).
Proof.
  split; [apply dedupLoop_sublist|].
  split.
  { apply (NoDup_fmap_1 (fun p : string * string => fst p +:+ "::" +:+ snd p)).
    rewrite <- list_fmap_compose. apply dedupLoop_NoDup. }
  split.
  { intros l1 call l2 -> Hfirst. apply dedupLoop_first; [set_solver|exact Hfirst]. }
  split.
  { intros call Hin. destruct (dedupLoop_cover ∅ calls call Hin) as [Hempty|Hkept];
      [set_solver|exact Hkept]. }
  split.
  { intros call call' Hc Hc'. apply key_split_unique; assumption. }
  split.
  { intros id1 id2 arguments. apply deduplicate_twice; reflexivity. }
  intros content st call call' Hn Ha Hname Hvalid Hgate Hactive.
  rewrite handleWorkerResponse_sequenced by discriminate. cbv zeta.
  rewrite sequenceCalls_all_valid.
  2:{ constructor; [exact Hvalid|]. constructor; [|constructor].
      rewrite <- (validateToolCall_same_text call call') by assumption. exact Hvalid. }
  cbn [fst snd]. rewrite (deduplicate_twice call call' Hn Ha).
  unfold visibleCalls. cbn [app].
  replace (needsApproval _ [call]) with (needsApproval st [call]) by reflexivity.
  rewrite Hgate. unfold runExecution, executeTools, postChatToWorker. cbn [executeLoop].
  pose proof (executeCall_pushes (fullTools (mcpServers st)) call
                (setMessages (messages st ++ [Assistant content [call]]) st) Hname) as Hpush.
  apply pushes_messages in Hpush; [|exact Hactive].
  destruct Hpush as (text & is_error & Hm). exists text, is_error.
  cbn [mcpServers setMessages] in *.
  destruct (executeCall _ call _) as [[|] st']; cbn [snd] in Hm; cbn;
    rewrite Hm; cbn; rewrite <- app_assoc; reflexivity.
Qed.

(** *** The permission gate *)

Lemma needsApproval_open st calls :
  allowAll st = true -> needsApproval st calls = [].
Proof.
  intros Hall. induction calls as [|call calls IH]; [reflexivity|].
  unfold needsApproval in *. cbn [List.filter]. rewrite IH, Hall.
  destruct (existsb _ _); reflexivity.
Qed.

Lemma needsApproval_asks st calls call :
  call ∈ calls ->
  call_name call <> "getToolSchema" -> call_name call <> "listTools" ->
  allowAll st = false -> call_name call ∉ sessionAllowed st ->
  call ∈ needsApproval st calls.
Proof.
  intros Hin Hg Hl Hall Hsession. unfold needsApproval.
  apply list_elem_of_In, filter_In. split; [apply list_elem_of_In, Hin|].
  simpl. rewrite Hall. rewrite decide_False by exact Hsession.
  destruct (String.eqb_spec (call_name call) "getToolSchema"); [contradiction|].
  destruct (String.eqb_spec (call_name call) "listTools"); [contradiction|].
  reflexivity.
Qed.

(** C7.  When one of the calls to process names a tool that is neither
    pre-granted, nor allowed by the always-allow flag, nor granted for
    the session, the turn handler only records the assistant message and
    suspends: the pending approval holds all the deduplicated calls and
    the error call, it takes the one slot there is (replacing whatever
    was pending), no tool message is added, the model is not re-entered
    and the world is untouched. *)
Theorem handleWorkerResponse_suspends (content : option string) (toolCalls : list ToolCall)
    (st : State) (call : ToolCall) :
  let results := validationResults toolCalls (fullTools (mcpServers st)) in
  let calls := deduplicate (fst (sequenceCalls toolCalls results)) in
  let errorCall := snd (sequenceCalls toolCalls results) in
  call ∈ calls ->
  call_name call <> "getToolSchema" -> call_name call <> "listTools" ->
  allowAll st = false -> call_name call ∉ sessionAllowed st ->
  let st' := handleWorkerResponse content toolCalls st in
  st' = setPending (Some {| pending_calls := calls; pending_errorCall := errorCall |})
          (setMessages (messages st ++ [Assistant content (visibleCalls calls errorCall)]) st)
  /\ pendingToolCalls st' = Some {| pending_calls := calls; pending_errorCall := errorCall |}
  /\ messages st' = messages st ++ [Assistant content (visibleCalls calls errorCall)]
  /\ posted st' = posted st
  /\ world st' = world st.
Proof.
  intros results calls errorCall Hin Hg Hl Hall Hsession st'.
  assert (Hst' : st' = setPending
                         (Some {| pending_calls := calls; pending_errorCall := errorCall |})
                         (setMessages
                            (messages st ++ [Assistant content (visibleCalls calls errorCall)]) st)).
  { subst st'. rewrite handleWorkerResponse_sequenced.
    - cbv zeta. fold results. fold calls. fold errorCall.
      pose proof (needsApproval_asks
                    (setMessages
                       (messages st ++ [Assistant content (visibleCalls calls errorCall)]) st)
                    calls call Hin Hg Hl Hall Hsession) as Hask.
      destruct (needsApproval _ calls); [inversion Hask|reflexivity].
    - intros ->. subst calls results. simpl in Hin. inversion Hin. }
  rewrite Hst'. repeat split; reflexivity.
Qed.

Lemma gate_reportError content call st : gate (reportError content call st) = gate st.
Proof.
  unfold reportError. destruct content; [|reflexivity].
  unfold postChatToWorker. apply gate_pushMessage.
Qed.

Lemma gate_runExecution calls errorCall st : gate (runExecution calls errorCall st) = gate st.
Proof.
  unfold runExecution.
  assert (Hexec : gate (match calls with [] => st | _ => executeTools calls st end) = gate st).
  { destruct calls; [reflexivity|apply executeTools_gate]. }
  destruct errorCall as [[call result]|]; [rewrite gate_reportError|]; exact Hexec.
Qed.

(** **** What execution leaves of [localStorage] *)

Lemma world_pushTool call content is_error st :
  world (pushTool call content is_error st) = world st.
Proof. apply world_pushMessage. Qed.

Lemma world_runGetToolSchema activeTools call st :
  world (runGetToolSchema activeTools call st) = world st.
Proof.
  unfold runGetToolSchema.
  destruct (JSON_parse (call_arguments call)) as [args|message]; [|apply world_pushTool].
  destruct args; try apply world_pushTool;
    match goal with |- world (match ?x with _ => _ end) = _ => destruct x end;
    apply world_pushTool.
Qed.

Lemma world_runListTools activeTools call st :
  world (runListTools activeTools call st) = world st.
Proof. unfold runListTools. destruct (listToolsResults _ _); apply world_pushTool. Qed.

(** The provider path leaves every entry as it is. *)
Lemma runRemote_storage activeTools call st key :
  localStorage_getItem key (world (snd (runRemote activeTools call st)))
  = localStorage_getItem key (world st).
Proof.
  unfold runRemote.
  destruct (findServer _ _) as [client|]; [|cbn [snd]; rewrite world_pushTool; reflexivity].
  destruct (findTool _ _) as [toolDef|]; [|cbn [snd]; rewrite world_pushTool; reflexivity].
  destruct (JSON_parse _) as [args|message]; [|cbn [snd]; rewrite world_pushTool; reflexivity].
  assert (Hcall : localStorage_getItem key
            (world (snd (match callTool client (call_name call) args (world st) with
                         | (Ok result, w) => (Next, pushTool call (Some result) false (setWorld w st))
                         | (Err message, w) =>
                             (Break, pushTool call (Some ("Error: " +:+ message)) true (setWorld w st))
                         end)))
          = localStorage_getItem key (world st)).
  { pose proof (callTool_storage client (call_name call) args (world st) key) as Hlaw.
    destruct (callTool _ _ _ _) as [[result|message] w]; cbn [snd] in *;
      rewrite world_pushTool; exact Hlaw. }
  destruct (tool_parameters toolDef) as [parameters|]; [|exact Hcall].
  destruct (truthy parameters); [|exact Hcall].
  destruct (ajv_validate parameters args) as [|errorsText|message];
    [exact Hcall| |cbn [snd]; rewrite world_pushTool; reflexivity].
  destruct (errorsText =? "")%string; [exact Hcall|].
  destruct (Example.generateExample _); cbn [snd]; rewrite world_pushTool; reflexivity.
Qed.

(** What the [evalCode] block leaves of the world: the world the
    evaluator left, or the world as it was. *)
Lemma world_runEvalCode call st :
  world (snd (runEvalCode call st)) = world st
  \/ exists code, world (snd (runEvalCode call st)) = snd (evalResult code st).
Proof.
  unfold runEvalCode.
  destruct (JSON_parse (call_arguments call)) as [args|message];
    [|left; cbn [snd]; apply world_pushTool].
  destruct args; try (left; cbn [snd]; apply world_pushTool);
    right;
    match goal with |- context [evalResult ?c st] =>
      exists c; destruct (evalResult c st) as [[[text|[[str|]|m]]|m] w] end;
    cbn [snd]; try (destruct (String.prefix _ _)); cbn [snd]; rewrite world_pushTool; reflexivity.
Qed.

(** The sandbox leaves every entry as it is. *)
Lemma evalResult_storage code st key :
  useSafeEval st = true ->
  localStorage_getItem key (snd (evalResult code st)) = localStorage_getItem key (world st).
Proof.
  intros Hsafe. unfold evalResult. rewrite Hsafe.
  pose proof (evalSafe_storage code (world st) key) as Hlaw.
  destruct (evalSafe code (world st)) as [[result|error|message|] w]; exact Hlaw.
Qed.

(** Evaluation keeps the grant when it runs in the sandbox, or when the
    code run in the page does. *)
Lemma evalResult_grant code st :
  directKeepsGrant \/ useSafeEval st = true ->
  mcp_allow_all st = Some "true" ->
  localStorage_getItem "mcp_allow_all" (snd (evalResult code st)) = Some "true".
Proof.
  intros Hkeeps Hflag. destruct (useSafeEval st) eqn:Hsafe.
  - rewrite evalResult_storage by exact Hsafe. exact Hflag.
  - destruct Hkeeps as [Hdirect|Hno]; [|discriminate].
    unfold evalResult. rewrite Hsafe.
    pose proof (Hdirect code (world st) Hflag) as Hlaw.
    destruct (evalDirect code (world st)) as [[result|message|message] w]; exact Hlaw.
Qed.

(** A call that evaluates nothing in the page leaves every entry as it
    is. *)
Lemma executeCall_storage activeTools call st key :
  useSafeEval st = true \/ call_name call <> "evalCode" ->
  localStorage_getItem key (world (snd (executeCall activeTools call st)))
  = localStorage_getItem key (world st).
Proof.
  intros Hquiet. unfold executeCall.
  destruct (String.eqb_spec (call_name call) "listTools") as [Hl|_].
  { cbn [snd]. rewrite world_runListTools.
    destruct (call_name call =? "getToolSchema")%string;
      [rewrite world_runGetToolSchema|]; reflexivity. }
  assert (Hfirst : world (if (call_name call =? "getToolSchema")%string
                          then runGetToolSchema activeTools call st else st) = world st).
  { destruct (call_name call =? "getToolSchema")%string;
      [apply world_runGetToolSchema|reflexivity]. }
  assert (Hsafe : useSafeEval (if (call_name call =? "getToolSchema")%string
                               then runGetToolSchema activeTools call st else st)
                  = useSafeEval st).
  { destruct (call_name call =? "getToolSchema")%string; [|reflexivity].
    pose proof (pushes_gate _ _ _ (runGetToolSchema_pushes activeTools call st)) as Hg.
    unfold gate in Hg. injection Hg as _ _ _ Hs _ _. exact Hs. }
  destruct (String.eqb_spec (call_name call) "evalCode") as [He|_].
  - destruct Hquiet as [Hon|Hne]; [|contradiction].
    destruct (world_runEvalCode call
                (if (call_name call =? "getToolSchema")%string
                 then runGetToolSchema activeTools call st else st)) as [Hw|[code Hw]];
      rewrite Hw.
    + rewrite Hfirst. reflexivity.
    + rewrite evalResult_storage by (rewrite Hsafe; exact Hon). rewrite Hfirst. reflexivity.
  - rewrite runRemote_storage, Hfirst. reflexivity.
Qed.

Lemma executeCall_grant activeTools call st :
  directKeepsGrant \/ useSafeEval st = true ->
  mcp_allow_all st = Some "true" ->
  mcp_allow_all (snd (executeCall activeTools call st)) = Some "true".
Proof.
  intros Hkeeps Hflag. unfold mcp_allow_all in *.
  destruct (String.eqb_spec (call_name call) "evalCode") as [He|Hne].
  - unfold executeCall. rewrite He. cbn.
    destruct (world_runEvalCode call st) as [Hw|[code Hw]]; rewrite Hw.
    + exact Hflag.
    + apply evalResult_grant; assumption.
  - rewrite executeCall_storage by (right; exact Hne). exact Hflag.
Qed.

Lemma executeCall_useSafeEval activeTools call st :
  useSafeEval (snd (executeCall activeTools call st)) = useSafeEval st.
Proof.
  pose proof (executeCall_gate activeTools call st) as Hg.
  unfold gate in Hg. injection Hg as _ _ _ Hs _ _. exact Hs.
Qed.

Lemma executeLoop_storage activeTools calls st key :
  useSafeEval st = true \/ Forall (fun call => call_name call <> "evalCode") calls ->
  localStorage_getItem key (world (executeLoop activeTools calls st))
  = localStorage_getItem key (world st).
Proof.
  revert st. induction calls as [|call calls IH]; intros st Hquiet; simpl; [reflexivity|].
  assert (Hone : useSafeEval st = true \/ call_name call <> "evalCode").
  { destruct Hquiet as [Hon|Hall]; [left; exact Hon|right]. inversion Hall; assumption. }
  pose proof (executeCall_storage activeTools call st key Hone) as Hstep.
  pose proof (executeCall_useSafeEval activeTools call st) as Hsafe.
  destruct (executeCall activeTools call st) as [[|] st']; cbn [snd] in *; [|exact Hstep].
  rewrite IH; [exact Hstep|].
  destruct Hquiet as [Hon|Hall]; [left; rewrite Hsafe; exact Hon|right].
  inversion Hall; assumption.
Qed.

Lemma executeLoop_grant activeTools calls st :
  directKeepsGrant \/ useSafeEval st = true ->
  mcp_allow_all st = Some "true" ->
  mcp_allow_all (executeLoop activeTools calls st) = Some "true".
Proof.
  revert st. induction calls as [|call calls IH]; intros st Hkeeps Hflag; simpl; [exact Hflag|].
  pose proof (executeCall_grant activeTools call st Hkeeps Hflag) as Hstep.
  pose proof (executeCall_useSafeEval activeTools call st) as Hsafe.
  destruct (executeCall activeTools call st) as [[|] st']; cbn [snd] in *; [|exact Hstep].
  apply IH; [|exact Hstep].
  destruct Hkeeps as [Hd|Hon]; [left; exact Hd|right; rewrite Hsafe; exact Hon].
Qed.

Lemma world_reportError content call st : world (reportError content call st) = world st.
Proof.
  unfold reportError. destruct content; [|reflexivity].
  unfold postChatToWorker. cbn [world setPosted]. apply world_pushMessage.
Qed.

Lemma runExecution_grant calls errorCall st :
  directKeepsGrant \/ useSafeEval st = true ->
  mcp_allow_all st = Some "true" ->
  mcp_allow_all (runExecution calls errorCall st) = Some "true".
Proof.
  intros Hkeeps Hflag. unfold runExecution.
  assert (Hexec : mcp_allow_all (match calls with [] => st | _ => executeTools calls st end)
                  = Some "true").
  { destruct calls; [exact Hflag|]. apply (executeLoop_grant _ _ st Hkeeps Hflag). }
  destruct errorCall as [[call result]|]; [|exact Hexec].
  unfold mcp_allow_all in *. rewrite world_reportError. exact Hexec.
Qed.

Lemma granted_allowAll st : granted st -> allowAll st = true.
Proof. unfold allowAll. intros [-> _]. reflexivity. Qed.

(** The grant together with what keeps it: the code evaluated in the
    page does, or the sandbox is on. *)
Lemma granted_step st ev :
  granted st ->
  directKeepsGrant \/ (useSafeEval st = true /\ ev <> SafeEvalToggle) ->
  granted (step st ev) /\ (directKeepsGrant \/ useSafeEval (step st ev) = true).
Proof.
  intros Hg Hkeeps.
  assert (Hhere : directKeepsGrant \/ useSafeEval st = true) by tauto.
  destruct ev as [content toolCalls|mode| |content opened| |servers| |servers chat]; cbn [step].
  - destruct toolCalls as [|c cs]; [split; [exact Hg|exact Hhere]|].
    rewrite handleWorkerResponse_sequenced by discriminate. cbv zeta.
    rewrite needsApproval_open by (apply granted_allowAll; exact Hg).
    match goal with |- granted (runExecution ?calls ?errorCall ?st1) /\ _ =>
      pose proof (gate_runExecution calls errorCall st1) as Hgate;
      pose proof (runExecution_grant calls errorCall st1 Hhere (proj1 Hg)) as Hflag
    end.
    split; [split; [exact Hflag|rewrite (gate_pending _ _ Hgate); apply Hg]|].
    rewrite (gate_useSafeEval _ _ Hgate). exact Hhere.
  - unfold approveToolCalls. destruct Hg as [Ha Hp]. rewrite Hp.
    split; [split; assumption|exact Hhere].
  - unfold cancelToolCalls. destruct Hg as [Ha Hp].
    split; [split|].
    + unfold mcp_allow_all in *. rewrite world_pushMessage. exact Ha.
    + rewrite (gate_pending _ _ (gate_pushMessage _ _)). reflexivity.
    + rewrite (gate_useSafeEval _ _ (gate_pushMessage _ _)). exact Hhere.
  - unfold sendMessage. destruct (Extractor.trim _); [split; [exact Hg|exact Hhere]|].
    unfold postChatToWorker. destruct Hg as [Ha Hp].
    match goal with |- context [pushMessage ?m ?st1] =>
      pose proof (gate_pushMessage m st1) as Hgate;
      pose proof (world_pushMessage m st1) as Hworld
    end.
    split; [split|].
    + unfold mcp_allow_all in *. cbn [world setPosted setGenerating]. rewrite Hworld.
      destruct (chatActive st); exact Ha.
    + cbn [pendingToolCalls setPosted setGenerating]. rewrite (gate_pending _ _ Hgate).
      destruct (chatActive st); exact Hp.
    + cbn [useSafeEval setPosted setGenerating]. rewrite (gate_useSafeEval _ _ Hgate).
      destruct (chatActive st); exact Hhere.
  - destruct Hg as [Ha Hp]. split; [split; [exact Ha|reflexivity]|exact Hhere].
  - split; [exact Hg|exact Hhere].
  - split; [exact Hg|]. destruct Hkeeps as [Hd|[_ Hne]]; [left; exact Hd|contradiction].
  - destruct Hg as [Ha Hp]. split; [split; [exact Ha|reflexivity]|exact Hhere].
Qed.

Lemma granted_run st events :
  granted st ->
  directKeepsGrant \/ (useSafeEval st = true /\ Forall (fun ev => ev <> SafeEvalToggle) events) ->
  granted (run st events).
Proof.
  revert st. induction events as [|ev events IH]; intros st Hg Hkeeps; [exact Hg|].
  assert (Hstep : directKeepsGrant \/ (useSafeEval st = true /\ ev <> SafeEvalToggle)).
  { destruct Hkeeps as [Hd|[Hon Hall]]; [left; exact Hd|right]. inversion Hall; tauto. }
  destruct (granted_step st ev Hg Hstep) as [Hg' Hkeeps'].
  apply (IH (step st ev) Hg').
  destruct Hkeeps as [Hd|[Hon Hall]]; [left; exact Hd|].
  destruct Hkeeps' as [Hd|Hon']; [left; exact Hd|right]. inversion Hall; tauto.
Qed.

Lemma granted_after_always st pending :
  pendingToolCalls st = Some pending ->
  directKeepsGrant \/ useSafeEval st = true ->
  granted (approveToolCalls "always" st).
Proof.
  intros Hp Hkeeps. unfold approveToolCalls. rewrite Hp. simpl.
  set (st1 := setPending None (setLocalStorage "mcp_allow_all" "true" st)).
  assert (Hflag : mcp_allow_all st1 = Some "true").
  { unfold mcp_allow_all, st1. cbn. apply getItem_setItem. }
  assert (Hexec : granted (executeTools (pending_calls pending) st1)).
  { split.
    - apply (executeLoop_grant _ _ st1 Hkeeps Hflag).
    - rewrite (gate_pending _ _ (executeTools_gate _ _)). reflexivity. }
  destruct (pending_errorCall pending) as [[call result]|]; [|exact Hexec].
  destruct Hexec as [Ha Hnone]. split.
  - unfold mcp_allow_all in *. rewrite world_reportError. exact Ha.
  - rewrite (gate_pending _ _ (gate_reportError _ _ _)). exact Hnone.
Qed.

(** C8 (as amended).  Approving a pending batch with [always] writes the
    one always-allow entry of [localStorage], whatever the tools of the
    batch.  The engine never removes it, and neither do the sandbox and
    the providers: so long as code evaluated in the page leaves the
    entry set wherever it finds it, or the sandbox is on and stays on,
    the entry stays through any events (turns, approvals, cancellations,
    messages, provider changes, restarts of the process), no call of any
    tool is put into the needs-approval subset, and no approval is
    pending. *)
Theorem always_grant_covers_all_tools (st : State) (pending : PendingApproval)
    (events : list Event) (calls : list ToolCall) :
  pendingToolCalls st = Some pending ->
  directKeepsGrant \/ (useSafeEval st = true /\ Forall (fun ev => ev <> SafeEvalToggle) events) ->
  let st' := run (approveToolCalls "always" st) events in
  mcp_allow_all st' = Some "true"
  /\ needsApproval st' calls = []
  /\ pendingToolCalls st' = None.
Proof.
  intros Hp Hkeeps st'.
  assert (Hfirst : granted (approveToolCalls "always" st)).
  { apply (granted_after_always st pending Hp). tauto. }
  assert (Hg : granted st').
  { apply granted_run; [exact Hfirst|].
    destruct Hkeeps as [Hd|[Hon Hall]]; [left; exact Hd|right]. split; [|exact Hall].
    unfold approveToolCalls. rewrite Hp.
    match goal with |- useSafeEval (match ?e with Some _ => _ | None => ?x end) = true =>
      assert (Hx : useSafeEval x = true);
      [|destruct e as [[call result]|];
        [rewrite (gate_useSafeEval _ _ (gate_reportError _ _ _))|]; exact Hx]
    end.
    rewrite (gate_useSafeEval _ _ (executeTools_gate _ _)). exact Hon. }
  split; [apply Hg|]. split; [|apply Hg].
  apply needsApproval_open, granted_allowAll, Hg.
Qed.

(** *** The execution pipeline *)

Lemma evalResult_fails code st reason :
  evalFails code st reason ->
  fst (evalResult code st) = Ok (EvString ("Eval Error: " +:+ reason)).
Proof.
  unfold evalFails, evalResult. destruct (useSafeEval st).
  - destruct (evalSafe code (world st)) as [outcome w]. simpl.
    intros [->|[->|[-> ->]]]; reflexivity.
  - destruct (evalDirect code (world st)) as [outcome w]. simpl. intros ->. reflexivity.
Qed.

Lemma runEvalCode_fails call st args reason :
  JSON_parse (call_arguments call) = Ok args -> args <> JNull ->
  evalFails (get "code" args) st reason ->
  runEvalCode call st
  = (Break,
     pushTool call (Some ("Eval Error: " +:+ reason)) true
       (setWorld (snd (evalResult (get "code" args) st)) st)).
Proof.
  intros Hparse Hnull Hfails. unfold runEvalCode. rewrite Hparse.
  pose proof (evalResult_fails _ _ _ Hfails) as Hres.
  destruct (evalResult (get "code" args) st) as [result w]. simpl in Hres. subst result.
  destruct args; try contradiction; reflexivity.
Qed.

(** C9.  In a batch [pre ++ call :: rest] whose calls of [pre] run
    through, an [evalCode] call whose evaluation fails (error result,
    sandbox exception, watchdog timeout, or a thrown error without the
    sandbox) ends the loop: the state is that after [pre] with the world
    as the evaluation left it and one tool message for the call, flagged
    as an error, whose content is the text [Eval Error: ] followed by the
    reason; the calls of [rest] make no difference. *)
Theorem evalCode_failure_halts (activeTools : list ToolDef) (pre rest : list ToolCall)
    (call : ToolCall) (st st1 : State) (args : json) (reason : string) :
  call_name call = "evalCode" ->
  executeLoopFlow activeTools pre st = (Next, st1) ->
  JSON_parse (call_arguments call) = Ok args -> args <> JNull ->
  evalFails (get "code" args) st1 reason ->
  let failure := Tool (call_id call) "evalCode" (Some ("Eval Error: " +:+ reason)) true in
  executeLoop activeTools (pre ++ call :: rest) st
  = pushMessage failure (setWorld (snd (evalResult (get "code" args) st1)) st1)
  /\ (chatActive st = true ->
      messages (executeLoop activeTools (pre ++ call :: rest) st) = messages st1 ++ [failure])
  /\ executeLoop activeTools (pre ++ call :: rest) st
     = executeLoop activeTools (pre ++ [call]) st.
Proof.
  intros Hname Hpre Hparse Hnull Hfails failure.
  assert (Hloop : forall suffix,
            executeLoop activeTools (pre ++ call :: suffix) st
            = pushMessage failure (setWorld (snd (evalResult (get "code" args) st1)) st1)).
  { intros suffix. rewrite (executeLoop_app _ _ _ _ _ Hpre). simpl.
    unfold executeCall. rewrite Hname. simpl.
    rewrite (runEvalCode_fails call st1 args reason Hparse Hnull Hfails).
    unfold pushTool, failure. rewrite Hname. reflexivity. }
  split; [apply Hloop|]. split; [|rewrite !Hloop; reflexivity].
  intros Hactive. rewrite Hloop, messages_pushMessage.
  replace (chatActive (setWorld _ st1)) with (chatActive st1) by reflexivity.
  rewrite (chatActive_gate st st1), Hactive; [reflexivity|].
  pose proof (executeLoop_gate activeTools pre st) as Hg.
  rewrite executeLoop_flow, Hpre in Hg. exact Hg.
Qed.

Lemma splitFrom_blank inGap s :
  Forall (fun c => Extractor.isWord c = false) (list_ascii_of_string s) ->
  Forall (fun t => t = "") (splitFrom "" inGap s).
Proof.
  revert inGap. induction s as [|c s IH]; intros inGap Hall; simpl.
  - repeat constructor.
  - simpl in Hall. inversion Hall as [|? ? Hc Hs]; subst.
    rewrite Hc.
    destruct inGap; [apply IH, Hs|]. constructor; [reflexivity|apply IH, Hs].
Qed.

Lemma searchTerms_blank query :
  Forall (fun c => Extractor.isWord c = false) (list_ascii_of_string (toLowerCase query)) ->
  searchTerms query = [].
Proof.
  intros Hall. unfold searchTerms, splitNonWord.
  pose proof (splitFrom_blank false (toLowerCase query) Hall) as Hblank.
  induction Hblank as [|t ts -> _ IH]; [reflexivity|exact IH].
Qed.

(** C10 (as amended).  A [listTools] call whose arguments carry a query
    string that, once lowered by [toLowerCase], holds no word character
    (ASCII letter, digit or underscore), and no truthy [use_regex],
    lists every active tool in registry order: the tools found are the
    registry itself, as for arguments without a query, and the message
    pushed is the listing of the whole registry. *)
Theorem listTools_blank_query (activeTools : list ToolDef) (call : ToolCall) (st : State)
    (args : json) (query : string) :
  JSON_parse (if call_arguments call =? "" then "{}" else call_arguments call) = Ok args ->
  get "query" args = Some (JStr query) ->
  truthyU (get "use_regex" args) = false ->
  Forall (fun c => Extractor.isWord c = false) (list_ascii_of_string (toLowerCase query)) ->
  listToolsResults activeTools args = Ok activeTools
  /\ listToolsResults activeTools (JObj []) = Ok activeTools
  /\ runListTools activeTools call st
     = pushTool call (Some (listingMessage activeTools)) false st.
Proof.
  intros Hparse Hquery Hregex Hblank.
  assert (Hresults : listToolsResults activeTools args = Ok activeTools).
  { unfold listToolsResults. rewrite Hquery, Hregex.
    destruct args; try discriminate.
    destruct (negb (truthy (JStr query))); [reflexivity|].
    rewrite (searchTerms_blank query Hblank). reflexivity. }
  split; [exact Hresults|]. split; [reflexivity|].
  unfold runListTools. rewrite Hparse, Hresults. reflexivity.
Qed.

(** C1, as the loop runs it.  A [getToolSchema] call, no provider listing
    a tool of that name: after the block that answers the call, control
    reaches the provider path, which pushes a second tool message (tool
    not found on any connected server, flagged as an error) and leaves
    the loop; the calls of [rest] are not run. *)
Theorem getToolSchema_falls_through (activeTools : list ToolDef) (call : ToolCall)
    (rest : list ToolCall) (st : State) :
  call_name call = "getToolSchema" ->
  findServer (mcpServers st) "getToolSchema" = None ->
  let notFound :=
    Tool (call_id call) "getToolSchema"
      (Some "Error: Tool not found on any connected server.") true in
  executeLoop activeTools (call :: rest) st
  = pushMessage notFound (runGetToolSchema activeTools call st)
  /\ (chatActive st = true ->
      exists content,
        messages (executeLoop activeTools (call :: rest) st)
        = messages st ++ [Tool (call_id call) "getToolSchema" content false; notFound]).
Proof.
  intros Hname Hserver notFound.
  pose proof (runGetToolSchema_pushes activeTools call st) as Hpush.
  assert (Hloop : executeLoop activeTools (call :: rest) st
                  = pushMessage notFound (runGetToolSchema activeTools call st)).
  { simpl. rewrite executeCall_getToolSchema by exact Hname.
    unfold runRemote.
    pose proof (pushes_gate _ _ _ Hpush) as Hg. unfold gate in Hg.
    injection Hg as _ _ _ _ Hservers _. rewrite Hservers, Hname, Hserver.
    unfold pushTool, notFound. rewrite Hname. reflexivity. }
  split; [exact Hloop|]. intros Hactive. rewrite Hloop, messages_pushMessage.
  rewrite (chatActive_gate st _ (pushes_gate _ _ _ Hpush)), Hactive.
  unfold runGetToolSchema in *. clear Hpush Hloop.
  assert (Hone : forall content,
            messages (pushTool call content false st)
            = messages st ++ [Tool (call_id call) "getToolSchema" content false]).
  { intros content. unfold pushTool. rewrite messages_pushMessage, Hactive, Hname. reflexivity. }
  destruct (JSON_parse (call_arguments call)) as [args|message];
    [|eexists; rewrite Hone, <- app_assoc; reflexivity].
  destruct args;
    try (eexists; rewrite Hone, <- app_assoc; reflexivity);
    match goal with |- context [match ?x with Some _ => _ | None => _ end] => destruct x end;
    eexists; rewrite Hone, <- app_assoc; reflexivity.
Qed.

End WithPlatform.

End EngineFacts.

(** ** The call extractor *)

Module ExtractorFacts.

Import Extractor.

Section WithPlatform.
Context `{Platform}.

Implicit Types (clean o p : text) (st : Scan).

Lemma scanFrom_app clean i a b st :
  scanFrom clean i (a ++ b) st = scanFrom clean (i + length a) b (scanFrom clean i a st).
Proof.
  revert i st. induction a as [|c a IH]; intros i st; simpl.
  - rewrite Nat.add_0_r. reflexivity.
  - rewrite IH. f_equal. lia.
Qed.

(** Prose leaves the loop's state as it is. *)
Lemma scanFrom_plain clean i p st :
  plain p = true -> inString st = false -> scanFrom clean i p st = st.
Proof.
  revert i st. induction p as [|c p IH]; intros i st Hp Hq; [reflexivity|].
  simpl in Hp. apply andb_prop in Hp as [Hc Hp].
  apply negb_true_iff in Hc. apply orb_false_elim in Hc as [Hc Hclose].
  apply orb_false_elim in Hc as [Hquote Hopen].
  simpl. assert (Hstep : scanStep clean st i c = st).
  { unfold scanStep. rewrite Hq, Hquote, Hopen, Hclose. reflexivity. }
  rewrite Hstep. apply IH; assumption.
Qed.

(** Inside a block: the loop reaches its closing brace and takes the
    text from [from] to there as a candidate. *)
Lemma scanFrom_inside clean from rest :
  forall d q e i st,
    closesFrom d q e rest = true ->
    (0 < d)%Z -> depth st = d -> inString st = q -> isEscaped st = e ->
    (q = false -> e = false) -> start st = Some from ->
    scanFrom clean i rest st
    = {| depth := 0; start := None; inString := false; isEscaped := false;
         candidates := kept (candidates st) (substring from (i + length rest) clean) |}.
Proof.
  induction rest as [|c rest IH]; intros d q e i st Hcloses Hd Hdepth Hq He Hinv Hstart;
    [discriminate|].
  destruct st as [d0 s0 q0 e0 found]. simpl in Hdepth, Hq, He, Hstart. subst d0 q0 e0 s0.
  simpl in Hcloses. simpl scanFrom.
  destruct rest as [|c' rest'].
  - (* the last character closes the block *)
    simpl. unfold scanStep, lex in *. simpl.
    destruct q.
    + destruct (isChar c backslash); [simpl in Hcloses; lia|].
      destruct (isChar c quoteChar && negb e); simpl in Hcloses; [lia|].
      rewrite andb_false_r in Hcloses. discriminate.
    + destruct (isChar c quoteChar); [rewrite andb_false_r in Hcloses; discriminate|].
      destruct (isChar c openBrace); [simpl in Hcloses; lia|].
      destruct (isChar c closeBrace); [|simpl in Hcloses; lia].
      simpl in Hcloses. rewrite andb_true_r in Hcloses. rewrite Hcloses.
      apply Z.eqb_eq in Hcloses. rewrite Hcloses, (Hinv eq_refl).
      f_equal. unfold kept, candidateOf.
      destruct (JSON_parse _) as [parsed|]; [|reflexivity].
      destruct (truthyU _); reflexivity.
  - (* a character inside the block *)
    destruct (lex d q e c) as [[d' q'] e'] eqn:Hlex.
    apply andb_prop in Hcloses as [Hpos Hcloses]. apply Z.ltb_lt in Hpos.
    assert (Hstep : scanStep clean
                      {| depth := d; start := Some from; inString := q; isEscaped := e;
                         candidates := found |} i c
                    = {| depth := d'; start := Some from; inString := q'; isEscaped := e';
                         candidates := found |}).
    { unfold scanStep, lex in *. simpl.
      destruct q.
      - destruct (isChar c backslash); [injection Hlex as <- <- <-; reflexivity|].
        destruct (isChar c quoteChar && negb e); injection Hlex as <- <- <-; reflexivity.
      - destruct (isChar c quoteChar); [injection Hlex as <- <- <-; reflexivity|].
        destruct (isChar c openBrace).
        + injection Hlex as <- <- <-. destruct (d =? 0)%Z eqn:Hz; [|reflexivity].
          apply Z.eqb_eq in Hz. lia.
        + destruct (isChar c closeBrace); injection Hlex as <- <- <-; [|reflexivity].
          destruct (d - 1 =? 0)%Z eqn:Hz; [|reflexivity].
          apply Z.eqb_eq in Hz. lia. }
    rewrite Hstep.
    rewrite (IH d' q' e' (S i)
               {| depth := d'; start := Some from; inString := q'; isEscaped := e';
                  candidates := found |} Hcloses Hpos eq_refl eq_refl eq_refl);
      [| |reflexivity].
    + simpl. repeat f_equal. lia.
    + unfold lex in Hlex. destruct q.
      * destruct (isChar c backslash); [injection Hlex as _ <- _; discriminate|].
        destruct (isChar c quoteChar && negb e) eqn:Hend;
          injection Hlex as _ <- <-; [|discriminate].
        intros _. apply andb_prop in Hend as [_ Hend]. apply negb_true_iff, Hend.
      * specialize (Hinv eq_refl). subst e.
        destruct (isChar c quoteChar); [injection Hlex as _ <- _; discriminate|].
        destruct (isChar c openBrace); [injection Hlex as _ _ <-; reflexivity|].
        destruct (isChar c closeBrace); injection Hlex as _ _ <-; reflexivity.
Qed.

Lemma isChar_eq c d : isChar c d = true -> c = d.
Proof. apply Ascii.eqb_eq. Qed.

(** A block met at depth zero is closed where it ends and becomes a
    candidate. *)
Lemma scanFrom_block clean i o st :
  block o = true ->
  depth st = 0%Z -> inString st = false -> isEscaped st = false ->
  substring i (i + length o) clean = o ->
  scanFrom clean i o st
  = {| depth := 0; start := None; inString := false; isEscaped := false;
       candidates := kept (candidates st) o |}.
Proof.
  intros Hblock Hd Hq He Hsub. destruct o as [|c rest]; [discriminate|].
  simpl in Hblock. apply andb_prop in Hblock as [Hc Hcloses].
  apply isChar_eq in Hc. subst c.
  destruct st as [d0 s0 q0 e0 found]. simpl in Hd, Hq, He. subst d0 q0 e0.
  simpl scanFrom.
  replace (scanStep clean _ i openBrace)
    with {| depth := 1; start := Some i; inString := false; isEscaped := false;
            candidates := found |} by reflexivity.
  rewrite (scanFrom_inside clean i rest 1 false false (S i)
             {| depth := 1; start := Some i; inString := false; isEscaped := false;
                candidates := found |} Hcloses
             eq_refl eq_refl eq_refl eq_refl (fun _ => eq_refl) eq_refl).
  simpl candidates. replace (S i + length rest) with (i + length (openBrace :: rest))
    by (simpl; lia).
  rewrite Hsub. reflexivity.
Qed.

Lemma substring_middle (pre o post : text) :
  substring (length pre) (length pre + length o) (pre ++ o ++ post) = o.
Proof.
  unfold substring. rewrite drop_app_length.
  replace (length pre + length o - length pre) with (length o) by lia.
  apply take_app_length.
Qed.

Lemma kept_app found o :
  kept found o = found ++ match candidateOf o with Some parsed => [parsed] | None => [] end.
Proof. unfold kept. destruct (candidateOf o); [reflexivity|symmetry; apply app_nil_r]. Qed.

(** The loop over blocks separated by prose keeps the candidates of the
    blocks, in order. *)
Lemma scanFrom_segments clean segments :
  forall pre st,
    clean = pre ++ flat_map (fun op => fst op ++ snd op) segments ->
    Forall (fun op => block (fst op) = true /\ plain (snd op) = true) segments ->
    depth st = 0%Z -> inString st = false -> isEscaped st = false ->
    candidates (scanFrom clean (length pre) (flat_map (fun op => fst op ++ snd op) segments) st)
    = candidates st ++ omap (fun op => candidateOf (fst op)) segments.
Proof.
  induction segments as [|[o p] segments IH]; intros pre st Hclean Hall Hd Hq He.
  - simpl. symmetry. apply app_nil_r.
  - apply Forall_cons in Hall as [[Hblock Hplain] Hrest]. simpl fst in *. simpl snd in *.
    cbn [flat_map fst snd] in *. rewrite <- app_assoc in *.
    rewrite !scanFrom_app.
    rewrite (scanFrom_block _ _ o st Hblock Hd Hq He)
      by (rewrite Hclean; apply substring_middle).
    rewrite (scanFrom_plain _ _ p) by (exact Hplain || reflexivity).
    replace (length pre + length o + length p) with (length (pre ++ o ++ p))
      by (rewrite !length_app; lia).
    rewrite IH; try reflexivity; try exact Hrest.
    + simpl candidates. rewrite kept_app, <- app_assoc. f_equal.
      cbn [omap list_omap fst]. destruct (candidateOf o); reflexivity.
    + rewrite Hclean, <- !app_assoc. reflexivity.
Qed.

Lemma scan_interleave p0 segments :
  plain p0 = true ->
  Forall (fun op => block (fst op) = true /\ plain (snd op) = true) segments ->
  candidates (scan (interleave p0 segments)) = omap (fun op => candidateOf (fst op)) segments.
Proof.
  intros Hp0 Hall. unfold scan, interleave. rewrite scanFrom_app.
  rewrite (scanFrom_plain _ _ p0) by (exact Hp0 || reflexivity).
  rewrite (scanFrom_segments _ segments p0 initialScan); try reflexivity. exact Hall.
Qed.

Lemma formatEach_expected k values :
  Forall (fun v => truthyU (get "name" v) = true) values ->
  formatEach k values = Some (expectedCalls k values).
Proof.
  intros Hall. revert k. induction Hall as [|v values Hv _ IH]; intros k; [reflexivity|].
  simpl. rewrite IH. destruct v; try discriminate. reflexivity.
Qed.

Lemma candidateOf_named o v : candidateOf o = Some v -> truthyU (get "name" v) = true.
Proof.
  unfold candidateOf. destruct (JSON_parse _) as [parsed|]; [|discriminate].
  destruct (truthyU (get "name" parsed)) eqn:Hn; [|discriminate].
  intros [= <-]. exact Hn.
Qed.

(** C5 (as amended).  When the cleaned text (fence markers removed,
    trimmed) is prose, then N >= 1 brace blocks each followed by prose,
    the prose holding no double quote and no brace; each block parses to
    a value with a truthy [name]; and strategy A finds no array of calls
    in the text: the extractor returns exactly N calls, in the order of
    the blocks, each with the parsed [name] and with the argument text of
    its [arguments] (a string as it is, anything else serialized). *)
Theorem extractTools_blocks (raw p0 : text) (segments : list (text * text))
    (values : list json) :
  cleanText raw = interleave p0 segments ->
  plain p0 = true ->
  Forall (fun op => block (fst op) = true /\ plain (snd op) = true) segments ->
  Forall2 (fun op v => candidateOf (fst op) = Some v) segments values ->
  segments <> [] ->
  strategyA (cleanText raw) = None ->
  extractTools raw = Some (expectedCalls 0 values)
  /\ length (expectedCalls 0 values) = length segments.
Proof.
  intros Hclean Hp0 Hall Hvalues Hne HA.
  assert (Hfound : candidates (scan (cleanText raw)) = values).
  { rewrite Hclean, (scan_interleave p0 segments Hp0 Hall).
    clear -Hvalues. induction Hvalues as [|op v segments values Hv _ IH]; [reflexivity|].
    cbn [omap list_omap] in *. rewrite Hv, IH. reflexivity. }
  assert (Hnamed : Forall (fun v => truthyU (get "name" v) = true) values).
  { clear -Hvalues. induction Hvalues as [|op v segments values Hv _ IH]; constructor;
      [eapply candidateOf_named; exact Hv|exact IH]. }
  split.
  - unfold extractTools. cbv zeta. rewrite HA. unfold strategyB. rewrite Hfound.
    destruct values as [|v values]; [inversion Hvalues; subst; congruence|].
    unfold formatTools. apply formatEach_expected, Hnamed.
  - apply Forall2_length in Hvalues. rewrite Hvalues.
    clear. generalize 0. induction values as [|v values IH]; intros k; simpl; [reflexivity|].
    rewrite IH. reflexivity.
Qed.

End WithPlatform.

End ExtractorFacts.

(** ** The engine and the extractor on concrete inputs *)

Module Scenarios.

Import Extractor Engine Reference.

(** Everything below runs on the reference platform. *)
#[local] Existing Instance demo.

(** The batch of a [getToolSchema] call for [evalCode] followed by a
    [listTools] call, no provider connected: two tool messages answer
    the first call, the second of them the provider path's error, and
    none answers the second call. *)
Lemma getToolSchema_falls_through_witness :
  let call := callOf "call_1" "getToolSchema" (JObj [("name", JStr "evalCode")]) in
  let next := callOf "call_2" "listTools" (JObj []) in
  @messages demo (executeLoop virtualTools [call; next] freshSession)
  = [Tool "call_1" "getToolSchema" (option_map JSON_pretty (tool_parameters evalCodeTool)) false;
     Tool "call_1" "getToolSchema" (Some "Error: Tool not found on any connected server.") true].
Proof.
  intros call next.
  destruct (EngineFacts.getToolSchema_falls_through (H := demo) virtualTools call [next]
              freshSession eq_refl eq_refl) as [Hloop _].
  rewrite Hloop. vm_compute. reflexivity.
Defined.

(** A batch of three calls, the second invalid, the first a call of a
    provider's tool: the first runs and is answered by the provider, one
    corrective message answers the second, and the third shows up
    nowhere. *)
Lemma sequencer_first_invalid_witness :
  let c1 := callOf "call_1" "lookup" (JObj [("word", JStr "a")]) in
  let c2 := callOf "call_2" "nope" (JObj []) in
  let c3 := callOf "call_3" "evalCode" (JObj [("code", JStr "return 1")]) in
  @messages demo (handleWorkerResponse None [c1; c2; c3] Fixtures.trustingSession)
  = [Assistant None [c1; c2];
     Tool "call_1" "lookup" (Some "ok") false;
     Tool "call_2" "nope"
       (Some (correctiveText "nope" "Tool 'nope' not found." None JNull)) false].
Proof.
  intros c1 c2 c3.
  destruct (EngineFacts.sequencer_first_invalid (H := demo) None Fixtures.trustingSession)
    as [Hfirst _].
  destruct (Hfirst [c1] c2 [c3] "Tool 'nope' not found." None) as (_ & _ & _ & _ & _ & _ & Hrun).
  - repeat constructor.
  - reflexivity.
  - destruct (Hrun [Tool "call_1" "lookup" (Some "ok") false] [("mcp_allow_all", "true")] JNull)
      as (Hmessages & _).
    + vm_compute. reflexivity.
    + reflexivity.
    + repeat constructor; discriminate.
    + vm_compute. reflexivity.
    + discriminate.
    + change ([c1; c2; c3]) with ([c1] ++ c2 :: [c3]). rewrite Hmessages. reflexivity.
Defined.

(** C2 as stated fails when a call before the first invalid one leaves
    the loop: of three calls, the first two valid and the third not, the
    first is an [evalCode] call that runs into the watchdog; the second,
    a [listTools] call, is never executed and no tool message answers
    it, while the third is reported. *)
Lemma sequencer_counterexample :
  isValid (@validateToolCall demo Fixtures.looping virtualTools) = true
  /\ isValid (@validateToolCall demo Fixtures.listing virtualTools) = true
  /\ isValid (@validateToolCall demo Fixtures.unknown virtualTools) = false
  /\ @messages demo
       (handleWorkerResponse None [Fixtures.looping; Fixtures.listing; Fixtures.unknown]
          Fixtures.grantedSession)
     = [Assistant None [Fixtures.looping; Fixtures.listing; Fixtures.unknown];
        Tool "call_1" "evalCode"
          (Some "Eval Error: Execution timed out (Infinite loop detected?)") true;
        Tool "call_3" "nope"
          (Some (correctiveText "nope" "Tool 'nope' not found." None JNull)) false].
Proof. repeat split; vm_compute; reflexivity. Qed.

(** C3 as stated fails for [listTools]: with argument text that is not
    JSON the call is not [Valid] (here even the validator accepts every
    document). *)
Lemma validateToolCall_counterexample :
  isValid (@validateToolCall demo
             {| call_id := "call_1"; call_name := "listTools"; call_arguments := "all" |}
             virtualTools) = false.
Proof. reflexivity. Qed.

(** C5 as stated fails: a single well-formed call object whose arguments
    hold an array of named objects is recovered as a call of the inner
    name with empty arguments (strategy A wins), and a call object after
    prose with a closing brace is not recovered at all. *)
Lemma extractTools_counterexample :
  @extractTools demo
    (list_ascii_of_string
       (stringify (JObj [("name", JStr "run");
                         ("arguments", JObj [("steps", JArr [JObj [("name", JStr "inner")]])])])))
  = Some [ {| ex_id := "call_0"; ex_name := Some (JStr "inner"); ex_arguments := "{}" |} ]
  /\ @extractTools demo
       (list_ascii_of_string
          ("} " +:+ stringify (JObj [("name", JStr "run"); ("arguments", JObj [])])))
     = None.
Proof. split; vm_compute; reflexivity. Qed.

(** Two call objects, the first inside a fenced block, with prose
    around them: both are recovered, in order. *)
Lemma extractTools_blocks_witness :
  let o1 := stringify (JObj [("name", JStr "listTools"); ("arguments", JObj [])]) in
  let o2 := stringify (JObj [("name", JStr "getToolSchema");
                             ("arguments", JObj [("name", JStr "evalCode")])]) in
  @extractTools demo
    (list_ascii_of_string
       ("Sure:" +:+ nl +:+ "```json" +:+ nl +:+ o1 +:+ nl +:+ "```" +:+ nl
        +:+ "then " +:+ o2 +:+ " done."))
  = Some [ {| ex_id := "call_0"; ex_name := Some (JStr "listTools"); ex_arguments := "{}" |};
           {| ex_id := "call_1"; ex_name := Some (JStr "getToolSchema");
              ex_arguments := stringify (JObj [("name", JStr "evalCode")]) |} ].
Proof.
  intros o1 o2.
  destruct (ExtractorFacts.extractTools_blocks (H := demo)
              (list_ascii_of_string
                 ("Sure:" +:+ nl +:+ "```json" +:+ nl +:+ o1 +:+ nl +:+ "```" +:+ nl
                  +:+ "then " +:+ o2 +:+ " done."))
              (list_ascii_of_string ("Sure:" +:+ nl +:+ nl))
              [(list_ascii_of_string o1, list_ascii_of_string (nl +:+ nl +:+ "then "));
               (list_ascii_of_string o2, list_ascii_of_string " done.")]
              [JObj [("name", JStr "listTools"); ("arguments", JObj [])];
               JObj [("name", JStr "getToolSchema");
                     ("arguments", JObj [("name", JStr "evalCode")])]])
    as [Hcalls _].
  - vm_compute. reflexivity.
  - vm_compute. reflexivity.
  - repeat constructor.
  - repeat constructor.
  - discriminate.
  - vm_compute. reflexivity.
  - rewrite Hcalls. vm_compute. reflexivity.
Defined.

(** An [evalCode] call in a fresh session: the turn suspends with the
    call pending and only the assistant message recorded. *)
Lemma handleWorkerResponse_suspends_witness :
  let call := callOf "call_1" "evalCode" (JObj [("code", JStr "return 1")]) in
  @pendingToolCalls demo (handleWorkerResponse None [call] freshSession)
  = Some {| pending_calls := [call]; pending_errorCall := None |}
  /\ @messages demo (handleWorkerResponse None [call] freshSession) = [Assistant None [call]].
Proof.
  intros call.
  destruct (EngineFacts.handleWorkerResponse_suspends (H := demo) None [call] freshSession call)
    as (_ & Hpending & Hmessages & _).
  - apply list_elem_of_In. vm_compute. left. reflexivity.
  - discriminate.
  - discriminate.
  - reflexivity.
  - apply not_elem_of_empty.
  - split; [rewrite Hpending|rewrite Hmessages]; vm_compute; reflexivity.
Defined.

(** The suspended [evalCode] call approved with [always], the sandbox
    being on: after a restart and a new message, neither [evalCode] nor
    a provider's tool needs approval. *)
Lemma always_grant_covers_all_tools_witness :
  let call := callOf "call_1" "evalCode" (JObj [("code", JStr "return 1")]) in
  let other := callOf "call_2" "run_sql_query" (JObj []) in
  let suspended := @handleWorkerResponse demo None [call] freshSession in
  let later :=
    run (approveToolCalls "always" suspended)
      [Restart [] (Some "chat-2"); Send "hello" ("chat-3", [])] in
  needsApproval later [call; other] = [] /\ mcp_allow_all later = Some "true".
Proof.
  intros call other suspended later.
  destruct (EngineFacts.always_grant_covers_all_tools (H := demo) suspended
              {| pending_calls := [call]; pending_errorCall := None |}
              [Restart [] (Some "chat-2"); Send "hello" ("chat-3", [])] [call; other])
    as (Hflag & Hnone & _).
  - vm_compute. reflexivity.
  - right. split; [reflexivity|]. repeat constructor; discriminate.
  - split; [exact Hnone|exact Hflag].
Defined.

(** C8 as stated fails when the sandbox is off: the grant given, a later
    [evalCode] call runs unprompted in the page, its code removes the
    entry from [localStorage], and the call of the turn after that is
    pending approval again. *)
Lemma always_grant_counterexample :
  @mcp_allow_all Fixtures.unsandboxed
    (approveToolCalls "always" (handleWorkerResponse None [Fixtures.harmless] Fixtures.unsandboxedSession))
  = Some "true"
  /\ @mcp_allow_all Fixtures.unsandboxed
       (run (approveToolCalls "always" (handleWorkerResponse None [Fixtures.harmless] Fixtures.unsandboxedSession))
          [WorkerResponse None [Fixtures.wiping]; WorkerResponse None [Fixtures.harmless]])
     = None
  /\ @pendingToolCalls Fixtures.unsandboxed
       (run (approveToolCalls "always" (handleWorkerResponse None [Fixtures.harmless] Fixtures.unsandboxedSession))
          [WorkerResponse None [Fixtures.wiping]; WorkerResponse None [Fixtures.harmless]])
     = Some {| pending_calls := [Fixtures.harmless]; pending_errorCall := None |}.
Proof. repeat split; vm_compute; reflexivity. Qed.

(** A batch whose second call is an [evalCode] call that runs into the
    watchdog: the failure is reported in the normalized form, flagged,
    and the third call is not answered. *)
Lemma evalCode_failure_halts_witness :
  let c1 := callOf "call_1" "listTools" (JObj []) in
  let c2 := callOf "call_2" "evalCode" (JObj [("code", JStr "while (true) {}")]) in
  let c3 := callOf "call_3" "listTools" (JObj []) in
  @messages demo (executeLoop virtualTools [c1; c2; c3] freshSession)
  = [Tool "call_1" "listTools" (Some (listingMessage virtualTools)) false;
     Tool "call_2" "evalCode"
       (Some "Eval Error: Execution timed out (Infinite loop detected?)") true].
Proof.
  intros c1 c2 c3.
  destruct (EngineFacts.evalCode_failure_halts (H := demo) virtualTools [c1] [c3] c2 freshSession
              (snd (executeLoopFlow virtualTools [c1] freshSession))
              (JObj [("code", JStr "while (true) {}")])
              "Execution timed out (Infinite loop detected?)") as (Hloop & _ & _).
  - reflexivity.
  - reflexivity.
  - reflexivity.
  - discriminate.
  - right. right. split; reflexivity.
  - change ([c1; c2; c3]) with ([c1] ++ c2 :: [c3]). rewrite Hloop. vm_compute. reflexivity.
Defined.

(** A query of punctuation only: the whole registry is listed. *)
Lemma listTools_blank_query_witness :
  let call := callOf "call_1" "listTools" (JObj [("query", JStr "?!")]) in
  @messages demo (runListTools virtualTools call freshSession)
  = [Tool "call_1" "listTools" (Some (listingMessage virtualTools)) false].
Proof.
  intros call.
  destruct (EngineFacts.listTools_blank_query (H := demo) virtualTools call freshSession
              (JObj [("query", JStr "?!")]) "?!") as (_ & _ & Hrun).
  - vm_compute. reflexivity.
  - reflexivity.
  - reflexivity.
  - repeat constructor.
  - rewrite Hrun. vm_compute. reflexivity.
Defined.

(** C10 as stated fails for the underscore, which is not alphanumeric
    and yet a word character: the query is a search term, no built-in
    tool matches it, and the listing is empty. *)
Lemma listTools_counterexample :
  @listToolsResults demo virtualTools (JObj [("query", JStr "_")]) = Ok [].
Proof. vm_compute. reflexivity. Qed.

End Scenarios.

(** ** More of the engine *)

Module PipelineFacts.
Import Json Engine EngineFacts.
Section WithPlatform.
Context `{Platform}.
Implicit Types (st : State) (call : ToolCall) (calls : list ToolCall).

Lemma executeCall_listTools activeTools call st :
  call_name call = "listTools" ->
  executeCall activeTools call st = (Next, runListTools activeTools call st).
Proof. intros Hname. unfold executeCall. rewrite Hname. reflexivity. Qed.

Lemma runListTools_reply activeTools call st :
  exists content is_error,
    runListTools activeTools call st = pushTool call (Some content) is_error st.
Proof.
  unfold runListTools. destruct (listToolsResults _ _); eexists; eexists; reflexivity.
Qed.

(** X1.  A batch of [listTools] calls always runs to its end: no call of
    it leaves the loop, whatever its arguments (a query that is not a
    string, an invalid regular expression, text that is not JSON), the
    world is untouched, and with a chat active every call is answered by
    exactly one tool message, in the order of the calls. *)
Theorem listTools_never_halts (activeTools : list ToolDef) (calls : list ToolCall) (st : State) :
  Forall (fun call => call_name call = "listTools") calls ->
  exists st',
    executeLoopFlow activeTools calls st = (Next, st')
    /\ world st' = world st
    /\ (chatActive st = true ->
        exists replies,
          messages st' = messages st ++ replies
          /\ Forall2 (fun call m => exists content is_error,
                        m = Tool (call_id call) "listTools" (Some content) is_error)
               calls replies).
Proof.
  intros Hall. revert st. induction Hall as [|call calls Hname _ IH]; intros st.
  - exists st. split; [reflexivity|]. split; [reflexivity|].
    intros _. exists []. split; [symmetry; apply app_nil_r|constructor].
  - destruct (IH (runListTools activeTools call st)) as (st' & Hflow & Hworld & Hmsgs).
    exists st'. cbn [executeLoopFlow]. rewrite (executeCall_listTools _ _ _ Hname).
    split; [exact Hflow|]. split; [rewrite Hworld; apply world_runListTools|].
    intros Hactive.
    destruct (runListTools_reply activeTools call st) as (content & is_error & Hrun).
    destruct Hmsgs as (replies & Hm & Hf).
    { rewrite Hrun. rewrite (chatActive_gate st); [exact Hactive|].
      apply (pushes_gate call), pushes_here. }
    exists (Tool (call_id call) "listTools" (Some content) is_error :: replies).
    split.
    + rewrite Hm, Hrun. unfold pushTool. rewrite messages_pushMessage, Hactive, Hname.
      rewrite <- app_assoc. reflexivity.
    + constructor; [eexists; eexists; reflexivity|exact Hf].
Qed.

Lemma needsApproval_exempt st calls :
  Forall (fun call => call_name call = "getToolSchema" \/ call_name call = "listTools") calls ->
  needsApproval st calls = [].
Proof.
  induction 1 as [|call calls Hname _ IH]; [reflexivity|].
  unfold needsApproval in *. cbn [List.filter]. rewrite IH.
  destruct Hname as [-> | ->]; reflexivity.
Qed.

Lemma mcpServers_gate st st' : gate st' = gate st -> mcpServers st' = mcpServers st.
Proof. unfold gate. intros [= _ _ _ _ -> _]. reflexivity. Qed.

(** X2.  The tools that never ask for approval do not act on the world:
    a batch of [getToolSchema] and [listTools] calls needs no approval
    and leaves the world as it was, provided no connected provider lists
    a tool named [getToolSchema]. *)
Theorem exempt_tools_leave_world (calls : list ToolCall) (st : State) :
  Forall (fun call => call_name call = "getToolSchema" \/ call_name call = "listTools") calls ->
  findServer (mcpServers st) "getToolSchema" = None ->
  needsApproval st calls = [] /\ world (executeTools calls st) = world st.
Proof.
  intros Hall Hserver. split; [apply needsApproval_exempt, Hall|].
  unfold executeTools, postChatToWorker. cbn [world setPosted].
  generalize (fullTools (mcpServers st)). intros activeTools.
  revert st Hserver. induction Hall as [|call calls Hname _ IH]; intros st Hserver; [reflexivity|].
  cbn [executeLoop]. destruct Hname as [Hname|Hname].
  - rewrite executeCall_getToolSchema by exact Hname.
    unfold runRemote.
    rewrite (mcpServers_gate st _ (pushes_gate _ _ _ (runGetToolSchema_pushes activeTools call st))).
    rewrite Hname, Hserver. cbn. rewrite world_pushTool. apply world_runGetToolSchema.
  - rewrite (executeCall_listTools _ _ _ Hname). rewrite IH.
    + apply world_runListTools.
    + rewrite (mcpServers_gate st); [exact Hserver|].
      apply (pushes_gate call), runListTools_pushes.
Qed.


Lemma builtin_tools_lookup (servers : list McpServer) (t : ToolDef) :
  t ∈ virtualTools -> findTool (fullTools servers) (tool_name t) = Some t.
Proof.
  unfold virtualTools. rewrite !elem_of_cons, elem_of_nil.
  intros [->|[->|[->|[]]]]; reflexivity.
Qed.

(** X3.  The built-in tools come first in the registry, so a provider
    cannot replace them: whatever the providers list, looking a built-in
    name up in the registry yields the built-in definition, and a call
    of a built-in tool is validated against the built-in schema. *)
Theorem builtin_tools_not_shadowed (servers : list McpServer) (t : ToolDef) (call : ToolCall) :
  t ∈ virtualTools ->
  findTool (fullTools servers) (tool_name t) = Some t
  /\ (call_name call = tool_name t ->
      validateToolCall call (fullTools servers) = validateToolCall call virtualTools).
Proof.
  intros Hin. split; [apply builtin_tools_lookup, Hin|].
  intros Hname. unfold validateToolCall. rewrite Hname.
  rewrite (builtin_tools_lookup servers t Hin).
  replace (findTool virtualTools (tool_name t)) with (Some t); [reflexivity|].
  symmetry. apply (builtin_tools_lookup [] t Hin).
Qed.

(** X4.  A [getToolSchema] call when a connected provider lists a tool of
    that name: the call needs no approval, and after the block that
    answers it control reaches the provider path, which sends the
    model's arguments to that provider; the provider's answer is pushed
    as a second tool message and the loop goes on, or its failure ends
    the loop. *)
Theorem getToolSchema_reaches_provider (call : ToolCall) (st : State) (client : McpClient)
    (args : json) :
  call_name call = "getToolSchema" ->
  findServer (mcpServers st) "getToolSchema" = Some client ->
  JSON_parse (call_arguments call) = Ok args ->
  match tool_parameters getToolSchemaTool with
  | Some parameters => ajv_validate parameters args = AjvValid
  | None => True
  end ->
  let activeTools := fullTools (mcpServers st) in
  let st1 := runGetToolSchema activeTools call st in
  needsApproval st [call] = []
  /\ executeCall activeTools call st
     = match callTool client "getToolSchema" args (world st) with
       | (Ok result, w) => (Next, pushTool call (Some result) false (setWorld w st1))
       | (Err message, w) =>
           (Break, pushTool call (Some ("Error: " +:+ message)) true (setWorld w st1))
       end.
Proof.
  intros Hname Hserver Hparse Hvalid activeTools st1. split.
  { apply needsApproval_exempt. constructor; [left; exact Hname|constructor]. }
  rewrite executeCall_getToolSchema by exact Hname. fold st1.
  unfold runRemote.
  assert (Hgate : gate st1 = gate st) by apply (pushes_gate call), runGetToolSchema_pushes.
  rewrite (mcpServers_gate st st1 Hgate).
  assert (Hworld : world st1 = world st) by apply world_runGetToolSchema.
  rewrite Hname, Hserver. unfold activeTools.
  pose proof (builtin_tools_lookup (mcpServers st) getToolSchemaTool) as Hfind.
  change (tool_name getToolSchemaTool) with "getToolSchema" in Hfind.
  rewrite Hfind by left.
  rewrite Hparse. cbn [tool_parameters getToolSchemaTool] in *. cbn [truthy].
  rewrite Hvalid, Hworld. reflexivity.
Qed.

(** X5.  Arguments that do not parse, or that the tool's schema rejects,
    never reach the provider: the provider path answers with one tool
    message flagged as an error, on the state as it was (the world
    included), and leaves the loop. *)
Theorem invalid_arguments_stop_before_provider (activeTools : list ToolDef) (call : ToolCall)
    (st : State) (toolDef : ToolDef) (parameters : json) :
  findTool activeTools (call_name call) = Some toolDef ->
  tool_parameters toolDef = Some parameters -> truthy parameters = true ->
  (forall args, JSON_parse (call_arguments call) = Ok args ->
     exists errorsText, ajv_validate parameters args = AjvInvalid errorsText /\ errorsText <> "") ->
  exists content, runRemote activeTools call st = (Break, pushTool call (Some content) true st).
Proof.
  intros Htool Hparams Htruthy Hbad. unfold runRemote.
  destruct (findServer _ _) as [client|]; [|eexists; reflexivity].
  rewrite Htool. destruct (JSON_parse (call_arguments call)) as [args|message] eqn:Hparse;
    [|eexists; reflexivity].
  destruct (Hbad args eq_refl) as (errorsText & Hajv & Hne).
  rewrite Hparams, Htruthy, Hajv.
  destruct (String.eqb_spec errorsText ""); [contradiction|].
  destruct (Example.generateExample (Some parameters)); eexists; reflexivity.
Qed.

(** X6.  Whether an [evalCode] call counts as failed is read off the text
    of its result: code that runs to its end and returns a string is
    answered with that string, and the loop goes on to the next call
    unless the string starts with [Eval Error:], in which case the
    answer is flagged as an error and the rest of the batch is not
    run. *)
Theorem evalCode_flag_follows_text (activeTools : list ToolDef) (call : ToolCall)
    (rest : list ToolCall) (st : State) (args : json) (text : string) (w : World) :
  call_name call = "evalCode" ->
  JSON_parse (call_arguments call) = Ok args -> args <> JNull ->
  (if useSafeEval st
   then evalSafe (get "code" args) (world st) = (SafeSuccess (EvString text), w)
   else evalDirect (get "code" args) (world st) = (DirectReturned (EvString text), w)) ->
  let flagged := String.prefix "Eval Error:" text in
  let st' := pushTool call (Some text) flagged (setWorld w st) in
  executeLoop activeTools (call :: rest) st
  = if flagged then st' else executeLoop activeTools rest st'.
Proof.
  intros Hname Hparse Hnull Heval flagged st'. cbn [executeLoop].
  unfold executeCall. rewrite Hname. cbn -[runEvalCode].
  unfold runEvalCode. rewrite Hparse.
  assert (Hres : evalResult (get "code" args) st = (Ok (EvString text), w)).
  { unfold evalResult. destruct (useSafeEval st); rewrite Heval; reflexivity. }
  rewrite Hres. fold flagged. fold st'.
  destruct args; try contradiction; destruct flagged; reflexivity.
Qed.

(** *** Grants *)

Lemma needsApproval_grants st st' calls :
  mcp_allow_all st' = mcp_allow_all st -> sessionAllowed st' = sessionAllowed st ->
  needsApproval st' calls = needsApproval st calls.
Proof. intros Ha Hs. unfold needsApproval, allowAll. rewrite Ha, Hs. reflexivity. Qed.

Lemma gate_grants st st' :
  gate st' = gate st ->
  pendingToolCalls st' = pendingToolCalls st /\ sessionAllowed st' = sessionAllowed st.
Proof. unfold gate. intros [= _ -> -> _ _ _]. repeat split. Qed.

(** A call that needs approval names a tool that is neither exempt nor
    granted for the session, and the always-allow flag is not set. *)
Lemma needsApproval_elem st calls call :
  call ∈ needsApproval st calls ->
  call ∈ calls /\ call_name call <> "getToolSchema" /\ call_name call <> "listTools"
  /\ allowAll st = false /\ call_name call ∉ sessionAllowed st.
Proof.
  unfold needsApproval. rewrite list_elem_of_In, filter_In, <- list_elem_of_In.
  intros [Hin Hask]. split; [exact Hin|]. cbn [alwaysAllowed existsb] in Hask.
  destruct (String.eqb_spec (call_name call) "getToolSchema") as [|Hg]; [discriminate|].
  destruct (String.eqb_spec (call_name call) "listTools") as [|Hl]; [discriminate|].
  cbn in Hask. destruct (allowAll st); [discriminate|].
  destruct (decide (call_name call ∈ sessionAllowed st)); [discriminate|]. tauto.
Qed.

(** A batch is worth asking about when it holds no call twice and one
    of its calls names a tool that is neither exempt nor granted for the
    session. *)
Definition asks (st : State) (p : PendingApproval) : Prop :=
  NoDup (map dedupKey (pending_calls p))
  /\ exists call, call ∈ pending_calls p
                  /\ call_name call <> "getToolSchema" /\ call_name call <> "listTools"
                  /\ call_name call ∉ sessionAllowed st.

(** What a turn does to the approval state: nothing, or a new pending
    batch that is deduplicated and holds a call that needs approval. *)
Lemma handleWorkerResponse_grants content toolCalls st :
  let st' := handleWorkerResponse content toolCalls st in
  sessionAllowed st' = sessionAllowed st
  /\ (pendingToolCalls st' = pendingToolCalls st
      \/ exists pending, pendingToolCalls st' = Some pending /\ asks st pending).
Proof.
  destruct toolCalls as [|c cs]; [cbn; repeat split; left; reflexivity|].
  cbv zeta. rewrite handleWorkerResponse_sequenced by discriminate. cbv zeta.
  set (results := validationResults (c :: cs) (fullTools (mcpServers st))).
  set (calls := deduplicate (fst (sequenceCalls (c :: cs) results))).
  set (errorCall := snd (sequenceCalls (c :: cs) results)).
  set (st1 := setMessages (messages st ++ [Assistant content (visibleCalls calls errorCall)]) st).
  destruct (needsApproval st1 calls) as [|a l] eqn:Hneeds.
  - destruct (gate_grants st1 _ (gate_runExecution calls errorCall st1)) as (Hp & Hs).
    rewrite Hp, Hs. repeat split. left. reflexivity.
  - repeat split. right. eexists. split; [reflexivity|]. cbn [pending_calls]. split.
    + apply dedupLoop_NoDup.
    + assert (Hin : a ∈ needsApproval st1 calls) by (rewrite Hneeds; left).
      apply needsApproval_elem in Hin as (Hin & Hg & Hl & _ & Hs).
      exists a. repeat split; assumption.
Qed.

Lemma fold_grants calls (allowed : gset string) :
  allowed ⊆ fold_left (fun allowed call => {[call_name call]} ∪ allowed) calls allowed
  /\ forall c, c ∈ calls ->
       call_name c ∈ fold_left (fun allowed call => {[call_name call]} ∪ allowed) calls allowed.
Proof.
  revert allowed. induction calls as [|call calls IH]; intros allowed; cbn [fold_left].
  - split; [reflexivity|]. intros c Hc. inversion Hc.
  - destruct (IH ({[call_name call]} ∪ allowed)) as [Hsub Hin]. split; [set_solver|].
    intros c Hc. apply elem_of_cons in Hc as [->|Hc]; [set_solver|apply Hin, Hc].
Qed.

(** What an approval does to the approval state. *)
Lemma approveToolCalls_grants mode st :
  let st' := approveToolCalls mode st in
  pendingToolCalls st' = None
  /\ sessionAllowed st ⊆ sessionAllowed st'
  /\ (mode <> "session" -> sessionAllowed st' = sessionAllowed st)
  /\ (mode = "session" -> forall pending c,
        pendingToolCalls st = Some pending -> c ∈ pending_calls pending ->
        call_name c ∈ sessionAllowed st').
Proof.
  cbv zeta. unfold approveToolCalls.
  destruct (pendingToolCalls st) as [pending|] eqn:Hp.
  2:{ rewrite Hp. repeat split; try reflexivity. intros _ pending c [=]. }
  set (st1 := if (mode =? "always")%string then setLocalStorage "mcp_allow_all" "true" st else st).
  set (st2 := if (mode =? "session")%string
              then setSessionAllowed
                     (fold_left (fun allowed call => {[call_name call]} ∪ allowed)
                        (pending_calls pending) (sessionAllowed st1)) st1
              else st1).
  set (st3 := executeTools (pending_calls pending) (setPending None st2)).
  assert (Hg3 : gate st3 = gate (setPending None st2)) by apply executeTools_gate.
  assert (Hg : gate (match pending_errorCall pending with
                     | Some (call, result) => reportError (deferredContent call result) call st3
                     | None => st3
                     end) = gate (setPending None st2)).
  { destruct (pending_errorCall pending) as [[call result]|]; [rewrite gate_reportError|]; exact Hg3. }
  apply gate_grants in Hg as (Hpend & Hsess). rewrite Hpend, Hsess.
  cbn [pendingToolCalls sessionAllowed setPending].
  assert (Hs1 : sessionAllowed st1 = sessionAllowed st).
  { subst st1. destruct (mode =? "always")%string; reflexivity. }
  split; [reflexivity|]. split; [|split].
  - subst st2. destruct (mode =? "session")%string; cbn; rewrite ?Hs1; [|reflexivity].
    rewrite <- Hs1. apply fold_grants.
  - intros Hmode. subst st2. destruct (String.eqb_spec mode "session"); [contradiction|exact Hs1].
  - intros -> pending' c [= <-] Hc. subst st2. cbn. apply fold_grants, Hc.
Qed.

(** An approval that writes no entry and evaluates nothing in the page
    leaves the always-allow entry as it is. *)
Lemma approveToolCalls_storage mode st :
  mode <> "always" ->
  useSafeEval st = true
  \/ (forall pending, pendingToolCalls st = Some pending ->
        Forall (fun call => call_name call <> "evalCode") (pending_calls pending)) ->
  mcp_allow_all (approveToolCalls mode st) = mcp_allow_all st.
Proof.
  intros Hmode Hquiet. unfold approveToolCalls.
  destruct (pendingToolCalls st) as [pending|] eqn:Hp; [|reflexivity].
  destruct (String.eqb_spec mode "always") as [|_]; [contradiction|].
  set (st2 := if (mode =? "session")%string
              then setSessionAllowed
                     (fold_left (fun allowed call => {[call_name call]} ∪ allowed)
                        (pending_calls pending) (sessionAllowed st)) st
              else st).
  assert (Hw2 : world (setPending None st2) = world st).
  { subst st2. destruct (mode =? "session")%string; reflexivity. }
  assert (Hs2 : useSafeEval (setPending None st2) = useSafeEval st).
  { subst st2. destruct (mode =? "session")%string; reflexivity. }
  assert (Hexec : mcp_allow_all (executeTools (pending_calls pending) (setPending None st2))
                  = mcp_allow_all st).
  { unfold mcp_allow_all, executeTools, postChatToWorker. cbn [world setPosted].
    rewrite executeLoop_storage, Hw2; [reflexivity|].
    destruct Hquiet as [Hon|Hnone]; [left; rewrite Hs2; exact Hon|right; apply Hnone; reflexivity]. }
  destruct (pending_errorCall pending) as [[call result]|]; [|exact Hexec].
  unfold mcp_allow_all in *. rewrite world_reportError. exact Hexec.
Qed.

(** What sending a message leaves as it is. *)
Lemma sendMessage_keeps content opened st :
  pendingToolCalls (sendMessage content opened st) = pendingToolCalls st
  /\ sessionAllowed (sendMessage content opened st) = sessionAllowed st
  /\ world (sendMessage content opened st) = world st.
Proof.
  unfold sendMessage. destruct (Extractor.trim _); [repeat split|].
  unfold postChatToWorker. cbn [pendingToolCalls sessionAllowed world setPosted setGenerating].
  match goal with |- context [pushMessage ?m ?st1] =>
    destruct (gate_grants _ _ (gate_pushMessage m st1)) as (-> & ->);
    rewrite (world_pushMessage m st1)
  end.
  destruct (chatActive st); repeat split.
Qed.





(** X8.  Approving a pending batch once (any mode other than [always] and
    [session]) grants nothing beyond the batch: nothing is left pending
    and the session grants are as before; and when the batch evaluates
    no code in the page (the sandbox is on, or the batch holds no
    [evalCode] call), the always-allow entry is as before too, so that
    of the calls of any later turn those that need approval are the same
    as before the approval. *)
Theorem once_grant_is_not_remembered (mode : string) (st : State) (calls : list ToolCall) :
  mode <> "always" -> mode <> "session" ->
  pendingToolCalls (approveToolCalls mode st) = None
  /\ sessionAllowed (approveToolCalls mode st) = sessionAllowed st
  /\ (useSafeEval st = true
      \/ (forall pending, pendingToolCalls st = Some pending ->
            Forall (fun call => call_name call <> "evalCode") (pending_calls pending)) ->
      mcp_allow_all (approveToolCalls mode st) = mcp_allow_all st
      /\ needsApproval (approveToolCalls mode st) calls = needsApproval st calls).
Proof.
  intros Ha Hs. destruct (approveToolCalls_grants mode st) as (Hp & _ & Hsess & _).
  split; [exact Hp|]. split; [apply Hsess, Hs|]. intros Hquiet.
  pose proof (approveToolCalls_storage mode st Ha Hquiet) as Hflag.
  split; [exact Hflag|]. apply needsApproval_grants; [exact Hflag|apply Hsess, Hs].
Qed.

Lemma asks_session st st' p : sessionAllowed st' = sessionAllowed st -> asks st p -> asks st' p.
Proof. unfold asks. intros ->. tauto. Qed.

Lemma pending_step st ev :
  (forall p, pendingToolCalls st = Some p -> asks st p) ->
  forall p, pendingToolCalls (step st ev) = Some p -> asks (step st ev) p.
Proof.
  intros Hinv p.
  destruct ev as [content toolCalls|mode| |content opened| |servers| |servers chat]; cbn [step].
  - destruct (handleWorkerResponse_grants content toolCalls st) as (Hs & [Hsame|Hnew]).
    + rewrite Hsame. intros Hp. apply (asks_session st _ _ Hs), Hinv, Hp.
    + destruct Hnew as (pending & -> & Hasks). intros [= <-].
      apply (asks_session st _ _ Hs), Hasks.
  - destruct (approveToolCalls_grants mode st) as (-> & _). discriminate.
  - unfold cancelToolCalls.
    destruct (gate_grants _ _ (gate_pushMessage (Assistant (Some "_Tool execution declined._") [])
                                 (setGenerating false (setPending None st)))) as (-> & _).
    discriminate.
  - destruct (sendMessage_keeps content opened st) as (-> & Hs & _).
    intros Hp. apply (asks_session st _ _ Hs), Hinv, Hp.
  - discriminate.
  - apply Hinv.
  - apply Hinv.
  - discriminate.
Qed.

(** X9.  What is pending is always worth asking about: in every state
    reached from one where nothing is pending, a pending batch holds no
    two calls with the same name and argument text (the same key), and
    at least one of its calls names a tool that is neither exempt nor
    granted for the session, so that the batch needs approval unless the
    always-allow flag is set.  In particular the batch is not empty. *)
Theorem pending_batch_needs_approval (st : State) (events : list Event) (pending : PendingApproval) :
  pendingToolCalls st = None ->
  pendingToolCalls (run st events) = Some pending ->
  NoDup (map dedupKey (pending_calls pending))
  /\ (exists call, call ∈ pending_calls pending
                   /\ call_name call <> "getToolSchema" /\ call_name call <> "listTools"
                   /\ call_name call ∉ sessionAllowed (run st events))
  /\ (allowAll (run st events) = false ->
      needsApproval (run st events) (pending_calls pending) <> [])
  /\ pending_calls pending <> [].
Proof.
  intros Hnone Hp.
  assert (Hinv : forall p, pendingToolCalls (run st events) = Some p -> asks (run st events) p).
  { clear Hp pending.
    assert (Hstart : forall p, pendingToolCalls st = Some p -> asks st p)
      by (intros p; rewrite Hnone; discriminate).
    clear Hnone. revert st Hstart.
    induction events as [|ev events IH]; intros st Hstart; [exact Hstart|].
    cbn. apply IH, pending_step, Hstart. }
  destruct (Hinv pending Hp) as (Hnd & call & Hin & Hg & Hl & Hs).
  split; [exact Hnd|]. split; [exists call; repeat split; assumption|]. split.
  - intros Hall Hnil.
    pose proof (needsApproval_asks _ _ call Hin Hg Hl Hall Hs) as Hask.
    rewrite Hnil in Hask. inversion Hask.
  - intros Hnil. rewrite Hnil in Hin. inversion Hin.
Qed.

(** *** Reports *)

Lemma executeLoop_posted activeTools calls st :
  posted (executeLoop activeTools calls st) = posted st.
Proof.
  revert st. induction calls as [|call calls IH]; intros st; cbn [executeLoop]; [reflexivity|].
  pose proof (executeCall_posted activeTools call st) as Hp.
  destruct (executeCall activeTools call st) as [[|] st']; cbn [snd] in Hp; [rewrite IH|]; exact Hp.
Qed.

(** X10.  A turn that runs calls and then reports an error call enters the
    model twice: once at the end of the execution loop, with the history
    as the loop left it, and once more after the corrective message was
    pushed.  A turn with only the error call enters it once. *)
Theorem corrective_report_reenters_model (calls : list ToolCall) (call : ToolCall)
    (result : Validation) (text : string) (st : State) :
  correctiveContent call result = Some text ->
  let st1 := executeLoop (fullTools (mcpServers st)) calls st in
  let st2 := pushMessage (Tool (call_id call) (call_name call) (Some text) false) st1 in
  posted (runExecution calls (Some (call, result)) st)
  = posted st ++ match calls with
                 | [] => [messages st2]
                 | _ => [messages st1; messages st2]
                 end.
Proof.
  intros Htext st1 st2. unfold runExecution. rewrite Htext. unfold reportError.
  destruct calls as [|c cs].
  { unfold postChatToWorker. cbn [posted setPosted]. rewrite posted_pushMessage. reflexivity. }
  unfold executeTools. fold st1. unfold postChatToWorker. cbn [posted setPosted].
  rewrite posted_pushMessage. cbn [posted setPosted].
  rewrite messages_pushMessage. change (chatActive (setPosted _ st1)) with (chatActive st1).
  cbn [messages setPosted]. subst st2. rewrite messages_pushMessage.
  subst st1. rewrite executeLoop_posted, <- app_assoc. reflexivity.
Qed.

(** X11.  The report of an error call differs between the two paths.  Run
    at once, the corrective message starts with the error text.  Run
    after an approval, and the error call carrying no schema (the tool
    is unknown, or has no parameters), the message pushed has the empty
    text as its content: the error text is not reported. *)
Theorem deferred_report_drops_error (mode : string) (st : State) (pending : PendingApproval)
    (call : ToolCall) (error : string) (schema : option json) :
  pendingToolCalls st = Some pending ->
  pending_errorCall pending = Some (call, Invalid error schema) ->
  truthyU schema = false ->
  chatActive st = true ->
  last (messages (approveToolCalls mode st))
  = Some (Tool (call_id call) (call_name call) (Some "") false)
  /\ exists rest, correctiveContent call (Invalid error schema)
                  = Some ("Error: " +:+ error +:+ rest).
Proof.
  intros Hp He Hschema Hactive. split.
  - unfold approveToolCalls. rewrite Hp, He.
    unfold deferredContent. cbn [validationSchema]. rewrite Hschema. unfold reportError.
    unfold postChatToWorker. cbn [messages setPosted]. rewrite messages_pushMessage.
    match goal with |- context [chatActive ?s] =>
      replace (chatActive s) with (chatActive st) end.
    + rewrite Hactive. apply last_snoc.
    + symmetry. rewrite (chatActive_gate _ _ (executeTools_gate _ _)).
      destruct (mode =? "always")%string, (mode =? "session")%string; reflexivity.
  - unfold correctiveContent. cbn [validationSchema validationError]. rewrite Hschema.
    eexists. reflexivity.
Qed.

(** X12.  Tool messages are recorded only while a chat is active: without
    one, the loop still runs its calls, but the history stays as it was,
    and the model is entered again with that same history. *)
Theorem results_dropped_without_chat (calls : list ToolCall) (st : State) :
  chatActive st = false ->
  messages (executeTools calls st) = messages st
  /\ posted (executeTools calls st) = posted st ++ [messages st].
Proof.
  intros Hactive. unfold executeTools, postChatToWorker. cbn [messages posted setPosted].
  rewrite executeLoop_posted.
  assert (Hm : messages (executeLoop (fullTools (mcpServers st)) calls st) = messages st).
  { generalize (fullTools (mcpServers st)). intros activeTools.
    revert st Hactive. induction calls as [|call calls IH]; intros st Hactive; [reflexivity|].
    cbn [executeLoop].
    assert (Hcall : messages (snd (executeCall activeTools call st)) = messages st
                    /\ chatActive (snd (executeCall activeTools call st)) = false).
    { split; [|rewrite (chatActive_gate st); [exact Hactive|apply executeCall_gate]].
      assert (Hpush : forall c s s', chatActive s = false -> pushes c s s' -> messages s' = messages s).
      { intros c s s' Hs (content & is_error & w & ->). unfold pushTool.
        rewrite messages_pushMessage. change (chatActive (setWorld w s)) with (chatActive s).
        rewrite Hs. reflexivity. }
      destruct (String.eqb_spec (call_name call) "getToolSchema") as [Heq|Hne].
      - rewrite executeCall_getToolSchema by exact Heq.
        pose proof (runGetToolSchema_pushes activeTools call st) as H1.
        assert (H2 : chatActive (runGetToolSchema activeTools call st) = false).
        { rewrite (chatActive_gate st); [exact Hactive|apply (pushes_gate call), H1]. }
        rewrite (Hpush call _ _ H2 (runRemote_pushes activeTools call _)).
        apply (Hpush call _ _ Hactive H1).
      - apply (Hpush call _ _ Hactive), executeCall_pushes, Hne. }
    destruct Hcall as [Hm Ha].
    destruct (executeCall activeTools call st) as [[|] st']; cbn [snd] in *; [|exact Hm].
    rewrite IH; assumption. }
  rewrite Hm. split; reflexivity.
Qed.

(** *** Deduplication *)

Lemma dedupLoop_fixed seen calls :
  NoDup (map dedupKey calls) -> (forall c, c ∈ calls -> dedupKey c ∉ seen) ->
  dedupLoop seen [] calls = calls.
Proof.
  revert seen. induction calls as [|call calls IH]; intros seen Hnd Hfresh; [reflexivity|].
  cbn [map] in Hnd. apply NoDup_cons in Hnd as [Hhead Hnd].
  rewrite dedupLoop_cons_fresh by (apply Hfresh; left). f_equal. apply IH; [exact Hnd|].
  intros c Hc. rewrite elem_of_union, elem_of_singleton. intros [Heq|Hin].
  - apply Hhead. rewrite <- Heq. apply list_elem_of_fmap. exists c. split; [reflexivity|exact Hc].
  - apply (Hfresh c); [right; exact Hc|exact Hin].
Qed.

(** X13.  Deduplication is idempotent and leaves alone what needs no
    deduplication: calls with pairwise different keys come out as they
    went in, and deduplicating a second time changes nothing. *)
Theorem deduplicate_idempotent (calls : list ToolCall) :
  (NoDup (map dedupKey calls) -> deduplicate calls = calls)
  /\ deduplicate (deduplicate calls) = deduplicate calls.
Proof.
  assert (Hfixed : forall l, NoDup (map dedupKey l) -> deduplicate l = l).
  { intros l Hnd. apply dedupLoop_fixed; [exact Hnd|]. intros c _. apply not_elem_of_empty. }
  split; [apply Hfixed|]. apply Hfixed, dedupLoop_NoDup.
Qed.

End WithPlatform.

(** *** The ranking of the keyword search *)

Section Ranking.
Context `{Platform}.

Implicit Types (l : list (ToolDef * nat)) (x : ToolDef * nat).

Lemma insertByScore_perm x l : insertByScore x l ≡ₚ x :: l.
Proof.
  induction l as [|y l IH]; cbn [insertByScore]; [reflexivity|].
  destruct (snd y <=? snd x)%nat; [reflexivity|].
  rewrite IH. apply Permutation_swap.
Qed.

Lemma sortByScore_perm l : sortByScore l ≡ₚ l.
Proof.
  induction l as [|x l IH]; [reflexivity|].
  unfold sortByScore in *. cbn [fold_right]. rewrite insertByScore_perm, IH. reflexivity.
Qed.

Lemma insertByScore_sorted x l :
  StronglySorted (fun a b => snd b <= snd a) l ->
  StronglySorted (fun a b => snd b <= snd a) (insertByScore x l).
Proof.
  induction 1 as [|y l Hs IH Hall]; cbn [insertByScore]; [repeat constructor|].
  destruct (Nat.leb_spec (snd y) (snd x)) as [Hle|Hlt].
  - constructor; [constructor; assumption|]. constructor; [exact Hle|].
    eapply Forall_impl; [exact Hall|]. cbn. intros b Hb. lia.
  - constructor; [exact IH|]. rewrite insertByScore_perm. constructor; [lia|exact Hall].
Qed.

Lemma sortByScore_sorted l : StronglySorted (fun a b => snd b <= snd a) (sortByScore l).
Proof.
  induction l as [|x l IH]; [constructor|].
  unfold sortByScore in *. cbn [fold_right]. apply insertByScore_sorted, IH.
Qed.

Lemma insertByScore_stable n x l :
  List.filter (fun r => (snd r =? n)%nat) (insertByScore x l)
  = List.filter (fun r => (snd r =? n)%nat) (x :: l).
Proof.
  induction l as [|y l IH]; cbn [insertByScore]; [reflexivity|].
  destruct (Nat.leb_spec (snd y) (snd x)) as [Hle|Hlt]; [reflexivity|].
  cbn [List.filter] in *. rewrite IH.
  destruct (Nat.eqb_spec (snd x) n) as [Hx|Hx]; [|reflexivity].
  destruct (Nat.eqb_spec (snd y) n) as [Hy|Hy]; [lia|reflexivity].
Qed.

Lemma sortByScore_stable n l :
  List.filter (fun r => (snd r =? n)%nat) (sortByScore l)
  = List.filter (fun r => (snd r =? n)%nat) l.
Proof.
  induction l as [|x l IH]; [reflexivity|].
  unfold sortByScore in *. cbn [fold_right]. rewrite insertByScore_stable.
  cbn [List.filter]. rewrite IH. reflexivity.
Qed.

Lemma filter_scored (f : ToolDef -> nat) (p : nat -> bool) (tools : list ToolDef) :
  List.filter (fun r => p (snd r)) (map (fun t => (t, f t)) tools)
  = map (fun t => (t, f t)) (List.filter (fun t => p (f t)) tools).
Proof.
  induction tools as [|t tools IH]; [reflexivity|].
  cbn [map List.filter snd]. rewrite IH. destruct (p (f t)); reflexivity.
Qed.

Lemma map_fst_scored (f : ToolDef -> nat) (tools : list ToolDef) :
  map fst (map (fun t => (t, f t)) tools) = tools.
Proof. rewrite map_map. apply map_id. Qed.

Lemma scored_filter_fst (f : ToolDef -> nat) (p : nat -> bool) l :
  Forall (fun r => snd r = f (fst r)) l ->
  List.filter (fun t => p (f t)) (map fst l) = map fst (List.filter (fun r => p (snd r)) l).
Proof.
  induction 1 as [|r l Hr _ IH]; [reflexivity|].
  cbn [map List.filter]. rewrite IH, Hr. destruct (p (f (fst r))); reflexivity.
Qed.

Lemma scored_sorted_fst (f : ToolDef -> nat) l :
  Forall (fun r => snd r = f (fst r)) l ->
  StronglySorted (fun a b => snd b <= snd a) l ->
  StronglySorted (fun a b => f b <= f a) (map fst l).
Proof.
  intros Hall Hs. induction Hs as [|r l Hs IH Hle]; [constructor|].
  apply Forall_cons in Hall as [Hr Hall]. cbn [map]. constructor; [apply IH, Hall|].
  clear IH Hs. induction Hle as [|b l Hb _ IH]; [constructor|].
  apply Forall_cons in Hall as [Hfb Hall]. cbn [map]. constructor; [|apply IH, Hall].
  rewrite <- Hr, <- Hfb. exact Hb.
Qed.

(** X14.  The keyword search of [listTools] reports exactly the tools with
    a positive score, each as often as the registry holds it, by
    descending score, and tools of equal score in registry order. *)
Theorem rankTools_ranked (query : string) (terms : list string) (tools : list ToolDef) :
  let ranked := rankTools query terms tools in
  let matching := List.filter (fun t => (0 <? score query terms t)%nat) tools in
  ranked ≡ₚ matching
  /\ StronglySorted (fun a b => score query terms b <= score query terms a) ranked
  /\ forall n, List.filter (fun t => (score query terms t =? n)%nat) ranked
               = List.filter (fun t => (score query terms t =? n)%nat) matching.
Proof.
  intros ranked matching. subst ranked matching. unfold rankTools.
  set (f := score query terms).
  rewrite (filter_scored f (fun n => (0 <? n)%nat)).
  set (matching := List.filter (fun t => (0 <? f t)%nat) tools).
  assert (Hall : Forall (fun r => snd r = f (fst r))
                   (sortByScore (map (fun t => (t, f t)) matching))).
  { rewrite sortByScore_perm. apply Forall_fmap, Forall_true. reflexivity. }
  split; [|split].
  - rewrite sortByScore_perm, map_fst_scored. reflexivity.
  - apply scored_sorted_fst; [exact Hall|apply sortByScore_sorted].
  - intros n. rewrite (scored_filter_fst f (fun m => (m =? n)%nat) _ Hall).
    rewrite sortByScore_stable, (filter_scored f (fun m => (m =? n)%nat)), map_fst_scored.
    reflexivity.
Qed.

End Ranking.

Section Search.
Context `{Platform}.

(** X15.  The keyword search does not tell upper case from lower case in
    the query: two query strings that agree once lowered give the same
    tools, in the same order. *)
Theorem keyword_search_ignores_case (activeTools : list ToolDef) (q1 q2 : string) :
  toLowerCase q1 = toLowerCase q2 ->
  listToolsResults activeTools (JObj [("query", JStr q1)])
  = listToolsResults activeTools (JObj [("query", JStr q2)]).
Proof.
  intros Hlow.
  assert (Hterms : searchTerms q1 = searchTerms q2).
  { unfold searchTerms. rewrite Hlow. reflexivity. }
  assert (Hrank : forall terms, rankTools q1 terms activeTools = rankTools q2 terms activeTools).
  { intros terms. unfold rankTools, score. rewrite Hlow. reflexivity. }
  assert (Hnil : searchTerms "" = []).
  { unfold searchTerms. rewrite toLowerCase_nil. reflexivity. }
  unfold listToolsResults. cbn.
  destruct (String.eqb_spec q1 "") as [->|_], (String.eqb_spec q2 "") as [->|_]; cbn.
  - reflexivity.
  - rewrite <- Hterms, Hnil. reflexivity.
  - rewrite Hterms, Hnil. reflexivity.
  - rewrite Hterms. destruct (searchTerms q2); [reflexivity|]. rewrite Hrank. reflexivity.
Qed.

End Search.
End PipelineFacts.

Module TurnFacts.
Import Json Engine EngineFacts.
Section WithPlatform.
Context `{Platform}.
Implicit Types (st : State) (call : ToolCall) (calls : list ToolCall).

(** *** From validation to the provider *)

(** X16.  The validator and the provider path agree: a call of a
    provider's tool (no built-in name) that the validator accepts is
    never stopped by the safety net of the execution loop; with a
    provider connected that lists the tool, its parsed arguments are
    sent to that provider, and the answer (or the failure) is what the
    tool message reports. *)
Theorem validated_call_reaches_provider (call : ToolCall) (st : State) (client : McpClient) :
  call_name call <> "getToolSchema" -> call_name call <> "listTools" ->
  call_name call <> "evalCode" ->
  isValid (validateToolCall call (fullTools (mcpServers st))) = true ->
  findServer (mcpServers st) (call_name call) = Some client ->
  exists args,
    JSON_parse (call_arguments call) = Ok args
    /\ executeCall (fullTools (mcpServers st)) call st
       = match callTool client (call_name call) args (world st) with
         | (Ok result, w) => (Next, pushTool call (Some result) false (setWorld w st))
         | (Err message, w) =>
             (Break, pushTool call (Some ("Error: " +:+ message)) true (setWorld w st))
         end.
Proof.
  intros Hg Hl He Hvalid Hserver. unfold executeCall.
  destruct (String.eqb_spec (call_name call) "getToolSchema"); [contradiction|].
  destruct (String.eqb_spec (call_name call) "listTools"); [contradiction|].
  destruct (String.eqb_spec (call_name call) "evalCode"); [contradiction|].
  unfold validateToolCall in Hvalid. unfold runRemote. rewrite Hserver.
  destruct (String.eqb_spec (call_name call) "getToolSchema"); [contradiction|].
  destruct (findTool (fullTools (mcpServers st)) (call_name call)) as [toolDef|]; [|discriminate].
  destruct (JSON_parse (call_arguments call)) as [args|message]; [|discriminate].
  exists args. split; [reflexivity|].
  destruct (tool_parameters toolDef) as [parameters|]; [|reflexivity].
  destruct (truthy parameters); [|reflexivity].
  destruct (ajv_validate parameters args); try discriminate. reflexivity.
Qed.

(** *** The history only grows *)

Lemma executeTools_appends calls st :
  exists ms, messages (executeTools calls st) = messages st ++ ms.
Proof.
  unfold executeTools, postChatToWorker. cbn [messages setPosted].
  destruct (executeLoop_answers (fullTools (mcpServers st)) calls st) as (ms & Hms & _).
  exists ms. exact Hms.
Qed.

Lemma reportError_appends content call st :
  exists ms, messages (reportError content call st) = messages st ++ ms.
Proof. destruct (reportError_answers content call st) as (ms & Hms & _). exists ms. exact Hms. Qed.

Lemma pushMessage_appends msg st :
  exists ms, messages (pushMessage msg st) = messages st ++ ms.
Proof.
  rewrite messages_pushMessage. destruct (chatActive st); [eexists; reflexivity|].
  exists []. symmetry. apply app_nil_r.
Qed.

Lemma gate_activeChatId st st' : gate st' = gate st -> activeChatId st' = activeChatId st.
Proof. unfold gate. intros [= -> _ _ _ _ _]. reflexivity. Qed.

(** No event but a restart closes the active chat or opens another. *)
Lemma activeChatId_step st ev :
  chatActive st = true -> (forall servers chat, ev <> Restart servers chat) ->
  activeChatId (step st ev) = activeChatId st.
Proof.
  intros Hactive Hrestart.
  destruct ev as [content toolCalls|mode| |content opened| |servers| |servers chat]; cbn [step].
  - destruct toolCalls as [|c cs]; [reflexivity|].
    rewrite handleWorkerResponse_sequenced by discriminate. cbv zeta.
    destruct (needsApproval _ _); [|reflexivity].
    rewrite (gate_activeChatId _ _ (gate_runExecution _ _ _)). reflexivity.
  - unfold approveToolCalls. destruct (pendingToolCalls st) as [pending|]; [|reflexivity].
    match goal with |- activeChatId (match ?e with Some _ => _ | None => ?x end) = _ =>
      assert (Hx : activeChatId x = activeChatId st);
      [|destruct e as [[call result]|];
        [rewrite (gate_activeChatId _ _ (gate_reportError _ _ _))|]; exact Hx]
    end.
    rewrite (gate_activeChatId _ _ (executeTools_gate _ _)).
    destruct (mode =? "always")%string, (mode =? "session")%string; reflexivity.
  - unfold cancelToolCalls. rewrite (gate_activeChatId _ _ (gate_pushMessage _ _)). reflexivity.
  - unfold sendMessage. destruct (Extractor.trim _); [reflexivity|].
    rewrite Hactive. unfold postChatToWorker. cbn [activeChatId setPosted setGenerating].
    apply (gate_activeChatId _ _ (gate_pushMessage _ _)).
  - reflexivity.
  - reflexivity.
  - reflexivity.
  - exfalso. apply (Hrestart servers chat). reflexivity.
Qed.

Lemma step_appends st ev :
  chatActive st = true ->
  ev <> Clear -> (forall servers chat, ev <> Restart servers chat) ->
  exists ms, messages (step st ev) = messages st ++ ms.
Proof.
  intros Hactive Hclear Hrestart.
  destruct ev as [content toolCalls|mode| |content opened| |servers| |servers chat]; cbn [step].
  - destruct toolCalls as [|c cs]; [eexists; reflexivity|].
    rewrite handleWorkerResponse_sequenced by discriminate. cbv zeta.
    set (calls := deduplicate _). set (errorCall := snd _).
    set (st1 := setMessages _ st).
    destruct (needsApproval st1 calls); [|eexists; reflexivity].
    unfold runExecution.
    assert (Hexec : exists ms, messages (match calls with [] => st1 | _ => executeTools calls st1 end)
                               = messages st1 ++ ms).
    { destruct calls; [exists []; symmetry; apply app_nil_r|apply executeTools_appends]. }
    destruct Hexec as (ms1 & Hms1).
    destruct errorCall as [[call result]|].
    + destruct (reportError_appends (correctiveContent call result) call
                  (match calls with [] => st1 | _ => executeTools calls st1 end)) as (ms2 & Hms2).
      eexists. rewrite Hms2, Hms1. subst st1. cbn [messages setMessages].
      rewrite <- !app_assoc. reflexivity.
    + eexists. rewrite Hms1. subst st1. cbn [messages setMessages].
      rewrite <- !app_assoc. reflexivity.
  - unfold approveToolCalls. destruct (pendingToolCalls st) as [pending|];
      [|exists []; symmetry; apply app_nil_r].
    match goal with |- context [executeTools ?cs ?s] =>
      destruct (executeTools_appends cs s) as (ms1 & Hms1);
      replace (messages s) with (messages st) in Hms1
        by (destruct (mode =? "always")%string, (mode =? "session")%string; reflexivity)
    end.
    destruct (pending_errorCall pending) as [[call result]|]; [|exists ms1; exact Hms1].
    match goal with |- context [reportError ?c ?k ?s] =>
      destruct (reportError_appends c k s) as (ms2 & Hms2) end.
    eexists. rewrite Hms2, Hms1, <- app_assoc. reflexivity.
  - unfold cancelToolCalls.
    match goal with |- context [pushMessage ?m ?s] =>
      destruct (pushMessage_appends m s) as (ms & Hms) end.
    exists ms. exact Hms.
  - unfold sendMessage. destruct (Extractor.trim _); [exists []; symmetry; apply app_nil_r|].
    rewrite Hactive. unfold postChatToWorker. cbn [messages setPosted setGenerating].
    apply pushMessage_appends.
  - contradiction.
  - exists []. symmetry. apply app_nil_r.
  - exists []. symmetry. apply app_nil_r.
  - exfalso. apply (Hrestart servers chat). reflexivity.
Qed.

(** X17.  With a chat active the history is append-only: through
    turns, approvals, refusals, messages of the user, provider changes
    and sandbox toggles, the chat stays the active one and what the
    history holds stays in place and in order; only clearing the chat
    and a restart take messages away.  Without an active chat, a message
    of the user that is not blank opens a chat and replaces the history
    by the messages stored for that chat, before it is added itself. *)
Theorem history_is_append_only (st : State) (events : list Event) :
  (chatActive st = true ->
   Forall (fun ev => ev <> Clear /\ forall servers chat, ev <> Restart servers chat) events ->
   activeChatId (run st events) = activeChatId st
   /\ exists added, messages (run st events) = messages st ++ added)
  /\ (forall content chat loaded,
        chatActive st = false ->
        Extractor.trim (list_ascii_of_string content) <> [] -> chat <> "" ->
        messages (step st (Send content (chat, loaded))) = loaded ++ [User content]
        /\ activeChatId (step st (Send content (chat, loaded))) = Some chat).
Proof.
  split.
  - intros Hactive Hall. revert st Hactive.
    induction Hall as [|ev events [Hclear Hrestart] _ IH]; intros st Hactive.
    + split; [reflexivity|]. exists []. symmetry. apply app_nil_r.
    + destruct (step_appends st ev Hactive Hclear Hrestart) as (ms1 & Hms1).
      pose proof (activeChatId_step st ev Hactive Hrestart) as Hchat.
      assert (Hactive' : chatActive (step st ev) = true).
      { unfold chatActive in *. rewrite Hchat. exact Hactive. }
      destruct (IH (step st ev) Hactive') as (Hsame & ms2 & Hms2).
      change (run st (ev :: events)) with (run (step st ev) events).
      split; [rewrite Hsame; exact Hchat|].
      exists (ms1 ++ ms2). rewrite Hms2, Hms1, <- app_assoc. reflexivity.
  - intros content chat loaded Hclosed Hcontent Hchat. cbn [step]. unfold sendMessage.
    destruct (Extractor.trim (list_ascii_of_string content)); [contradiction|].
    rewrite Hclosed. unfold postChatToWorker, selectChat.
    cbn [messages activeChatId setPosted setGenerating fst snd].
    assert (Hopen : chatActive (setMessages loaded (setActiveChatId (Some chat) st)) = true).
    { unfold chatActive. cbn. destruct (String.eqb_spec chat ""); [contradiction|reflexivity]. }
    split.
    + rewrite messages_pushMessage, Hopen. reflexivity.
    + rewrite (gate_activeChatId _ _ (gate_pushMessage _ _)). reflexivity.
Qed.


(** *** Resuming a suspended turn *)

Lemma setPending_same st : pendingToolCalls st = None -> setPending None st = st.
Proof. destruct st. cbn. intros ->. reflexivity. Qed.

(** X18.  Approving once resumes the turn where it was suspended: nothing
    having been pending before the turn, the state after the approval
    is the one the turn would have reached had no approval been needed,
    except for the report of an error call, which the approval builds
    from the text of the deferred report instead of the corrective
    one. *)
Theorem approval_resumes_the_turn (mode : string) (content : option string)
    (toolCalls : list ToolCall) (st : State) :
  let results := validationResults toolCalls (fullTools (mcpServers st)) in
  let calls := deduplicate (fst (sequenceCalls toolCalls results)) in
  let errorCall := snd (sequenceCalls toolCalls results) in
  let st1 := setMessages (messages st ++ [Assistant content (visibleCalls calls errorCall)]) st in
  mode <> "always" -> mode <> "session" ->
  pendingToolCalls st = None ->
  needsApproval st1 calls <> [] ->
  approveToolCalls mode (handleWorkerResponse content toolCalls st)
  = match errorCall with
    | None => runExecution calls None st1
    | Some (call, result) =>
        reportError (deferredContent call result) call (executeTools calls st1)
    end.
Proof.
  intros results calls errorCall st1 Ha Hs Hnone Hneeds.
  assert (Hcalls : toolCalls <> []).
  { intros ->. apply Hneeds. reflexivity. }
  rewrite (handleWorkerResponse_sequenced content toolCalls st Hcalls). cbv zeta.
  fold results. fold calls. fold errorCall. fold st1.
  destruct (needsApproval st1 calls) as [|a l] eqn:Hn; [contradiction|].
  unfold approveToolCalls. cbn [pendingToolCalls setPending pending_calls pending_errorCall].
  destruct (String.eqb_spec mode "always"); [contradiction|].
  destruct (String.eqb_spec mode "session"); [contradiction|].
  replace (setPending None (setPending _ st1)) with st1.
  2:{ symmetry. rewrite <- (setPending_same st1) at 2; [reflexivity|exact Hnone]. }
  destruct errorCall as [[call result]|]; [reflexivity|].
  unfold runExecution. destruct calls; [discriminate|reflexivity].
Qed.

(** *** Unknown tools *)

(** X19.  A turn whose first call names a tool the registry does not
    hold runs nothing: the assistant message is recorded with that call
    alone, one tool message tells that the tool was not found and points
    to [listTools], and the model is entered again; no approval is
    asked, the world is untouched, and the calls after the first are
    dropped. *)
Theorem unknown_tool_is_reported (content : option string) (call : ToolCall)
    (rest : list ToolCall) (st : State) :
  call_name call <> "getToolSchema" ->
  findTool (fullTools (mcpServers st)) (call_name call) = None ->
  let st1 := setMessages (messages st ++ [Assistant content [call]]) st in
  let report :=
    Tool (call_id call) (call_name call)
      (Some ("Error: Tool '" +:+ call_name call +:+ "' not found." +:+ nl +:+ nl
             +:+ "The tool '" +:+ call_name call
             +:+ "' does not exist. Use '{" +:+ dq +:+ "name" +:+ dq +:+ ": " +:+ dq
             +:+ "listTools" +:+ dq +:+ ", " +:+ dq +:+ "arguments" +:+ dq
             +:+ ": {}}' to see available tools."))
      false in
  handleWorkerResponse content (call :: rest) st = postChatToWorker (pushMessage report st1)
  /\ world (handleWorkerResponse content (call :: rest) st) = world st
  /\ pendingToolCalls (handleWorkerResponse content (call :: rest) st) = pendingToolCalls st.
Proof.
  intros Hname Hfind st1 report.
  assert (Hturn : handleWorkerResponse content (call :: rest) st
                  = postChatToWorker (pushMessage report st1)).
  { rewrite handleWorkerResponse_sequenced by discriminate. cbv zeta.
    assert (Hinvalid : validateToolCall call (fullTools (mcpServers st))
                       = Invalid ("Tool '" +:+ call_name call +:+ "' not found.") None).
    { unfold validateToolCall. rewrite Hfind.
      destruct (String.eqb_spec (call_name call) "getToolSchema"); [contradiction|reflexivity]. }
    unfold validationResults, sequenceCalls. cbn [map firstInvalidIndex snd].
    rewrite Hinvalid. cbn [isValid negb take map fst snd lookup].
    change (deduplicate []) with (@nil ToolCall). cbn [needsApproval List.filter].
    unfold runExecution, correctiveContent, reportError.
    match goal with |- context [?l !! 0] =>
      change (l !! 0)
        with (Some (call, Invalid ("Tool '" +:+ call_name call +:+ "' not found.") None)) end.
    cbn [validationSchema validationError truthyU].
    rewrite (append_assoc "Tool '"), (append_assoc (call_name call)). reflexivity. }
  split; [exact Hturn|]. rewrite Hturn. unfold postChatToWorker.
  cbn [world pendingToolCalls setPosted]. split.
  - rewrite world_pushMessage. reflexivity.
  - destruct (PipelineFacts.gate_grants _ _ (gate_pushMessage report st1)) as (-> & _).
    reflexivity.
Qed.

End WithPlatform.
End TurnFacts.

Module ExtractionFacts.
Import Json Extractor.
Section WithPlatform.
Context `{Platform}.

Lemma scanStep_named clean st i char :
  Forall (fun v => truthyU (get "name" v) = true) (candidates st) ->
  Forall (fun v => truthyU (get "name" v) = true) (candidates (scanStep clean st i char)).
Proof.
  intros Hall. unfold scanStep.
  repeat match goal with
         | |- context [if ?b then _ else _] => destruct b
         | |- context [match start st with _ => _ end] => destruct (start st)
         end; cbn [candidates]; try exact Hall.
  destruct (JSON_parse _) as [parsed|message]; [|exact Hall].
  destruct (truthyU (get "name" parsed)) eqn:Hname; [|exact Hall].
  apply Forall_app. split; [exact Hall|]. repeat constructor. exact Hname.
Qed.

Lemma scanFrom_named clean i chars st :
  Forall (fun v => truthyU (get "name" v) = true) (candidates st) ->
  Forall (fun v => truthyU (get "name" v) = true) (candidates (scanFrom clean i chars st)).
Proof.
  revert i st. induction chars as [|char chars IH]; intros i st Hall; [exact Hall|].
  cbn [scanFrom]. apply IH, scanStep_named, Hall.
Qed.

Lemma formatEach_named k values calls :
  formatEach k values = Some calls ->
  Forall (fun v => truthyU (get "name" v) = true) values ->
  Forall (fun c => truthyU (ex_name c) = true) calls /\ length calls = length values.
Proof.
  revert k calls. induction values as [|v values IH]; intros k calls; cbn [formatEach].
  - intros [= <-] _. split; [constructor|reflexivity].
  - destruct (formatTool k v) as [c|] eqn:Hc; [|discriminate].
    destruct (formatEach (S k) values) as [cs|] eqn:Hcs; [|discriminate].
    intros [= <-] Hall. apply Forall_cons in Hall as [Hv Hall].
    destruct (IH _ _ Hcs Hall) as [Hnamed Hlen]. split; [|cbn; rewrite Hlen; reflexivity].
    constructor; [|exact Hnamed].
    unfold formatTool in Hc. destruct v; try discriminate; injection Hc as <-; exact Hv.
Qed.

Lemma formatEach_head k v values calls :
  formatEach k (v :: values) = Some calls ->
  exists c rest, calls = c :: rest /\ ex_name c = get "name" v
                 /\ length rest = length values.
Proof.
  cbn [formatEach]. destruct (formatTool k v) as [c|] eqn:Hc; [|discriminate].
  destruct (formatEach (S k) values) as [cs|] eqn:Hcs; [|discriminate].
  intros [= <-]. exists c, cs. split; [reflexivity|]. split.
  - unfold formatTool in Hc. destruct v; try discriminate; injection Hc as <-; reflexivity.
  - clear Hc. revert k cs Hcs. induction values as [|w values IH]; intros k cs; cbn [formatEach].
    + intros [= <-]. reflexivity.
    + destruct (formatTool (S k) w); [|discriminate].
      destruct (formatEach (S (S k)) values) as [cs'|] eqn:Hcs'; [|discriminate].
      intros [= <-]. cbn. f_equal. apply (IH (S k)), Hcs'.
Qed.

Lemma xmlMatchHere_named s toolName args :
  xmlMatchHere s = Some (toolName, args) -> toolName <> [].
Proof.
  unfold xmlMatchHere. destruct (stripAny openTags s) as [s1|]; [|discriminate].
  destruct (spanWord s1) as [[|c w] r]; [discriminate|].
  destruct r as [|p [|b s2]]; try discriminate.
  destruct (isChar p openParen && isChar b openBrace); [|discriminate].
  destruct (untilCloser s2); [|discriminate]. intros [= <- _]. discriminate.
Qed.

Lemma xmlMatch_named s toolName args :
  xmlMatch s = Some (toolName, args) -> toolName <> [].
Proof.
  induction s as [|c s IH]; cbn [xmlMatch].
  - destruct (xmlMatchHere []) as [m|] eqn:Hm; [|discriminate].
    intros [= ->]. apply (xmlMatchHere_named _ _ _ Hm).
  - destruct (xmlMatchHere (c :: s)) as [m|] eqn:Hm; [|exact IH].
    intros [= ->]. apply (xmlMatchHere_named _ _ _ Hm).
Qed.

(** X20.  The call extractor never answers with an empty list: when it
    finds calls, there is at least one, and the first has a truthy name.
    When the calls come from the brace-counting loop or from the tag
    pattern (the bracket pattern of the first strategy having found
    nothing), every one of them has a truthy name. *)
Theorem extractTools_calls_named (raw : text) (calls : list ExtractedCall) :
  extractTools raw = Some calls ->
  (exists call rest, calls = call :: rest /\ truthyU (ex_name call) = true)
  /\ (strategyA (cleanText raw) = None ->
      Forall (fun call => truthyU (ex_name call) = true) calls).
Proof.
  unfold extractTools. set (clean := cleanText raw).
  destruct (strategyA clean) as [found|] eqn:HA.
  - intros [= <-]. split; [|discriminate].
    unfold strategyA in HA. destruct (arrayMatch clean) as [span|]; [|discriminate].
    destruct (JSON_parse _) as [[| | | |[|first rest]|]|]; try discriminate.
    destruct first; try discriminate;
      match type of HA with
      | (if ?b then _ else _) = _ => destruct b eqn:Hname; [|discriminate]
      end;
      unfold formatTools in HA; apply formatEach_head in HA as (c & cs & -> & Hc & _);
      exists c, cs; (split; [reflexivity|]); rewrite Hc; exact Hname.
  - assert (Hnamed : Forall (fun v => truthyU (get "name" v) = true) (candidates (scan clean))).
    { apply scanFrom_named. constructor. }
    destruct (candidates (scan clean)) as [|v found] eqn:Hscan.
    + unfold strategyC. destruct (xmlMatch clean) as [[toolName args]|] eqn:Hxml; [|discriminate].
      apply xmlMatch_named in Hxml.
      assert (Htruthy : truthy (JStr (string_of_list_ascii toolName)) = true).
      { destruct toolName; [contradiction|reflexivity]. }
      destruct (JSON_parse _) as [parsedArgs|]; [|discriminate].
      assert (Hone : forall v, formatTools
                (JArr [JObj [("name", JStr (string_of_list_ascii toolName)); ("arguments", v)]])
                = Some calls ->
              (exists call rest, calls = call :: rest /\ truthyU (ex_name call) = true)
              /\ (@None (list ExtractedCall) = None ->
                  Forall (fun call => truthyU (ex_name call) = true) calls)).
      { intros v0 [= <-]. split; [eexists; eexists; split; [reflexivity|exact Htruthy]|].
        intros _. repeat constructor. exact Htruthy. }
      destruct parsedArgs; try discriminate; apply Hone.
    + unfold strategyB. rewrite Hscan. unfold formatTools. intros Hfmt.
      destruct (formatEach_named _ _ _ Hfmt Hnamed) as [Hall Hlen].
      split; [|intros _; exact Hall].
      destruct calls as [|c cs]; [discriminate|].
      exists c, cs. split; [reflexivity|]. apply Forall_cons in Hall as [Hc _]. exact Hc.
Qed.

End WithPlatform.
End ExtractionFacts.

(** ** The message store *)

Module StoreFacts.
Import Store.

(** *** The order of keys *)

Lemma ascii_compare_lt_trans (a b c : ascii) :
  Ascii.compare a b = Lt -> Ascii.compare b c = Lt -> Ascii.compare a c = Lt.
Proof.
  unfold Ascii.compare. rewrite !N.compare_lt_iff. apply N.lt_trans.
Qed.

Lemma compare_refl (s : string) : String.compare s s = Eq.
Proof.
  induction s as [|c s IH]; [reflexivity|]. cbn.
  replace (Ascii.compare c c) with Eq; [exact IH|].
  unfold Ascii.compare. symmetry. apply N.compare_refl.
Qed.

Lemma compare_lt_trans (s1 s2 s3 : string) :
  String.compare s1 s2 = Lt -> String.compare s2 s3 = Lt -> String.compare s1 s3 = Lt.
Proof.
  revert s2 s3. induction s1 as [|c1 s1 IH]; intros [|c2 s2] [|c3 s3]; cbn;
    try discriminate; try reflexivity.
  destruct (Ascii.compare c1 c2) eqn:H12; try discriminate;
    destruct (Ascii.compare c2 c3) eqn:H23; try discriminate; intros Ha Hb.
  - apply Ascii.compare_eq_iff in H12, H23. subst. rewrite (proj2 (N.compare_eq_iff _ _) eq_refl)
      || (unfold Ascii.compare; rewrite N.compare_refl). apply (IH s2 s3); assumption.
  - apply Ascii.compare_eq_iff in H12. subst. rewrite H23. reflexivity.
  - apply Ascii.compare_eq_iff in H23. subst. rewrite H12. reflexivity.
  - rewrite (ascii_compare_lt_trans _ _ _ H12 H23). reflexivity.
Qed.

Lemma compare_gt_lt (s1 s2 : string) : String.compare s1 s2 = Gt -> String.compare s2 s1 = Lt.
Proof. rewrite String.compare_antisym. destruct (String.compare s2 s1); cbn; congruence. Qed.

Lemma compare_lt_neq (s1 s2 : string) : String.compare s1 s2 = Lt -> s1 <> s2.
Proof. intros Hlt ->. rewrite compare_refl in Hlt. discriminate. Qed.

(** *** Object stores *)

Section ObjectStore.
Context {A : Type} (key : A -> string).
Implicit Types (l : list A) (r x y : A).

Lemma put_elem r l y : y ∈ put key r l -> y = r \/ y ∈ l.
Proof.
  induction l as [|x l IH]; cbn [put]; [rewrite list_elem_of_singleton; tauto|].
  destruct (String.compare (key r) (key x)); rewrite !elem_of_cons; tauto.
Qed.

Lemma put_here r l : r ∈ put key r l.
Proof.
  induction l as [|x l IH]; cbn [put]; [left|].
  destruct (String.compare (key r) (key x)); [left|left|right; exact IH].
Qed.

Lemma put_other r l y : y ∈ l -> key y <> key r -> y ∈ put key r l.
Proof.
  intros Hy Hne. induction l as [|x l IH]; [inversion Hy|]. cbn [put].
  destruct (String.compare (key r) (key x)) eqn:Hc.
  - apply String.compare_eq_iff in Hc. apply elem_of_cons in Hy as [->|Hy]; [congruence|].
    right. exact Hy.
  - right. exact Hy.
  - apply elem_of_cons in Hy as [->|Hy]; [left|right; apply IH, Hy].
Qed.

Lemma put_Forall (P : A -> Prop) r l : P r -> Forall P l -> Forall P (put key r l).
Proof.
  intros Hr Hall. apply Forall_forall. intros y Hy.
  apply put_elem in Hy as [->|Hy]; [exact Hr|]. rewrite Forall_forall in Hall. apply Hall, Hy.
Qed.

Lemma put_ordered r l : ordered key l -> ordered key (put key r l).
Proof.
  unfold ordered. induction 1 as [|x l Hs IH Hall]; cbn [put]; [repeat constructor|].
  destruct (String.compare (key r) (key x)) eqn:Hc.
  - apply String.compare_eq_iff in Hc. constructor; [exact Hs|]. rewrite Hc. exact Hall.
  - constructor; [constructor; assumption|]. constructor; [exact Hc|].
    eapply Forall_impl; [exact Hall|]. intros y Hy. apply (compare_lt_trans _ _ _ Hc Hy).
  - constructor; [exact IH|]. apply put_Forall; [apply compare_gt_lt, Hc|exact Hall].
Qed.

Lemma ordered_unique l x y : ordered key l -> x ∈ l -> y ∈ l -> key x = key y -> x = y.
Proof.
  unfold ordered. induction 1 as [|z l Hs IH Hall]; [intros Hx; inversion Hx|].
  rewrite Forall_forall in Hall. rewrite !elem_of_cons.
  intros [->|Hx] [->|Hy] Hk; [reflexivity| | |apply IH; assumption].
  - exfalso. apply (compare_lt_neq _ _ (Hall y Hy)). exact Hk.
  - exfalso. apply (compare_lt_neq _ _ (Hall x Hx)). symmetry. exact Hk.
Qed.

Lemma put_unique r l y : ordered key l -> y ∈ put key r l -> key y = key r -> y = r.
Proof.
  intros Ho Hy Hk. apply (ordered_unique (put key r l)); [apply put_ordered, Ho|exact Hy| |exact Hk].
  apply put_here.
Qed.

Lemma filter_ordered (p : A -> bool) l : ordered key l -> ordered key (List.filter p l).
Proof.
  unfold ordered. induction 1 as [|x l Hs IH Hall]; cbn [List.filter]; [constructor|].
  destruct (p x); [|exact IH]. constructor; [exact IH|].
  rewrite Forall_forall in *. intros y Hy. apply Hall.
  apply list_elem_of_In, filter_In in Hy as [Hy _]. apply list_elem_of_In, Hy.
Qed.

Lemma remove_ordered k l : ordered key l -> ordered key (remove key k l).
Proof. apply filter_ordered. Qed.

(** A record with a new key joins the store and the others stay in
    place. *)
Lemma filter_put_fresh (p : A -> bool) r l :
  (forall x, x ∈ l -> key x <> key r) -> p r = false ->
  List.filter p (put key r l) = List.filter p l.
Proof.
  intros Hfresh Hr. induction l as [|x l IH]; cbn [put List.filter]; [rewrite Hr; reflexivity|].
  destruct (String.compare (key r) (key x)) eqn:Hc.
  - apply String.compare_eq_iff in Hc. exfalso. apply (Hfresh x); [left|congruence].
  - cbn [List.filter]. rewrite Hr. reflexivity.
  - cbn [List.filter]. rewrite IH; [reflexivity|]. intros y Hy. apply Hfresh. right. exact Hy.
Qed.

Lemma put_fresh_perm r l :
  (forall x, x ∈ l -> key x <> key r) -> put key r l ≡ₚ r :: l.
Proof.
  intros Hfresh. induction l as [|x l IH]; cbn [put]; [reflexivity|].
  destruct (String.compare (key r) (key x)) eqn:Hc.
  - apply String.compare_eq_iff in Hc. exfalso. apply (Hfresh x); [left|congruence].
  - reflexivity.
  - rewrite IH; [apply Permutation_swap|]. intros y Hy. apply Hfresh. right. exact Hy.
Qed.

End ObjectStore.

(** *** Indexes *)

Section Index.
Context {A : Type} (ix : A -> Z).
Implicit Types (l : list A) (x y : A).

Lemma insertBy_perm x l : insertBy ix x l ≡ₚ x :: l.
Proof.
  induction l as [|y l IH]; cbn [insertBy]; [reflexivity|].
  destruct (ix x <=? ix y)%Z; [reflexivity|]. rewrite IH. apply Permutation_swap.
Qed.

Lemma sortBy_perm l : sortBy ix l ≡ₚ l.
Proof.
  induction l as [|x l IH]; [reflexivity|].
  unfold sortBy in *. cbn [fold_right]. rewrite insertBy_perm, IH. reflexivity.
Qed.

Lemma sortBy_elem l x : x ∈ sortBy ix l <-> x ∈ l.
Proof. rewrite sortBy_perm. reflexivity. Qed.

Lemma insertBy_sorted x l :
  StronglySorted (fun a b => (ix a <= ix b)%Z) l ->
  StronglySorted (fun a b => (ix a <= ix b)%Z) (insertBy ix x l).
Proof.
  induction 1 as [|y l Hs IH Hall]; cbn [insertBy]; [repeat constructor|].
  destruct (Z.leb_spec (ix x) (ix y)) as [Hle|Hlt].
  - constructor; [constructor; assumption|]. constructor; [exact Hle|].
    eapply Forall_impl; [exact Hall|]. cbn. intros b Hb. lia.
  - constructor; [exact IH|]. rewrite insertBy_perm. constructor; [lia|exact Hall].
Qed.

Lemma sortBy_sorted l : StronglySorted (fun a b => (ix a <= ix b)%Z) (sortBy ix l).
Proof.
  induction l as [|x l IH]; [constructor|].
  unfold sortBy in *. cbn [fold_right]. apply insertBy_sorted, IH.
Qed.

Lemma filter_insertBy (p : A -> bool) x l :
  StronglySorted (fun a b => (ix a <= ix b)%Z) l ->
  List.filter p (insertBy ix x l)
  = if p x then insertBy ix x (List.filter p l) else List.filter p l.
Proof.
  induction 1 as [|y l Hs IH Hall]; cbn [insertBy List.filter]; [destruct (p x); reflexivity|].
  destruct (Z.leb_spec (ix x) (ix y)) as [Hle|Hlt]; cbn [List.filter].
  - destruct (p x) eqn:Hx; [|reflexivity].
    destruct (p y); cbn [insertBy].
    + destruct (Z.leb_spec (ix x) (ix y)); [reflexivity|lia].
    + assert (Hhead : forall l', Forall (fun b => (ix x <= ix b)%Z) l' ->
                insertBy ix x l' = x :: l').
      { intros [|z l'] Hz; [reflexivity|]. cbn [insertBy]. apply Forall_cons in Hz as [Hz _].
        destruct (Z.leb_spec (ix x) (ix z)); [reflexivity|lia]. }
      rewrite Hhead; [reflexivity|]. apply Forall_forall. intros b Hb.
      apply list_elem_of_In, filter_In in Hb as [Hb _]. rewrite Forall_forall in Hall.
      specialize (Hall b (proj2 (list_elem_of_In _ _) Hb)). cbn in Hall. lia.
  - rewrite IH. destruct (p x), (p y); cbn [insertBy]; try reflexivity.
    destruct (Z.leb_spec (ix x) (ix y)); [lia|reflexivity].
Qed.

Lemma sortBy_filter (p : A -> bool) l :
  List.filter p (sortBy ix l) = sortBy ix (List.filter p l).
Proof.
  induction l as [|x l IH]; [reflexivity|].
  change (sortBy ix (x :: l)) with (insertBy ix x (sortBy ix l)).
  rewrite filter_insertBy by apply sortBy_sorted. rewrite IH.
  cbn [List.filter]. destruct (p x); reflexivity.
Qed.

End Index.


(** *** Queries *)

Implicit Types (db : Database) (m : StoredMessage) (chat : Chat).

Lemma byChat_elem chatId ms m :
  m ∈ byChat chatId ms <-> m ∈ ms /\ message_chatId m = Some chatId.
Proof.
  unfold byChat. rewrite !list_elem_of_In, filter_In.
  destruct (message_chatId m) as [c|]; [|split; intros [_ [=]]].
  rewrite String.eqb_eq. split; intros [Hin Hc]; (split; [exact Hin|congruence]).
Qed.

Lemma drop_sublist {A} (k : nat) (l : list A) x : x ∈ drop k l -> x ∈ l.
Proof. intros Hx. rewrite <- (take_drop k l). apply elem_of_app. right. exact Hx. Qed.

(** X21.  [getMessages] returns messages of the chat asked for, oldest
    first; with a limit other than zero, at most that many, and then the
    newest ones: a message of the chat that is left out is not newer
    than any that is returned.  The limit zero stands for no limit. *)
Theorem getMessages_window (chatId : string) (limit : nat) (db : Database) :
  let window := getMessages chatId limit db in
  (forall m, m ∈ window -> m ∈ messageStore db /\ message_chatId m = Some chatId)
  /\ StronglySorted (fun a b => (message_timestamp a <= message_timestamp b)%Z) window
  /\ (limit <> 0 ->
      length window = Nat.min limit (length (byChat chatId (messageStore db))))
  /\ (limit = 0 ->
      forall m, m ∈ messageStore db -> message_chatId m = Some chatId -> m ∈ window)
  /\ (forall m, m ∈ messageStore db -> message_chatId m = Some chatId ->
        m ∈ window
        \/ forall m', m' ∈ window -> (message_timestamp m <= message_timestamp m')%Z).
Proof.
  intros window. subst window. unfold getMessages.
  set (all := sortBy message_timestamp (byChat chatId (messageStore db))).
  assert (Hsorted : StronglySorted (fun a b => (message_timestamp a <= message_timestamp b)%Z) all)
    by apply sortBy_sorted.
  assert (Hall : forall m, m ∈ all <-> m ∈ messageStore db /\ message_chatId m = Some chatId).
  { intros m. unfold all. rewrite sortBy_elem. apply byChat_elem. }
  assert (Hlen : length all = length (byChat chatId (messageStore db))).
  { unfold all. rewrite sortBy_perm. reflexivity. }
  destruct (Nat.eqb_spec limit 0) as [->|Hlimit]; cbn [negb andb].
  { split; [|split; [|split; [|split]]].
    - intros m. apply Hall.
    - exact Hsorted.
    - intros Hne. exfalso. apply Hne. reflexivity.
    - intros _ m Hm Hc. apply Hall. split; assumption.
    - intros m Hm Hc. left. apply Hall. split; assumption. }
  destruct (Nat.ltb_spec limit (length all)) as [Hlt|Hge].
  - set (k := length all - limit). split; [|split; [|split; [|split]]].
    + intros m Hm. apply Hall, (drop_sublist k), Hm.
    + rewrite <- (take_drop k all) in Hsorted. apply StronglySorted_app_1_r in Hsorted.
      exact Hsorted.
    + intros _. rewrite length_drop, <- Hlen. subst k. lia.
    + congruence.
    + intros m Hm Hc. assert (Hin : m ∈ all) by (apply Hall; split; assumption).
      rewrite <- (take_drop k all) in Hin, Hsorted. apply elem_of_app in Hin as [Hin|Hin].
      * right. intros m' Hm'. apply (StronglySorted_app_1_elem_of _ _ _ _ _ Hsorted Hin Hm').
      * left. exact Hin.
  - split; [|split; [|split; [|split]]].
    + intros m. apply Hall.
    + exact Hsorted.
    + intros _. rewrite <- Hlen. lia.
    + congruence.
    + intros m Hm Hc. left. apply Hall. split; assumption.
Qed.

(** X22.  What [addMessage] stores can be read back: the stored message
    carries the given [id] and [timestamp] when the draft has them (a
    missing or empty [id] and a missing or zero [timestamp] are filled
    in), and it is among the messages of its chat.  When its key is new
    to the store, the messages of every other chat read as before, and
    those of its own chat are the former ones and the new one. *)
Theorem addMessage_round_trip (draft : Draft) (uuid : string) (now : Z) (db : Database) :
  let stored := fst (addMessage draft uuid now db) in
  let db' := snd (addMessage draft uuid now db) in
  (forall id, draft_id draft = Some id -> id <> "" -> message_id stored = id)
  /\ (forall t, draft_timestamp draft = Some t -> t <> 0%Z -> message_timestamp stored = t)
  /\ (forall chatId, draft_chatId draft = Some chatId -> stored ∈ getMessages chatId 0 db')
  /\ ((forall m, m ∈ messageStore db -> message_id m <> message_id stored) ->
      forall chatId limit,
        (draft_chatId draft <> Some chatId ->
         getMessages chatId limit db' = getMessages chatId limit db)
        /\ (draft_chatId draft = Some chatId ->
            getMessages chatId 0 db' ≡ₚ stored :: getMessages chatId 0 db)).
Proof.
  intros stored db'. subst stored db'. cbn [fst snd addMessage].
  set (stored := completed draft uuid now).
  split; [|split; [|split]].
  - intros id Hid Hne. subst stored. cbn. rewrite Hid.
    destruct (String.eqb_spec id ""); [contradiction|reflexivity].
  - intros t Ht Hne. subst stored. cbn. rewrite Ht.
    destruct (Z.eqb_spec t 0); [contradiction|reflexivity].
  - intros chatId Hc. unfold getMessages. cbn [Nat.eqb negb andb messageStore].
    apply sortBy_elem, byChat_elem. split; [apply put_here|exact Hc].
  - intros Hfresh chatId limit. split.
    + intros Hc. unfold getMessages. cbn [messageStore]. unfold byChat.
      rewrite filter_put_fresh; [reflexivity|exact Hfresh|].
      change (message_chatId stored) with (draft_chatId draft).
      destruct (draft_chatId draft) as [c|]; [|reflexivity].
      destruct (String.eqb_spec c chatId); [congruence|reflexivity].
    + intros Hc. unfold getMessages. cbn [Nat.eqb negb andb messageStore].
      rewrite !sortBy_perm. unfold byChat.
      assert (Hperm : put message_id stored (messageStore db) ≡ₚ stored :: messageStore db)
        by (apply put_fresh_perm, Hfresh).
      assert (Hfilter : forall (p : StoredMessage -> bool) l l',
                l ≡ₚ l' -> List.filter p l ≡ₚ List.filter p l').
      { intros p l l' Hl. induction Hl as [|x l l' _ IH|x y l|l l' l'' _ IH1 _ IH2]; cbn [List.filter].
        - reflexivity.
        - destruct (p x); [rewrite IH|]; [reflexivity|exact IH].
        - destruct (p x), (p y); try reflexivity. apply Permutation_swap.
        - etransitivity; eassumption. }
      rewrite (Hfilter _ _ _ Hperm). cbn [List.filter].
      change (message_chatId stored) with (draft_chatId draft). rewrite Hc, String.eqb_refl.
      reflexivity.
Qed.

(** *** Deleting *)

Section Removal.
Context {A : Type} (key : A -> string).

Lemma filter_filter (p q : A -> bool) (l : list A) :
  List.filter p (List.filter q l) = List.filter (fun x => q x && p x) l.
Proof.
  induction l as [|x l IH]; [reflexivity|]. cbn [List.filter].
  destruct (q x); cbn [List.filter andb]; rewrite IH; reflexivity.
Qed.

Lemma fold_remove (ks : list string) (l : list A) :
  fold_left (fun l k => remove key k l) ks l
  = List.filter (fun x => negb (existsb (String.eqb (key x)) ks)) l.
Proof.
  revert l. induction ks as [|k ks IH]; intros l; cbn [fold_left existsb].
  - symmetry. apply forallb_filter_id, forallb_forall. reflexivity.
  - rewrite IH. unfold remove. rewrite filter_filter. apply filter_ext.
    intros x. rewrite negb_orb. reflexivity.
Qed.

End Removal.

Lemma inChat_spec chatId m :
  match message_chatId m with
  | Some c => (c =? chatId)%string
  | None => false
  end = true <-> message_chatId m = Some chatId.
Proof.
  destruct (message_chatId m) as [c|]; [|split; discriminate].
  rewrite String.eqb_eq. split; congruence.
Qed.

Lemma deleteMessagesOf_filter chatId ms :
  ordered message_id ms ->
  deleteMessagesOf chatId ms
  = List.filter (fun m => negb match message_chatId m with
                               | Some c => (c =? chatId)%string
                               | None => false
                               end) ms.
Proof.
  intros Ho. unfold deleteMessagesOf. rewrite fold_remove. apply filter_ext_in.
  intros m Hm. f_equal. apply list_elem_of_In in Hm.
  apply eq_true_iff_eq. rewrite inChat_spec, existsb_exists. split.
  - intros (k & Hk & Heq). apply String.eqb_eq in Heq.
    apply in_map_iff in Hk as (m' & Hid & Hm'). apply list_elem_of_In, byChat_elem in Hm'.
    destruct Hm' as [Hin Hc].
    rewrite (ordered_unique message_id ms m m' Ho Hm Hin); [exact Hc|congruence].
  - intros Hc. exists (message_id m). split; [|apply String.eqb_refl].
    apply in_map, list_elem_of_In, byChat_elem. split; assumption.
Qed.

Lemma fold_stores (chats : list Chat) (cs : list Chat) (ms : list StoredMessage) :
  fold_left (fun stores chat =>
               (remove chat_id (chat_id chat) (fst stores),
                deleteMessagesOf (chat_id chat) (snd stores)))
    chats (cs, ms)
  = (fold_left (fun cs k => remove chat_id k cs) (map chat_id chats) cs,
     fold_left (fun ms k => deleteMessagesOf k ms) (map chat_id chats) ms).
Proof.
  revert cs ms. induction chats as [|chat chats IH]; intros cs ms; [reflexivity|].
  cbn [fold_left map fst snd]. apply IH.
Qed.

Lemma fold_deleteMessagesOf (ks : list string) ms :
  ordered message_id ms ->
  fold_left (fun ms k => deleteMessagesOf k ms) ks ms
  = List.filter (fun m => negb match message_chatId m with
                               | Some c => existsb (String.eqb c) ks
                               | None => false
                               end) ms.
Proof.
  revert ms. induction ks as [|k ks IH]; intros ms Ho; cbn [fold_left].
  - symmetry. apply forallb_filter_id, forallb_forall. intros m _.
    destruct (message_chatId m); reflexivity.
  - rewrite deleteMessagesOf_filter by exact Ho. rewrite IH by (apply filter_ordered, Ho).
    rewrite filter_filter. apply filter_ext. intros m.
    destruct (message_chatId m) as [c|]; [|reflexivity]. cbn [existsb].
    rewrite negb_orb. reflexivity.
Qed.

Lemma getChats_elem projectId db chat :
  chat ∈ getChats projectId db <-> chat ∈ chatStore db /\ chat_projectId chat = projectId.
Proof.
  unfold getChats. rewrite <- Permutation_rev, list_elem_of_In, filter_In, <- list_elem_of_In.
  rewrite sortBy_elem, String.eqb_eq. reflexivity.
Qed.

Lemma getMessages_byChat chatId limit db db' :
  byChat chatId (messageStore db') = byChat chatId (messageStore db) ->
  getMessages chatId limit db' = getMessages chatId limit db.
Proof. unfold getMessages. intros ->. reflexivity. Qed.

(** X23.  [deleteProject] takes the project's chats and their messages
    with it, and nothing else: afterwards the project is gone from the
    list of projects, it has no chats, none of its former chats has a
    message, and the chats of every other project and the messages of
    every other chat read as before.  [deleteChat], in contrast, leaves
    the messages of the deleted chat in the store. *)
Theorem deleteProject_cascade (id : string) (db : Database) :
  wellformed db ->
  let db' := deleteProject id db in
  (forall p, p ∈ getProjects db' <-> p ∈ getProjects db /\ project_id p <> id)
  /\ getChats id db' = []
  /\ (forall chat limit, chat ∈ getChats id db -> getMessages (chat_id chat) limit db' = [])
  /\ (forall other, other <> id -> getChats other db' = getChats other db)
  /\ (forall chatId limit,
        (forall chat, chat ∈ getChats id db -> chat_id chat <> chatId) ->
        getMessages chatId limit db' = getMessages chatId limit db)
  /\ wellformed db'
  /\ (forall chatId limit,
        getMessages chatId limit (deleteChat chatId db) = getMessages chatId limit db).
Proof.
  intros (Hop & Hoc & Hom) db'.
  set (ids := map chat_id (getChats id db)).
  assert (Hchats : chatStore db'
                   = List.filter (fun c => negb (chat_projectId c =? id)) (chatStore db)).
  { subst db'. unfold deleteProject. cbn [chatStore]. rewrite fold_stores. cbn [fst].
    rewrite fold_remove. apply filter_ext_in. intros c Hc. f_equal.
    apply list_elem_of_In in Hc. apply eq_true_iff_eq. rewrite existsb_exists, String.eqb_eq.
    split.
    - intros (k & Hk & Heq). apply String.eqb_eq in Heq.
      apply in_map_iff in Hk as (c' & Hid & Hc'). apply list_elem_of_In, getChats_elem in Hc'.
      destruct Hc' as [Hin Hp].
      rewrite (ordered_unique chat_id (chatStore db) c c' Hoc Hc Hin); [exact Hp|congruence].
    - intros Hp. exists (chat_id c). split; [|apply String.eqb_refl].
      apply in_map, list_elem_of_In, getChats_elem. split; assumption. }
  assert (Hmessages : messageStore db'
                      = List.filter (fun m => negb match message_chatId m with
                                                   | Some c => existsb (String.eqb c) ids
                                                   | None => false
                                                   end) (messageStore db)).
  { subst db'. unfold deleteProject. cbn [messageStore]. rewrite fold_stores. cbn [snd].
    apply fold_deleteMessagesOf, Hom. }
  assert (HbyChat : forall chatId,
            byChat chatId (messageStore db')
            = if existsb (String.eqb chatId) ids then [] else byChat chatId (messageStore db)).
  { intros chatId. rewrite Hmessages. unfold byChat. rewrite filter_filter.
    destruct (existsb (String.eqb chatId) ids) eqn:Hin.
    - rewrite <- (filter_false (messageStore db)). apply filter_ext. intros m.
      destruct (message_chatId m) as [c|]; [|reflexivity].
      destruct (String.eqb_spec c chatId) as [->|]; [|apply andb_false_r].
      rewrite Hin. reflexivity.
    - apply filter_ext. intros m. destruct (message_chatId m) as [c|]; [|reflexivity].
      destruct (String.eqb_spec c chatId) as [->|]; [|apply andb_false_r].
      rewrite Hin. reflexivity. }
  split; [|split; [|split; [|split; [|split; [|split]]]]].
  - intros p. unfold getProjects. rewrite !sortBy_elem. subst db'. cbn [deleteProject projectStore].
    unfold remove. rewrite !list_elem_of_In, filter_In, negb_true_iff.
    destruct (String.eqb_spec (project_id p) id); split; intros [Hin Hne];
      (split; [exact Hin|congruence]).
  - unfold getChats. rewrite Hchats, <- sortBy_filter, filter_filter.
    rewrite (filter_ext _ (fun _ => false)); [rewrite filter_false; reflexivity|].
    intros c. destruct (chat_projectId c =? id)%string; reflexivity.
  - intros chat limit Hchat. unfold getMessages. rewrite HbyChat.
    replace (existsb (String.eqb (chat_id chat)) ids) with true;
      [cbn; rewrite andb_false_r; reflexivity|].
    symmetry. apply existsb_exists. exists (chat_id chat). split; [|apply String.eqb_refl].
    apply in_map, list_elem_of_In, Hchat.
  - intros other Hother. unfold getChats. rewrite Hchats, <- sortBy_filter, filter_filter.
    f_equal. apply filter_ext. intros c.
    destruct (String.eqb_spec (chat_projectId c) other) as [->|]; [|apply andb_false_r].
    destruct (String.eqb_spec other id); [contradiction|reflexivity].
  - intros chatId limit Hnone. apply getMessages_byChat. rewrite HbyChat.
    destruct (existsb (String.eqb chatId) ids) eqn:Hin; [|reflexivity].
    apply existsb_exists in Hin as (k & Hk & Heq). apply String.eqb_eq in Heq. subst k.
    apply in_map_iff in Hk as (chat & Hid & Hchat). exfalso.
    apply (Hnone chat); [apply list_elem_of_In, Hchat|exact Hid].
  - split; [|split].
    + subst db'. apply remove_ordered, Hop.
    + rewrite Hchats. apply filter_ordered, Hoc.
    + rewrite Hmessages. apply filter_ordered, Hom.
  - reflexivity.
Qed.

(** *** The order of chats *)

Lemma StronglySorted_filter {A} (R : A -> A -> Prop) (p : A -> bool) (l : list A) :
  StronglySorted R l -> StronglySorted R (List.filter p l).
Proof.
  induction 1 as [|x l Hs IH Hall]; cbn [List.filter]; [constructor|].
  destruct (p x); [|exact IH]. constructor; [exact IH|].
  rewrite Forall_forall in *. intros y Hy. apply Hall.
  apply list_elem_of_In, filter_In in Hy as [Hy _]. apply list_elem_of_In, Hy.
Qed.

Lemma StronglySorted_rev {A} (R : A -> A -> Prop) (l : list A) :
  StronglySorted R l -> StronglySorted (fun a b => R b a) (rev l).
Proof.
  induction 1 as [|x l Hs IH Hall]; [constructor|]. cbn [rev].
  apply StronglySorted_app_2; [|exact IH|repeat constructor].
  intros x1 x2 Hx1 Hx2. apply list_elem_of_singleton in Hx2 as ->.
  rewrite Forall_forall in Hall. apply Hall. rewrite <- Permutation_rev in Hx1. exact Hx1.
Qed.

Lemma getChats_sorted projectId db :
  StronglySorted (fun a b => (chat_updatedAt b <= chat_updatedAt a)%Z) (getChats projectId db).
Proof.
  unfold getChats.
  apply (StronglySorted_rev (fun a b => (chat_updatedAt a <= chat_updatedAt b)%Z)).
  apply StronglySorted_filter, sortBy_sorted.
Qed.

Lemma newest_first (l : list Chat) (x : Chat) :
  StronglySorted (fun a b => (chat_updatedAt b <= chat_updatedAt a)%Z) l ->
  x ∈ l -> (forall y, y ∈ l -> y = x \/ (chat_updatedAt y < chat_updatedAt x)%Z) ->
  head l = Some x.
Proof.
  intros Hs Hx Hall. destruct Hs as [|h t Hs Hle]; [inversion Hx|]. cbn [head]. f_equal.
  destruct (Hall h) as [Heq|Hlt]; [left|exact Heq|].
  apply elem_of_cons in Hx as [->|Hx]; [reflexivity|].
  rewrite Forall_forall in Hle. specialize (Hle x Hx). cbn in Hle. lia.
Qed.

Lemma put_newest_first (chat : Chat) (db db' : Database) :
  ordered chat_id (chatStore db) ->
  chatStore db' = put chat_id chat (chatStore db) ->
  (forall other, other ∈ chatStore db -> chat_id other <> chat_id chat ->
     chat_projectId other = chat_projectId chat ->
     (chat_updatedAt other < chat_updatedAt chat)%Z) ->
  head (getChats (chat_projectId chat) db') = Some chat.
Proof.
  intros Ho Hput Hnewer. apply newest_first; [apply getChats_sorted| |].
  - apply getChats_elem. rewrite Hput. split; [apply put_here|reflexivity].
  - intros y Hy. apply getChats_elem in Hy as [Hy Hp]. rewrite Hput in Hy.
    destruct (String.eqb_spec (chat_id y) (chat_id chat)) as [Heq|Hne].
    + left. apply (put_unique chat_id chat (chatStore db) y Ho Hy Heq).
    + right. apply put_elem in Hy as [->|Hy]; [contradiction|]. apply Hnewer; assumption.
Qed.

(** X24.  [getChats] lists the chats of the project, all of them and no
    other, the most recently updated first.  A chat that [updateChat]
    has just stamped, or that [createChat] has just made, with a time
    later than that of the project's other chats, is the first of the
    list. *)
Theorem getChats_recent_first (projectId : string) (db : Database) :
  (forall chat, chat ∈ getChats projectId db
                <-> chat ∈ chatStore db /\ chat_projectId chat = projectId)
  /\ StronglySorted (fun a b => (chat_updatedAt b <= chat_updatedAt a)%Z) (getChats projectId db)
  /\ (forall chat now,
        ordered chat_id (chatStore db) -> chat_projectId chat = projectId ->
        (forall other, other ∈ chatStore db -> chat_id other <> chat_id chat ->
           chat_projectId other = projectId -> (chat_updatedAt other < now)%Z) ->
        head (getChats projectId (updateChat chat now db)) = Some (touched chat now))
  /\ (forall title uuid createdAt updatedAt,
        ordered chat_id (chatStore db) ->
        (forall other, other ∈ chatStore db -> chat_id other <> uuid ->
           chat_projectId other = projectId -> (chat_updatedAt other < updatedAt)%Z) ->
        head (getChats projectId (snd (createChat projectId title uuid createdAt updatedAt db)))
        = Some (fst (createChat projectId title uuid createdAt updatedAt db))).
Proof.
  split; [intros chat; apply getChats_elem|]. split; [apply getChats_sorted|]. split.
  - intros chat now Ho <- Hnewer.
    apply (put_newest_first (touched chat now) db); [exact Ho|reflexivity|exact Hnewer].
  - intros title uuid createdAt updatedAt Ho Hnewer. cbn [fst snd createChat].
    match goal with |- _ = Some ?c =>
      apply (put_newest_first c db); [exact Ho|reflexivity|exact Hnewer] end.
Qed.

(** *** The most recent messages *)

Lemma recentLoop_spec (cursor messages : list StoredMessage) (limit : nat) :
  recentLoop cursor messages limit
  = rev (take (limit - length messages) cursor) ++ messages.
Proof.
  revert messages. induction cursor as [|value rest IH]; intros messages; cbn [recentLoop].
  - rewrite take_nil. reflexivity.
  - destruct (Nat.ltb_spec (length messages) limit) as [Hlt|Hge].
    + rewrite IH. cbn [length].
      replace (limit - length messages) with (S (limit - S (length messages))) by lia.
      cbn [take rev]. rewrite <- app_assoc. reflexivity.
    + replace (limit - length messages) with 0 by lia. reflexivity.
Qed.

(** X25.  [getRecentMessages] returns the newest messages of the whole
    store, of all chats alike, oldest first: the last [limit] of the
    messages in the order of their time stamps, all of them when there
    are fewer.  With the limit zero the answer is empty (while
    [getMessages] takes zero for no limit). *)
Theorem getRecentMessages_latest (limit : nat) (db : Database) :
  let all := sortBy message_timestamp (messageStore db) in
  getRecentMessages limit db = drop (length all - limit) all
  /\ length (getRecentMessages limit db) = Nat.min limit (length (messageStore db))
  /\ StronglySorted (fun a b => (message_timestamp a <= message_timestamp b)%Z)
       (getRecentMessages limit db)
  /\ getRecentMessages 0 db = []
  /\ forall chatId, getMessages chatId 0 db
                    = sortBy message_timestamp (byChat chatId (messageStore db)).
Proof.
  intros all.
  assert (Heq : forall n, getRecentMessages n db = drop (length all - n) all).
  { intros n. unfold getRecentMessages. fold all. rewrite recentLoop_spec. cbn [length].
    rewrite Nat.sub_0_r, app_nil_r, firstn_rev, rev_involutive. reflexivity. }
  assert (Hlen : length all = length (messageStore db)).
  { unfold all. rewrite sortBy_perm. reflexivity. }
  split; [apply Heq|]. split; [|split; [|split]].
  - rewrite Heq, length_drop, <- Hlen. lia.
  - rewrite Heq. assert (Hs := sortBy_sorted message_timestamp (messageStore db)). fold all in Hs.
    rewrite <- (take_drop (length all - limit) all) in Hs.
    apply StronglySorted_app_1_r in Hs. exact Hs.
  - rewrite Heq, Nat.sub_0_r. apply drop_all.
  - reflexivity.
Qed.

(** *** Key order is kept *)

Lemma wellformed_empty : wellformed empty.
Proof. repeat split; constructor. Qed.

Lemma wellformed_createProject name systemPrompt uuid now db :
  wellformed db -> wellformed (snd (createProject name systemPrompt uuid now db)).
Proof. intros (Hp & Hc & Hm). repeat split; [apply put_ordered, Hp|exact Hc|exact Hm]. Qed.

Lemma wellformed_createChat projectId title uuid createdAt updatedAt db :
  wellformed db -> wellformed (snd (createChat projectId title uuid createdAt updatedAt db)).
Proof. intros (Hp & Hc & Hm). repeat split; [exact Hp|apply put_ordered, Hc|exact Hm]. Qed.

Lemma wellformed_updateChat chat now db : wellformed db -> wellformed (updateChat chat now db).
Proof. intros (Hp & Hc & Hm). repeat split; [exact Hp|apply put_ordered, Hc|exact Hm]. Qed.

Lemma wellformed_deleteChat chatId db : wellformed db -> wellformed (deleteChat chatId db).
Proof. intros (Hp & Hc & Hm). repeat split; [exact Hp|apply remove_ordered, Hc|exact Hm]. Qed.

Lemma wellformed_addMessage draft uuid now db :
  wellformed db -> wellformed (snd (addMessage draft uuid now db)).
Proof. intros (Hp & Hc & Hm). repeat split; [exact Hp|exact Hc|apply put_ordered, Hm]. Qed.
End StoreFacts.

(** ** The provider list *)

Module ServersFacts.
Import Json Servers.

Implicit Types (s : Server) (servers : list Server).

Lemma connectServer_url outcome s : entry_url (connectServer outcome s) = entry_url s.
Proof. destruct outcome; reflexivity. Qed.

Lemma connectServer_name outcome s : entry_name (connectServer outcome s) = entry_name s.
Proof. destruct outcome; reflexivity. Qed.

Lemma toggled_url outcome s : entry_url (toggled outcome s) = entry_url s.
Proof. unfold toggled. destruct (entry_enabled s); [reflexivity|rewrite connectServer_url; reflexivity]. Qed.

Lemma updateFirst_urls p f servers :
  (forall s, entry_url (f s) = entry_url s) ->
  map entry_url (updateFirst p f servers) = map entry_url servers.
Proof.
  intros Hf. induction servers as [|s servers IH]; [reflexivity|]. cbn [updateFirst].
  destruct (p s); cbn [map]; [rewrite Hf|rewrite IH]; reflexivity.
Qed.

Lemma removeFirst_sublist p servers : removeFirst p servers `sublist_of` servers.
Proof.
  induction servers as [|s servers IH]; [constructor|]. cbn [removeFirst].
  destruct (p s); [apply sublist_cons; reflexivity|apply sublist_skip, IH].
Qed.

Lemma find_none_urls url servers :
  List.find (fun s => entry_url s =? url) servers = None -> url ∉ map entry_url servers.
Proof.
  intros Hfind Hin. apply list_elem_of_fmap in Hin as (s & -> & Hs).
  apply list_elem_of_In in Hs.
  pose proof (find_none _ _ Hfind s Hs) as Hne. cbn in Hne.
  rewrite String.eqb_refl in Hne. discriminate.
Qed.

Lemma updateFirst_Forall (P : Server -> Prop) p f servers :
  (forall s, P s -> P (f s)) -> Forall P servers -> Forall P (updateFirst p f servers).
Proof.
  intros Hf. induction 1 as [|s servers Hs Hrest IH]; [constructor|]. cbn [updateFirst].
  destruct (p s); constructor; auto.
Qed.

Lemma coherent_connectServer outcome s :
  entry_enabled s = true -> coherent (connectServer outcome s).
Proof.
  intros He. unfold coherent. destruct outcome as [tools|message]; cbn; rewrite He;
    eexists; (split; [reflexivity|]); (split; [reflexivity|]); [left|right]; auto.
Qed.

Lemma coherent_toggled outcome s : coherent (toggled outcome s).
Proof.
  unfold toggled. destruct (entry_enabled s).
  - unfold coherent. cbn. repeat split.
  - apply coherent_connectServer. reflexivity.
Qed.

Lemma coherent_named name s : coherent s -> coherent (named name s).
Proof. unfold coherent. cbn. tauto. Qed.

(** The tools an entry adds to the registry. *)
Lemma contribution_length s :
  coherent s ->
  length (match Engine.connectedClient (asProvider s) with
          | Some c => client_tools c
          | None => []
          end) = entry_toolCount s.
Proof.
  unfold coherent, Engine.connectedClient, asProvider.
  cbn [Engine.server_enabled Engine.server_status Engine.server_client].
  destruct (entry_enabled s); cbn [andb].
  - intros (client & Hc & Hn & [Hs|[Hs Ht]]); rewrite Hn, Hs; cbn; [rewrite Hc|rewrite Ht];
      reflexivity.
  - intros (_ & _ & Hn). rewrite Hn. reflexivity.
Qed.

Lemma registry_length servers :
  Forall coherent servers ->
  length (Engine.fullTools (map asProvider servers))
  = length Engine.virtualTools + list_sum (map entry_toolCount servers).
Proof.
  intros Hall. unfold Engine.fullTools. rewrite length_app. f_equal.
  induction Hall as [|s servers Hs _ IH]; [reflexivity|].
  cbn [map flat_map list_sum]. rewrite length_app, IH, (contribution_length s Hs). reflexivity.
Qed.

Lemma addServer_urls url enabled name headers id outcome servers :
  NoDup (map entry_url servers) ->
  NoDup (map entry_url (addServer url enabled name headers id outcome servers)).
Proof.
  intros Hnd. unfold addServer.
  destruct (List.find _ servers) as [existing|] eqn:Hfind.
  - destruct (negb (name =? "") && (entry_name existing =? "")); [|exact Hnd].
    rewrite updateFirst_urls; [exact Hnd|reflexivity].
  - match goal with |- context [servers ++ [?new]] => set (server := new) end.
    assert (Hnew : entry_url server = cleanUrl url).
    { subst server. destruct enabled; [rewrite connectServer_url|]; reflexivity. }
    rewrite map_app. apply NoDup_app. split; [exact Hnd|]. split.
    + intros u Hu Hin. cbn [map] in Hin. apply list_elem_of_singleton in Hin. subst u.
      rewrite Hnew in Hu. apply (find_none_urls _ _ Hfind Hu).
    + cbn [map]. apply NoDup_singleton.
Qed.

Lemma addServer_coherent url enabled name headers id outcome servers :
  Forall coherent servers ->
  Forall coherent (addServer url enabled name headers id outcome servers).
Proof.
  intros Hall. unfold addServer.
  destruct (List.find _ servers) as [existing|].
  - destruct (negb (name =? "") && (entry_name existing =? "")); [|exact Hall].
    apply updateFirst_Forall; [apply coherent_named|exact Hall].
  - apply Forall_app. split; [exact Hall|]. repeat constructor.
    destruct enabled; [apply coherent_connectServer; reflexivity|].
    unfold coherent. cbn. repeat split.
Qed.

(** X26.  Every list of providers that [addServer], [toggleServer] and
    [removeServer] lead to from the empty list holds no URL twice; each
    of its entries is either enabled with a client (connected, or failed
    and then without tools) or disabled without a client; and the tool
    counts shown for the entries add up, with the built-in tools, to the
    size of the registry the engine works with. *)
Theorem provider_list_invariants (servers : list Server) :
  reachable servers ->
  NoDup (map entry_url servers)
  /\ Forall coherent servers
  /\ length (Engine.fullTools (map asProvider servers))
     = length Engine.virtualTools + list_sum (map entry_toolCount servers).
Proof.
  intros Hreach.
  assert (Hinv : NoDup (map entry_url servers) /\ Forall coherent servers).
  { induction Hreach as [|url enabled name headers id outcome servers _ [Hnd Hall]
                          |id outcome servers _ [Hnd Hall]|id servers _ [Hnd Hall]].
    - split; constructor.
    - split; [apply addServer_urls, Hnd|apply addServer_coherent, Hall].
    - split.
      + unfold toggleServer. rewrite updateFirst_urls; [exact Hnd|apply toggled_url].
      + unfold toggleServer. apply updateFirst_Forall; [|exact Hall].
        intros s _. apply coherent_toggled.
    - pose proof (removeFirst_sublist (fun s => (entry_id s =? id)%Z) servers) as Hsub.
      split.
      + apply (sublist_NoDup _ (map entry_url servers)); [exact Hnd|].
        apply (fmap_sublist entry_url), Hsub.
      + rewrite Forall_forall in *. intros s Hs. apply Hall.
        apply (sublist_subseteq _ _ Hsub), Hs. }
  destruct Hinv as [Hnd Hall]. split; [exact Hnd|]. split; [exact Hall|].
  apply registry_length, Hall.
Qed.

Lemma find_updateFirst p f servers existing :
  List.find p servers = Some existing -> p (f existing) = true ->
  List.find p (updateFirst p f servers) = Some (f existing).
Proof.
  intros Hfind Hp. induction servers as [|s servers IH]; [discriminate|].
  cbn [List.find updateFirst] in *. destruct (p s) eqn:Hs.
  - injection Hfind as ->. cbn [List.find]. rewrite Hp. reflexivity.
  - cbn [List.find]. rewrite Hs. apply IH, Hfind.
Qed.

Lemma find_app_new p servers s :
  List.find p servers = None -> p s = true -> List.find p (servers ++ [s]) = Some s.
Proof.
  intros Hfind Hp. induction servers as [|x servers IH]; cbn [app List.find] in *.
  - rewrite Hp. reflexivity.
  - destruct (p x); [discriminate|apply IH, Hfind].
Qed.

(** X27.  Adding a provider under a URL that is already listed adds
    nothing: after [addServer], adding the same URL again, also spelled
    with surrounding blanks or one more trailing slash, with the same
    name, leaves the list as it is, whatever the other arguments. *)
Theorem addServer_twice (url url' name : string) (enabled enabled' : bool)
    (headers headers' : option json) (id id' : Z) (outcome outcome' : Result (list ToolDef))
    (servers : list Server) :
  cleanUrl url' = cleanUrl url ->
  addServer url' enabled' name headers' id' outcome'
    (addServer url enabled name headers id outcome servers)
  = addServer url enabled name headers id outcome servers.
Proof.
  intros Hurl. unfold addServer at 1. rewrite Hurl.
  set (p := fun s => entry_url s =? cleanUrl url).
  assert (Hname : negb (name =? "") && (name =? "") = false) by (destruct (name =? ""); reflexivity).
  unfold addServer. fold p. destruct (List.find p servers) as [existing|] eqn:Hfind.
  - assert (Hp : p existing = true) by (apply (find_some _ _ Hfind)).
    destruct (negb (name =? "") && (entry_name existing =? "")) eqn:Hupdate.
    + rewrite (find_updateFirst p (named name) servers existing Hfind Hp).
      cbn [entry_name named]. rewrite Hname. reflexivity.
    + rewrite Hfind, Hupdate. reflexivity.
  - match goal with |- context [servers ++ [?new]] => set (server := new) end.
    assert (Hp : p server = true).
    { subst server p. cbn beta. destruct enabled; [rewrite connectServer_url|]; cbn;
        apply String.eqb_refl. }
    rewrite (find_app_new p servers server Hfind Hp).
    replace (entry_name server) with name; [rewrite Hname; reflexivity|].
    subst server. destruct enabled; [rewrite connectServer_name|]; reflexivity.
Qed.

End ServersFacts.

(** ** The history sent to the model *)

Module PromptFacts.

Import Json Engine Extractor Prompt.

(** X28.  The tool list sent along with the history names every tool of
    the registry, in registry order and with its description, and shows
    the schema of none but the built-in names: the three built-in tools
    come first, unchanged, and every other tool either bears a built-in
    name or carries the stand-in schema. *)
Theorem llmTools_hide_schemas (servers : list McpServer) :
  map tool_name (llmTools servers) = map tool_name (fullTools servers)
  /\ map tool_description (llmTools servers) = map tool_description (fullTools servers)
  /\ take 3 (llmTools servers) = virtualTools
  /\ Forall (fun t => tool_name t ∈ map tool_name virtualTools
                      \/ tool_parameters t = Some hiddenParameters) (llmTools servers).
Proof.
  unfold llmTools. split; [|split; [|split]].
  - rewrite map_map. apply map_ext. intros t. unfold llmTool.
    destruct (_ || _); reflexivity.
  - rewrite map_map. apply map_ext. intros t. unfold llmTool.
    destruct (_ || _); reflexivity.
  - reflexivity.
  - apply Forall_forall. intros t Ht. apply list_elem_of_fmap in Ht as (t0 & -> & _).
    unfold llmTool.
    destruct (String.eqb_spec (tool_name t0) "getToolSchema") as [Hg|_];
      [left; rewrite Hg; cbn; set_solver|].
    destruct (String.eqb_spec (tool_name t0) "evalCode") as [He|_];
      [left; rewrite He; cbn; set_solver|].
    destruct (String.eqb_spec (tool_name t0) "listTools") as [Hl|_];
      [left; rewrite Hl; cbn; set_solver|].
    right. reflexivity.
Qed.

(** *** Text without fence markers *)

Ltac distinct_chars := let Heq := fresh in intros Heq; vm_compute in Heq; discriminate Heq.

Lemma list_ascii_app (a b : string) :
  list_ascii_of_string (a +:+ b) = list_ascii_of_string a ++ list_ascii_of_string b.
Proof. induction a as [|c a IH]; [reflexivity|]. cbn. rewrite <- IH. reflexivity. Qed.

Lemma removeAllFrom_plain (pat : text) (p tail : text) :
  Forall (fun c => c <> backtick) p ->
  removeAllFrom (backtick :: pat) 0 (p ++ tail) = p ++ removeAllFrom (backtick :: pat) 0 tail.
Proof.
  induction 1 as [|c p Hc _ IH]; [reflexivity|].
  cbn [app removeAllFrom stripPrefix]. unfold isChar.
  destruct (Ascii.eqb_spec backtick c) as [Heq|_]; [congruence|]. rewrite IH. reflexivity.
Qed.

Lemma removeAll_plain (pat : string) (p tail : text) :
  Forall (fun c => c <> backtick) p ->
  removeAll (String backtick pat) (p ++ tail) = p ++ removeAll (String backtick pat) tail.
Proof. apply removeAllFrom_plain. Qed.

Lemma trim_brackets (body : text) :
  trim (ascii_of_nat 10 :: (openBracket :: body ++ [closeBracket]) ++ [ascii_of_nat 10])
  = openBracket :: body ++ [closeBracket].
Proof.
  unfold trim. cbn [trimStart app].
  change (isWhite (ascii_of_nat 10)) with true. change (isWhite openBracket) with false.
  cbn iota. cbn [rev]. rewrite !rev_app_distr. cbn [rev app trimStart].
  change (isWhite (ascii_of_nat 10)) with true. change (isWhite closeBracket) with false.
  cbn iota. cbn [rev]. rewrite rev_app_distr, rev_involutive. cbn [rev app].
  reflexivity.
Qed.

Lemma cleanText_fenced (body : text) :
  Forall (fun c => c <> backtick) body ->
  cleanText (list_ascii_of_string ("```json" +:+ nl) ++ (openBracket :: body ++ [closeBracket])
             ++ list_ascii_of_string (nl +:+ "```"))
  = openBracket :: body ++ [closeBracket].
Proof.
  intros Hbody. unfold cleanText.
  set (printed := openBracket :: body ++ [closeBracket]).
  assert (Hprinted : Forall (fun c => c <> backtick) (ascii_of_nat 10 :: printed)).
  { subst printed. constructor; [distinct_chars|]. constructor; [distinct_chars|].
    apply Forall_app. split; [exact Hbody|]. constructor; [distinct_chars|constructor]. }
  replace (removeAll "```json"
             (list_ascii_of_string ("```json" +:+ nl) ++ printed
              ++ list_ascii_of_string (nl +:+ "```")))
    with (removeAll "```json"
            ((ascii_of_nat 10 :: printed) ++ list_ascii_of_string (nl +:+ "```")))
    by reflexivity.
  change "```json" with (String backtick "``json").
  rewrite (removeAll_plain "``json" _ _ Hprinted).
  replace (removeAll (String backtick "``json") (list_ascii_of_string (nl +:+ "```")))
    with (list_ascii_of_string (nl +:+ "```")) by reflexivity.
  change "```" with (String backtick "``") at 1.
  rewrite (removeAll_plain "``" _ _ Hprinted).
  replace (removeAll (String backtick "``") (list_ascii_of_string (nl +:+ String backtick "``")))
    with [ascii_of_nat 10] by reflexivity.
  apply trim_brackets.
Qed.

Lemma arrayMatch_brackets (body : text) :
  arrayMatch (openBracket :: body ++ [closeBracket]) = Some (openBracket :: body ++ [closeBracket]).
Proof.
  unfold arrayMatch, uptoLast. cbn [fromFirst]. change (isChar openBracket openBracket) with true.
  cbn iota. cbn [rev]. rewrite rev_app_distr. cbn [rev app fromFirst].
  change (isChar closeBracket closeBracket) with true. cbn iota.
  cbn [rev]. rewrite rev_app_distr, rev_involutive. reflexivity.
Qed.

Section WithPlatform.
Context `{Platform}.

Lemma formatEach_objects k values :
  Forall (fun v => v <> JNull) values -> formatEach k values = Some (expectedCalls k values).
Proof.
  intros Hall. revert k. induction Hall as [|v values Hv _ IH]; intros k; [reflexivity|].
  cbn [formatEach expectedCalls]. rewrite IH. destruct v; try contradiction; reflexivity.
Qed.

Lemma strategyA_array (clean : text) (first : json) (rest : list json) :
  arrayMatch clean = Some clean ->
  JSON_parse (string_of_list_ascii clean) = Ok (JArr (first :: rest)) ->
  Forall (fun v => v <> JNull) (first :: rest) ->
  truthyU (get "name" first) = true ->
  strategyA clean = Some (expectedCalls 0 (first :: rest)).
Proof.
  intros Hmatch Hparse Hall Hname. unfold strategyA. rewrite Hmatch, Hparse.
  assert (Hfirst : first <> JNull) by (apply Forall_cons in Hall as [Hf _]; exact Hf).
  destruct first; try contradiction; rewrite Hname; unfold formatTools;
    apply formatEach_objects, Hall.
Qed.

Lemma expectedCalls_names k (calls : list ToolCall) :
  map ex_name (expectedCalls k (map callObject calls))
  = map (fun c => Some (JStr (call_name c))) calls.
Proof.
  revert k. induction calls as [|c calls IH]; intros k; [reflexivity|].
  cbn [map expectedCalls ex_name]. rewrite IH. reflexivity.
Qed.

Lemma argumentText_callObject (c : ToolCall) :
  argumentText (callObject c)
  = match JSON_parse (call_arguments c) with
    | Ok (JStr s) => s
    | Ok v => JSON_stringify (if truthy v then v else JObj [])
    | Err _ => call_arguments c
    end.
Proof.
  unfold argumentText, callObject. cbn.
  destruct (JSON_parse (call_arguments c)) as [v|]; [|reflexivity].
  destruct v as [|b|n|s|l|fs]; try reflexivity.
  - destruct b; reflexivity.
  - unfold orElse, truthyU, truthy. destruct (negb (n =? 0)%Z); reflexivity.
Qed.

(** X29.  What the history shows of an assistant message's calls can be
    read back by the call extractor.  The calls are sent as a fenced
    JSON array of their names and (parsed) arguments; when that array
    prints as bracketed text without a backtick that parses back to the
    array, and the first call has a non-empty name, the extractor
    recovers from this text one call per call, in order, with the same
    names; the argument text of each is the former one when it did not
    parse or parsed to a string's content, and otherwise the compact
    serialization of what it parsed to (an empty object standing in for
    a falsy value). *)
Theorem replayed_calls_are_extracted (first : ToolCall) (rest : list ToolCall) (body : text) :
  let calls := first :: rest in
  let objects := map callObject calls in
  call_name first <> "" ->
  list_ascii_of_string (JSON_pretty (JArr objects)) = openBracket :: body ++ [closeBracket] ->
  Forall (fun c => c <> backtick) body ->
  JSON_parse (JSON_pretty (JArr objects)) = Ok (JArr objects) ->
  wire_content (processMessage (Assistant None calls)) = toolsJson calls
  /\ extractTools (list_ascii_of_string (toolsJson calls)) = Some (expectedCalls 0 objects)
  /\ map ex_name (expectedCalls 0 objects) = map (fun c => Some (JStr (call_name c))) calls
  /\ Forall2 (fun c e =>
                ex_arguments e
                = match JSON_parse (call_arguments c) with
                  | Ok (JStr s) => s
                  | Ok v => JSON_stringify (if truthy v then v else JObj [])
                  | Err _ => call_arguments c
                  end)
       calls (expectedCalls 0 objects).
Proof.
  intros calls objects Hname Hprinted Hbody Hparse.
  split; [reflexivity|]. split; [|split; [apply expectedCalls_names|]].
  - unfold extractTools, toolsJson. fold objects.
    rewrite !list_ascii_app, Hprinted.
    replace (list_ascii_of_string "```json" ++ list_ascii_of_string nl
             ++ (openBracket :: body ++ [closeBracket])
             ++ list_ascii_of_string nl ++ list_ascii_of_string "```")
      with (list_ascii_of_string ("```json" +:+ nl) ++ (openBracket :: body ++ [closeBracket])
            ++ list_ascii_of_string (nl +:+ "```")) by reflexivity.
    rewrite (cleanText_fenced body Hbody).
    rewrite (strategyA_array _ (callObject first) (map callObject rest)); [reflexivity| | | |].
    + apply arrayMatch_brackets.
    + rewrite <- Hprinted, string_of_list_ascii_of_string. exact Hparse.
    + apply Forall_forall. intros v Hv.
      change (callObject first :: map callObject rest) with (map callObject calls) in Hv.
      apply list_elem_of_fmap in Hv as (c & -> & _). discriminate.
    + unfold callObject. cbn. destruct (String.eqb_spec (call_name first) "");
        [contradiction|reflexivity].
  - subst objects. generalize 0. generalize calls. clear.
    intros calls. induction calls as [|c calls IH]; intros k; [constructor|].
    cbn [map expectedCalls]. constructor; [|apply IH].
    cbn [ex_arguments]. apply argumentText_callObject.
Qed.

End WithPlatform.

End PromptFacts.

(** ** The further properties on concrete inputs *)

Module Cases.

Import Json Extractor Engine Reference Fixtures.

(** The examples run on the reference platform unless they name another. *)
#[local] Existing Instance demo.

(** Two [listTools] calls, the second with a pattern the platform refuses:
    the loop runs through both and the world stays as it was. *)
Lemma listTools_never_halts_witness :
  let c1 := callOf "call_1" "listTools" (JObj []) in
  let c2 := callOf "call_2" "listTools" (JObj [("query", JStr "("); ("use_regex", JBool true)]) in
  exists st', @executeLoopFlow demo virtualTools [c1; c2] freshSession = (Next, st')
              /\ world st' = world freshSession.
Proof.
  intros c1 c2.
  destruct (PipelineFacts.listTools_never_halts (H := demo) virtualTools [c1; c2] freshSession)
    as (st' & Hflow & Hworld & _).
  - repeat constructor.
  - exists st'. split; [exact Hflow|exact Hworld].
Defined.

(** A [listTools] and a [getToolSchema] call with no provider connected:
    no approval is asked and the world stays as it was. *)
Lemma exempt_tools_leave_world_witness :
  let c1 := callOf "call_1" "listTools" (JObj []) in
  let c2 := callOf "call_2" "getToolSchema" (JObj [("name", JStr "evalCode")]) in
  needsApproval freshSession [c1; c2] = []
  /\ world (@executeTools demo [c1; c2] freshSession) = world freshSession.
Proof.
  intros c1 c2. apply (PipelineFacts.exempt_tools_leave_world (H := demo)).
  - constructor; [right; reflexivity|]. constructor; [left; reflexivity|constructor].
  - reflexivity.
Defined.

(** A provider lists a tool named [getToolSchema]: the registry still
    answers with the built-in one. *)
Lemma builtin_tools_not_shadowed_witness :
  findTool (fullTools [connected shadowing]) "getToolSchema" = Some getToolSchemaTool.
Proof.
  apply (PipelineFacts.builtin_tools_not_shadowed (H := demo) [connected shadowing]
           getToolSchemaTool (callOf "call_1" "getToolSchema" (JObj []))).
  left.
Defined.

(** With that provider connected, a [getToolSchema] call is answered twice:
    by the built-in block and by the provider. *)
Lemma getToolSchema_reaches_provider_witness :
  let call := callOf "call_1" "getToolSchema" (JObj [("name", JStr "evalCode")]) in
  @messages demo (snd (executeCall (fullTools [connected shadowing]) call shadowedSession))
  = [Tool "call_1" "getToolSchema" (option_map JSON_pretty (tool_parameters evalCodeTool)) false;
     Tool "call_1" "getToolSchema" (Some "ok") false].
Proof.
  intros call.
  destruct (PipelineFacts.getToolSchema_reaches_provider (H := demo) call shadowedSession
              shadowing (JObj [("name", JStr "evalCode")])) as [_ Hexec].
  - reflexivity.
  - reflexivity.
  - reflexivity.
  - reflexivity.
  - change (fullTools [connected shadowing]) with (fullTools (mcpServers shadowedSession)).
    rewrite Hexec. vm_compute. reflexivity.
Defined.

(** With a validator that rejects the arguments, the provider path stops
    with a flagged message on the state as it was. *)
Lemma invalid_arguments_stop_before_provider_witness :
  let call := callOf "call_1" "lookup" (JObj [("word", JNum 1)]) in
  exists content,
    @runRemote strict (fullTools [connected shadowing]) call strictSession
    = (Break, @pushTool strict call (Some content) true strictSession).
Proof.
  intros call.
  apply (PipelineFacts.invalid_arguments_stop_before_provider (H := strict)
           (fullTools [connected shadowing]) call strictSession
           {| tool_name := "lookup"; tool_description := Some "Look a word up.";
              tool_parameters := Some (JObj [("type", JStr "object")]) |}
           (JObj [("type", JStr "object")])).
  - reflexivity.
  - reflexivity.
  - reflexivity.
  - intros args _. exists "data must be string". split; [reflexivity|discriminate].
Defined.

(** Code that returns a string starting with [Eval Error:] ends the batch
    although it ran to its end. *)
Lemma evalCode_flag_follows_text_witness :
  let call := callOf "call_1" "evalCode" (JObj [("code", JStr "Eval Error: made up")]) in
  let next := callOf "call_2" "listTools" (JObj []) in
  @messages literal (executeLoop virtualTools [call; next] literalSession)
  = [Tool "call_1" "evalCode" (Some "Eval Error: made up") true].
Proof.
  intros call next.
  rewrite (PipelineFacts.evalCode_flag_follows_text (H := literal) virtualTools call [next]
             literalSession (JObj [("code", JStr "Eval Error: made up")])
             "Eval Error: made up" []).
  - vm_compute. reflexivity.
  - reflexivity.
  - reflexivity.
  - discriminate.
  - reflexivity.
Defined.


(** An [evalCode] call approved once, the sandbox being on: the same call
    needs approval again. *)
Lemma once_grant_is_not_remembered_witness :
  let call := callOf "call_1" "evalCode" (JObj [("code", JStr "return 1")]) in
  let suspended := @handleWorkerResponse demo None [call] freshSession in
  needsApproval (approveToolCalls "once" suspended) [call] = [call].
Proof.
  intros call suspended.
  destruct (PipelineFacts.once_grant_is_not_remembered (H := demo) "once" suspended [call])
    as (_ & _ & Hsame).
  - discriminate.
  - discriminate.
  - destruct (Hsame (or_introl eq_refl)) as [_ Hneeds]. rewrite Hneeds. vm_compute. reflexivity.
Defined.

(** A turn with the same [evalCode] call twice, then a message of the user:
    what is pending still needs approval. *)
Lemma pending_batch_needs_approval_witness :
  let call := callOf "call_1" "evalCode" (JObj [("code", JStr "return 1")]) in
  needsApproval
    (run freshSession [WorkerResponse None [call; call]; Send "well?" ("chat-2", [])]) [call]
  <> [].
Proof.
  intros call.
  destruct (PipelineFacts.pending_batch_needs_approval (H := demo) freshSession
              [WorkerResponse None [call; call]; Send "well?" ("chat-2", [])]
              {| pending_calls := [call]; pending_errorCall := None |})
    as (_ & _ & Hneeds & _).
  - reflexivity.
  - vm_compute. reflexivity.
  - apply Hneeds. vm_compute. reflexivity.
Defined.

(** A [listTools] call followed by a call of an unknown tool: the model is
    entered twice. *)
Lemma corrective_report_reenters_model_witness :
  let c1 := callOf "call_1" "listTools" (JObj []) in
  let c2 := callOf "call_2" "nope" (JObj []) in
  let result := Invalid "Tool 'nope' not found." None in
  length (posted (@runExecution demo [c1] (Some (c2, result)) freshSession)) = 2.
Proof.
  intros c1 c2 result.
  rewrite (PipelineFacts.corrective_report_reenters_model (H := demo) [c1] c2 result
             (default "" (correctiveContent c2 result)) freshSession).
  - reflexivity.
  - reflexivity.
Defined.

(** An [evalCode] call followed by a call of an unknown tool, approved
    once: the last message answers the unknown tool with the empty text. *)
Lemma deferred_report_drops_error_witness :
  let c1 := callOf "call_1" "evalCode" (JObj [("code", JStr "return 1")]) in
  let c2 := callOf "call_2" "nope" (JObj []) in
  let suspended := @handleWorkerResponse demo None [c1; c2] freshSession in
  last (messages (approveToolCalls "once" suspended)) = Some (Tool "call_2" "nope" (Some "") false).
Proof.
  intros c1 c2 suspended.
  destruct (PipelineFacts.deferred_report_drops_error (H := demo) "once" suspended
              {| pending_calls := [c1];
                 pending_errorCall := Some (c2, Invalid "Tool 'nope' not found." None) |}
              c2 "Tool 'nope' not found." None) as [Hlast _].
  - vm_compute. reflexivity.
  - reflexivity.
  - reflexivity.
  - reflexivity.
  - exact Hlast.
Defined.

(** A [listTools] call without an active chat: the history stays empty and
    goes to the model as it is. *)
Lemma results_dropped_without_chat_witness :
  let call := callOf "call_1" "listTools" (JObj []) in
  messages (@executeTools demo [call] chatlessSession) = []
  /\ posted (@executeTools demo [call] chatlessSession) = [[]].
Proof.
  intros call. apply (PipelineFacts.results_dropped_without_chat (H := demo) [call] chatlessSession).
  reflexivity.
Defined.

(** Two spellings of the same query. *)
Lemma keyword_search_ignores_case_witness :
  @listToolsResults demo virtualTools (JObj [("query", JStr "EVAL code")])
  = listToolsResults virtualTools (JObj [("query", JStr "eval CODE")]).
Proof.
  apply (PipelineFacts.keyword_search_ignores_case (H := demo)). reflexivity.
Defined.

(** The text of one call object. *)
Lemma extractTools_calls_named_witness :
  let raw := list_ascii_of_string
               (stringify (JObj [("name", JStr "listTools"); ("arguments", JObj [])])) in
  exists call rest,
    @extractTools demo raw = Some (call :: rest) /\ truthyU (ex_name call) = true.
Proof.
  intros raw.
  destruct (ExtractionFacts.extractTools_calls_named (H := demo) raw
              [ {| ex_id := "call_0"; ex_name := Some (JStr "listTools"); ex_arguments := "{}" |} ])
    as [(call & rest & Hcalls & Hname) _].
  - vm_compute. reflexivity.
  - exists call, rest. split; [|exact Hname]. rewrite <- Hcalls. vm_compute. reflexivity.
Defined.

(** *** The message store *)

(** The sample store after the first project was deleted. *)
Lemma deleteProject_cascade_witness :
  Store.getChats "p1" (Store.deleteProject "p1" sampleStore) = []
  /\ Store.getMessages "c1" 50 (Store.deleteProject "p1" sampleStore) = []
  /\ Store.getMessages "c2" 50 (Store.deleteProject "p1" sampleStore)
     = Store.getMessages "c2" 50 sampleStore.
Proof.
  destruct (StoreFacts.deleteProject_cascade "p1" sampleStore)
    as (_ & Hchats & Hgone & _ & Hkept & _).
  - repeat split; repeat constructor.
  - split; [exact Hchats|]. split.
    + apply (Hgone {| Store.chat_id := "c1"; Store.chat_projectId := "p1";
                      Store.chat_title := "General"; Store.chat_createdAt := 3;
                      Store.chat_updatedAt := 3 |} 50).
      vm_compute. left.
    + apply Hkept. intros chat Hchat. vm_compute in Hchat.
      apply list_elem_of_singleton in Hchat. subst chat. discriminate.
Defined.

(** *** The provider list *)

(** A provider added, connected with two tools, and then switched off. *)
Lemma provider_list_invariants_witness :
  let servers :=
    Servers.toggleServer 1 (Err "unreachable")
      (Servers.addServer "http://localhost:3000/mcp/" true "local" None 1
         (Ok (client_tools shadowing)) []) in
  NoDup (map Servers.entry_url servers)
  /\ length (fullTools (map Servers.asProvider servers)) = 3.
Proof.
  intros servers.
  destruct (ServersFacts.provider_list_invariants servers) as (Hurls & _ & Hsize).
  - repeat constructor.
  - split; [exact Hurls|]. rewrite Hsize. reflexivity.
Defined.

(** The same URL again, with blanks around it and a trailing slash. *)
Lemma addServer_twice_witness :
  let servers := Servers.addServer "http://localhost:3000/mcp" true "local" None 1
                   (Ok (client_tools shadowing)) [] in
  Servers.addServer "  http://localhost:3000/mcp/ " false "local" None 2 (Err "refused") servers
  = servers.
Proof.
  intros servers. apply ServersFacts.addServer_twice. vm_compute. reflexivity.
Defined.

(** *** The history sent to the model *)

(** Two calls, the second with argument text that is not JSON: the
    extractor reads the printed history back with the argument text of the
    first serialized anew and that of the second as it was. *)
Lemma replayed_calls_are_extracted_witness :
  let c1 := callOf "call_1" "listTools" (JObj [("query", JStr "mail")]) in
  let c2 := {| call_id := "call_2"; call_name := "evalCode"; call_arguments := "return 1" |} in
  option_map (map ex_arguments)
    (@extractTools demo (list_ascii_of_string (Prompt.toolsJson [c1; c2])))
  = Some [stringify (JObj [("query", JStr "mail")]); "return 1"].
Proof.
  intros c1 c2.
  destruct (PromptFacts.replayed_calls_are_extracted (H := demo) c1 [c2]
              (removelast (tail (list_ascii_of_string
                                   (pretty (JArr (map Prompt.callObject [c1; c2]))))))) 
    as (_ & Hextract & _).
  - discriminate.
  - vm_compute. reflexivity.
  - apply (bool_decide_unpack _). vm_compute. exact I.
  - vm_compute. reflexivity.
  - rewrite Hextract. vm_compute. reflexivity.
Defined.


(** *** Turns *)

(** A valid call of the provider's [lookup] tool is answered by the
    provider. *)
Lemma validated_call_reaches_provider_witness :
  let call := callOf "call_1" "lookup" (JObj [("word", JStr "mcp")]) in
  @messages demo (snd (executeCall (fullTools [connected shadowing]) call shadowedSession))
  = [Tool "call_1" "lookup" (Some "ok") false].
Proof.
  intros call.
  destruct (TurnFacts.validated_call_reaches_provider (H := demo) call shadowedSession shadowing)
    as (args & Hparse & Hexec).
  - discriminate.
  - discriminate.
  - discriminate.
  - reflexivity.
  - reflexivity.
  - change (fullTools [connected shadowing]) with (fullTools (mcpServers shadowedSession)).
    rewrite Hexec. reflexivity.
Defined.

(** A message of the user, a turn with a [listTools] call and a refusal. *)
Lemma history_is_append_only_witness :
  let call := callOf "call_1" "listTools" (JObj []) in
  exists added,
    @messages demo
      (run freshSession [Send "hello" ("chat-2", []); WorkerResponse None [call]; Cancel])
    = messages freshSession ++ added.
Proof.
  intros call.
  destruct (TurnFacts.history_is_append_only (H := demo) freshSession
              [Send "hello" ("chat-2", []); WorkerResponse None [call]; Cancel]) as [Happend _].
  destruct Happend as [_ Hadded]; [reflexivity| |exact Hadded].
  repeat constructor; try discriminate; intros servers chat; discriminate.
Defined.

(** An [evalCode] call approved once runs as it would have without the
    gate, here into the watchdog. *)
Lemma approval_resumes_the_turn_witness :
  let call := callOf "call_1" "evalCode" (JObj [("code", JStr "while (true) {}")]) in
  @messages demo (approveToolCalls "once" (handleWorkerResponse None [call] freshSession))
  = [Assistant None [call];
     Tool "call_1" "evalCode" (Some "Eval Error: Execution timed out (Infinite loop detected?)")
       true].
Proof.
  intros call.
  rewrite (TurnFacts.approval_resumes_the_turn (H := demo) "once" None [call] freshSession).
  - vm_compute. reflexivity.
  - discriminate.
  - discriminate.
  - reflexivity.
  - vm_compute. discriminate.
Defined.

(** A call of an unknown tool followed by a [listTools] call: nothing
    is pending, and the history holds the assistant message and the one
    report. *)
Lemma unknown_tool_is_reported_witness :
  let c1 := callOf "call_1" "nope" (JObj []) in
  let c2 := callOf "call_2" "listTools" (JObj []) in
  pendingToolCalls (@handleWorkerResponse demo None [c1; c2] freshSession) = None
  /\ length (messages (@handleWorkerResponse demo None [c1; c2] freshSession)) = 2.
Proof.
  intros c1 c2.
  destruct (TurnFacts.unknown_tool_is_reported (H := demo) None c1 [c2] freshSession)
    as (Hturn & _ & Hpending).
  - discriminate.
  - reflexivity.
  - split; [rewrite Hpending; reflexivity|]. rewrite Hturn. reflexivity.
Defined.

End Cases.
